(** * travel_planner: the itinerary route (src/app/api/itinerary/route.ts)

    A shallow embedding of the streaming ingestion loop of
    [generateCozeItinerary] and of [parseCozeResponseToItinerary], with the
    properties of the specification stated and settled against it.

    JavaScript strings are sequences of UTF-16 code units; they are modelled
    as lists of code units ([N]).  The built-ins of the host that the route
    calls ([JSON.parse], the rendering of a number as text) are collected in
    the class [HostRuntime]; everything else is translated from the route. *)

From Stdlib Require Import String Ascii NArith ZArith Bool Lia List.
Import ListNotations.

#[local] Set Warnings "-register-all".

(* ================================================================== *)
(** * JavaScript strings *)
(* ================================================================== *)

Module JsString.

Definition jsstring := list N.

(** Reading a string literal of this file (UTF-8 bytes) as UTF-16 code
    units, so that literals can be written as they appear in the route. *)
Definition bytes_of (s : string) : list N :=
  List.map N_of_ascii (list_ascii_of_string s).

Definition cont_bits (b : N) : N := N.land b 63.

Fixpoint utf8_units (bs : list N) : jsstring :=
  match bs with
  | [] => []
  | b0 :: r0 =>
      if (b0 <? 128)%N then b0 :: utf8_units r0
      else if (b0 <? 224)%N then
        match r0 with
        | b1 :: r1 => (N.land b0 31 * 64 + cont_bits b1)%N :: utf8_units r1
        | [] => [65533%N]
        end
      else if (b0 <? 240)%N then
        match r0 with
        | b1 :: b2 :: r2 =>
            (N.land b0 15 * 4096 + cont_bits b1 * 64 + cont_bits b2)%N
              :: utf8_units r2
        | _ => [65533%N]
        end
      else
        match r0 with
        | b1 :: b2 :: b3 :: r3 =>
            let cp := (N.land b0 7 * 262144 + cont_bits b1 * 4096
                       + cont_bits b2 * 64 + cont_bits b3)%N in
            let v := (cp - 65536)%N in
            (55296 + v / 1024)%N :: (56320 + v mod 1024)%N :: utf8_units r3
        | _ => [65533%N]
        end
  end.

Definition js (s : string) : jsstring := utf8_units (bytes_of s).

(** The line feed, ['\n'] in the route. *)
Definition LF : jsstring := [10%N].

Fixpoint str_eqb (a b : jsstring) : bool :=
  match a, b with
  | [], [] => true
  | x :: a', y :: b' => (x =? y)%N && str_eqb a' b'
  | _, _ => false
  end.

(** [s.length === 0], and the truthiness of a string. *)
Definition is_empty (s : jsstring) : bool :=
  match s with [] => true | _ => false end.

Definition truthy_str (s : jsstring) : bool := negb (is_empty s).

(** [s.startsWith(p)] *)
Fixpoint startsWith (p s : jsstring) : bool :=
  match p, s with
  | [], _ => true
  | x :: p', y :: s' => (x =? y)%N && startsWith p' s'
  | _ :: _, [] => false
  end.

(** [s.indexOf(p)], [None] standing for [-1]. *)
Fixpoint indexOf (p s : jsstring) : option nat :=
  if startsWith p s then Some 0
  else match s with
       | [] => None
       | _ :: s' => option_map S (indexOf p s')
       end.

(** [s.includes(p)] *)
Definition includes (p s : jsstring) : bool :=
  match indexOf p s with Some _ => true | None => false end.

(** [s.substring(a, b)] for [a <= b], and [s.substring(a)]. *)
Definition substring (a b : nat) (s : jsstring) : jsstring :=
  firstn (b - a) (skipn a s).

Definition substring_from (a : nat) (s : jsstring) : jsstring := skipn a s.

(** White space and line terminators: what [trim], the class [\s] of regular
    expressions and [parseInt] skip. *)
Definition is_space (c : N) : bool :=
  ((9 <=? c) && (c <=? 13) || (c =? 32) || (c =? 160) || (c =? 5760)
   || (8192 <=? c) && (c <=? 8202) || (c =? 8232) || (c =? 8233)
   || (c =? 8239) || (c =? 8287) || (c =? 12288) || (c =? 65279))%N.

Fixpoint trimStart (s : jsstring) : jsstring :=
  match s with
  | c :: s' => if is_space c then trimStart s' else s
  | [] => []
  end.

Definition trimEnd (s : jsstring) : jsstring := rev (trimStart (rev s)).

(** [s.trim()] *)
Definition trim (s : jsstring) : jsstring := trimEnd (trimStart s).

(** [s.split(c)] for a separator of one code unit. *)
Fixpoint split_acc (c : N) (cur : jsstring) (s : jsstring) : list jsstring :=
  match s with
  | [] => [rev cur]
  | x :: s' =>
      if (x =? c)%N then rev cur :: split_acc c [] s'
      else split_acc c (x :: cur) s'
  end.

Definition split_char (c : N) (s : jsstring) : list jsstring :=
  split_acc c [] s.

(** [parts.join(sep)] *)
Fixpoint join (sep : jsstring) (parts : list jsstring) : jsstring :=
  match parts with
  | [] => []
  | [p] => p
  | p :: rest => p ++ sep ++ join sep rest
  end.

(** [s.replace(/ab/g, rep)] for a pattern of two literal code units: every
    occurrence, left to right, without overlap. *)
Fixpoint replace2 (a b : N) (rep : jsstring) (s : jsstring) : jsstring :=
  match s with
  | [] => []
  | x :: tl =>
      match tl with
      | y :: rest =>
          if ((x =? a) && (y =? b))%N then rep ++ replace2 a b rep rest
          else x :: replace2 a b rep tl
      | [] => [x]
      end
  end.

(** [s.replace(/[...]/g, '')]: the code units of a class removed. *)
Definition remove_class (p : N -> bool) (s : jsstring) : jsstring :=
  filter (fun c => negb (p c)) s.

(** ** [parseInt(s)] with no radix

    Leading white space is skipped, a sign is read, a [0x] prefix selects
    radix 16, and the longest prefix of digits is the value.  [None] is
    [NaN].  The value is the mathematical integer; the route only tests it
    for truthiness and uses it as a count. *)
Definition digit_val (radix : N) (c : N) : option N :=
  let v :=
    if ((48 <=? c) && (c <=? 57))%N then Some (c - 48)%N
    else if ((97 <=? c) && (c <=? 122))%N then Some (c - 87)%N
    else if ((65 <=? c) && (c <=? 90))%N then Some (c - 55)%N
    else None in
  match v with
  | Some d => if (d <? radix)%N then Some d else None
  | None => None
  end.

Fixpoint digits_acc (radix : N) (acc : option N) (s : jsstring) : option N :=
  match s with
  | [] => acc
  | c :: s' =>
      match digit_val radix c with
      | Some d =>
          digits_acc radix
            (Some (match acc with Some a => a * radix + d | None => d end)%N) s'
      | None => acc
      end
  end.

Definition strip_hex_prefix (s : jsstring) : option jsstring :=
  match s with
  | 48%N :: x :: rest => if ((x =? 120) || (x =? 88))%N then Some rest else None
  | _ => None
  end.

Definition parseInt (s : jsstring) : option Z :=
  let s1 := trimStart s in
  let '(neg, s2) :=
    match s1 with
    | 45%N :: r => (true, r)
    | 43%N :: r => (false, r)
    | _ => (false, s1)
    end in
  let magnitude :=
    match strip_hex_prefix s2 with
    | Some r => digits_acc 16 None r
    | None => digits_acc 10 None s2
    end in
  match magnitude with
  | Some m => Some (if neg then - Z.of_N m else Z.of_N m)%Z
  | None => None
  end.

End JsString.
Export JsString.

(* ================================================================== *)
(** * The request *)
(* ================================================================== *)

(** [interface TravelParams]; an optional field is an [option]. *)
Record TravelParams := {
  location : jsstring;
  destination : option jsstring;
  days : jsstring;
  travelers : option jsstring;
  preference : option jsstring;
  budget : option jsstring;
  user_id : option jsstring
}.

(** The truthiness of an optional string field: present and not empty. *)
Definition truthy_opt (o : option jsstring) : bool :=
  match o with Some s => truthy_str s | None => false end.

(** [n || 3] on the result of [parseInt]: [NaN] and [0] give 3. *)
Definition or_3 (n : option Z) : Z :=
  match n with
  | Some v => if (v =? 0)%Z then 3%Z else v
  | None => 3%Z
  end.

(** The day count of [parseCozeResponseToItinerary]:
<<
  if (params.days.includes('-')) {
    const [_, maxDays] = params.days.split('-').map(d => parseInt(d));
    days = maxDays || 3;
  } else {
    days = parseInt(params.days) || 3;
  }
>> *)
Definition parse_days (params : TravelParams) : Z :=
  if includes (js "-") (days params) then
    match List.map parseInt (split_char 45 (days params)) with
    | _ :: maxDays :: _ => or_3 maxDays
    | _ => 3%Z
    end
  else or_3 (parseInt (days params)).

(** The budget line:
    [params.budget ? `预算约${params.budget}元人民币` : '预算不限'] *)
Definition budget_text (params : TravelParams) : jsstring :=
  if truthy_opt (budget params) then
    match budget params with
    | Some b => js "预算约" ++ b ++ js "元人民币"
    | None => js "预算不限"
    end
  else js "预算不限".

(** A request from 北京 with a given day count and budget. *)
Definition request (d : jsstring) (b : option jsstring) : TravelParams :=
  {| location := js "北京"; destination := None; days := d;
     travelers := None; preference := None; budget := b; user_id := None |}.


(* ================================================================== *)
(** * Regular expressions of the route *)
(* ================================================================== *)

(** The backtracking matcher of ECMAScript, in the continuation-passing
    style of the language definition, for the constructs the route's
    patterns use.  The [i] flag of some patterns is not represented: the
    literals of those patterns are ideographs, colons and punctuation, which
    have no case variants, so the flag changes no match. *)
Module Regex.

Inductive regex : Type :=
| Chr (p : N -> bool)                (* a literal code unit or a class *)
| Eps
| Cat (r1 r2 : regex)
| Alt (r1 r2 : regex)                (* r1|r2 *)
| Star (greedy : bool) (r : regex)   (* r* and r*? *)
| Group (n : nat) (r : regex)        (* the n-th capturing group *)
| Ahead (r : regex)                  (* (?=r) *)
| Eos.                               (* $ without the m flag *)

Definition captures := list (nat * jsstring).

Fixpoint capture (n : nat) (cs : captures) : option jsstring :=
  match cs with
  | [] => None
  | (m, v) :: cs' => if Nat.eqb m n then Some v else capture n cs'
  end.

Definition cont := jsstring -> captures -> option (jsstring * captures).

Definition accept : cont := fun s cs => Some (s, cs).

(** The iterations of a star.  [body] matches the starred expression once;
    an iteration that consumes nothing is rejected, as the language
    requires, so [S (length s)] iterations are never exhausted
    ([rx_star_fuel]).  A greedy star tries one more iteration before it
    tries what follows; a lazy one tries what follows first. *)
Section Star.
Variable body : jsstring -> captures -> cont -> option (jsstring * captures).
Variable greedy : bool.
Variable k : cont.

Fixpoint star_loop (fuel : nat) (s : jsstring) (cs : captures)
  : option (jsstring * captures) :=
  match fuel with
  | 0 => k s cs
  | S fuel' =>
      let again := fun s1 c1 =>
        if length s1 <? length s then star_loop fuel' s1 c1 else None in
      if greedy then
        match body s cs again with
        | Some x => Some x
        | None => k s cs
        end
      else
        match k s cs with
        | Some x => Some x
        | None => body s cs again
        end
  end.
End Star.

(** [rx r s cs k]: match [r] at the start of [s] and hand what is left to
    [k]; the first alternative that makes [k] succeed wins. *)
Fixpoint rx (r : regex) (s : jsstring) (cs : captures) (k : cont) {struct r}
  : option (jsstring * captures) :=
  match r with
  | Chr p =>
      match s with
      | c :: s' => if p c then k s' cs else None
      | [] => None
      end
  | Eps => k s cs
  | Cat a b => rx a s cs (fun s1 c1 => rx b s1 c1 k)
  | Alt a b =>
      match rx a s cs k with
      | Some x => Some x
      | None => rx b s cs k
      end
  | Star greedy a => star_loop (rx a) greedy k (S (length s)) s cs
  | Group n a =>
      rx a s cs (fun s1 c1 =>
        k s1 ((n, firstn (length s - length s1) s) :: c1))
  | Ahead a =>
      match rx a s cs accept with
      | Some (_, c1) => k s c1
      | None => None
      end
  | Eos =>
      match s with
      | [] => k s cs
      | _ :: _ => None
      end
  end.

(** The result of [s.match(r)] for a pattern without the [g] flag. *)
Record match_result := {
  m_index : nat;
  m_all : jsstring;          (* match[0] *)
  m_groups : captures
}.

(** One attempt at the current position. *)
Definition match_here (r : regex) (s : jsstring)
  : option (jsstring * jsstring * captures) :=
  match rx r s [] accept with
  | Some (rest, cs) => Some (firstn (length s - length rest) s, rest, cs)
  | None => None
  end.

(** [s.match(r)]: the leftmost position at which an attempt succeeds. *)
Fixpoint exec_from (r : regex) (i : nat) (s : jsstring) : option match_result :=
  match match_here r s with
  | Some (all, _, cs) => Some {| m_index := i; m_all := all; m_groups := cs |}
  | None =>
      match s with
      | [] => None
      | _ :: s' => exec_from r (S i) s'
      end
  end.

Definition exec (r : regex) (s : jsstring) : option match_result :=
  exec_from r 0 s.

(** [match[n]]; a group that did not take part is [undefined]. *)
Definition group (n : nat) (m : match_result) : option jsstring :=
  capture n (m_groups m).

(** [s.match(r)] for a pattern with the [g] flag: the texts of the
    successive matches; after an empty match the search moves on by one.
    Every turn moves on in the text, so [S (length s)] turns are never
    exhausted ([match_all_loop_enough]). *)
Fixpoint match_all_loop (r : regex) (fuel : nat) (s : jsstring) : list jsstring :=
  match fuel with
  | 0 => []
  | S fuel' =>
      match match_here r s with
      | Some (all, rest, _) =>
          match all with
          | [] => all :: match s with
                         | [] => []
                         | _ :: s' => match_all_loop r fuel' s'
                         end
          | _ :: _ => all :: match_all_loop r fuel' rest
          end
      | None =>
          match s with
          | [] => []
          | _ :: s' => match_all_loop r fuel' s'
          end
      end
  end.

Definition match_all (r : regex) (s : jsstring) : list jsstring :=
  match_all_loop r (S (length s)) s.

(** [s.split(r)] for a separator without capturing groups.  [cur] holds,
    reversed, the text since the end of the last separator.  Two turns at
    most are spent on a position, so [2 * length s + 2] turns are never
    exhausted ([split_loop_enough]). *)
Fixpoint split_loop (r : regex) (fuel : nat) (cur : jsstring) (s : jsstring)
  : list jsstring :=
  match fuel with
  | 0 => [rev cur ++ s]
  | S fuel' =>
      match s with
      | [] => [rev cur]
      | c :: s' =>
          match match_here r s with
          | Some (all, rest, _) =>
              if is_empty all && is_empty cur
              then split_loop r fuel' (c :: cur) s'
              else rev cur :: split_loop r fuel' [] rest
          | None => split_loop r fuel' (c :: cur) s'
          end
      end
  end.

Definition split (r : regex) (s : jsstring) : list jsstring :=
  match s with
  | [] => match match_here r [] with Some _ => [] | None => [[]] end
  | _ :: _ => split_loop r (2 * length s + 2) [] s
  end.

(** Building blocks of the patterns. *)
Definition chr (c : N) : regex := Chr (N.eqb c).

Fixpoint lit (s : jsstring) : regex :=
  match s with
  | [] => Eps
  | [c] => chr c
  | c :: s' => Cat (chr c) (lit s')
  end.

Definition plus (r : regex) : regex := Cat r (Star true r).      (* r+ *)
Definition spaces : regex := Star true (Chr is_space).           (* \s* *)
Definition any_lazy : regex := Star false (Chr (fun _ => true)). (* [\s\S]*? *)
Definition any_greedy : regex := Star true (Chr (fun _ => true)). (* [\s\S]* *)

(** [[：:]]: the full-width or the half-width colon. *)
Definition colon : regex := Chr (fun c => (c =? 65306)%N || (c =? 58)%N).

Fixpoint seq (rs : list regex) : regex :=
  match rs with
  | [] => Eps
  | [r] => r
  | r :: rs' => Cat r (seq rs')
  end.

End Regex.
Export Regex.

(* ================================================================== *)
(** * parseCozeResponseToItinerary *)
(* ================================================================== *)

(** [/旅行推荐[：:]\s*([\s\S]*?)(?=\s*行程规划[：:])/i] *)
Definition titleRegex : regex :=
  seq [lit (js "旅行推荐"); colon; spaces; Group 1 any_lazy;
       Ahead (seq [spaces; lit (js "行程规划"); colon])].

(** [/行程规划[：:]\s*([\s\S]*?)(?=\s*旅行红黑榜[：:])/i] *)
Definition planRegex : regex :=
  seq [lit (js "行程规划"); colon; spaces; Group 1 any_lazy;
       Ahead (seq [spaces; lit (js "旅行红黑榜"); colon])].

(** [/旅行红黑榜[：:]\s*([\s\S]*?)$/i] *)
Definition highlightsRegex : regex :=
  seq [lit (js "旅行红黑榜"); colon; spaces; Group 1 any_lazy; Eos].

(** [/\n\s*\n/] *)
Definition paragraphRegex : regex := seq [chr 10; spaces; chr 10].

(** [[\n,.，。]] and [[，。,.]] *)
Definition in_class (members : jsstring) (c : N) : bool :=
  existsb (N.eqb c) members.

(** [/目的地[:：]\s*([^\n,.，。]+)/i] *)
Definition destinationRegex : regex :=
  seq [lit (js "目的地"); colon; spaces;
       Group 1 (plus (Chr (fun c => negb (in_class (LF ++ js ",.，。") c))))].

(** [/([^，。,.]+(?:市|县|省|自治区|特别行政区))/] *)
Definition locationRegex : regex :=
  Group 1 (seq [plus (Chr (fun c => negb (in_class (js "，。,.") c)));
                Alt (lit (js "市")) (Alt (lit (js "县")) (Alt (lit (js "省"))
                  (Alt (lit (js "自治区")) (lit (js "特别行政区")))))]).

(** One of the three extractions:
<<
  const m = cozeText.match(re);
  if (m && m[1]) { section = m[1].trim(); }
>>
    and the section stays [''] otherwise. *)
Definition extract_section (re : regex) (cozeText : jsstring) : jsstring :=
  match exec re cozeText with
  | Some m =>
      match group 1 m with
      | Some g => if truthy_str g then trim g else []
      | None => []
      end
  | None => []
  end.

Definition sections := (jsstring * jsstring * jsstring)%type.

(** [title], [plan] and [highlights] after the three anchored patterns. *)
Definition anchored_sections (cozeText : jsstring) : sections :=
  (extract_section titleRegex cozeText,
   extract_section planRegex cozeText,
   extract_section highlightsRegex cozeText).

(** [paragraphs.slice(1, -1)] *)
Definition slice_1_m1 (l : list jsstring) : list jsstring :=
  removelast (tl l).

(** The body of [if (!title && !plan && !highlights) { ... }]. *)
Definition fallback_sections (cozeText : jsstring) : sections :=
  let paragraphs := split paragraphRegex cozeText in
  if 3 <=? length paragraphs then
    (nth 0 paragraphs [],
     join (LF ++ LF) (slice_1_m1 paragraphs),
     last paragraphs [])
  else
    let lines := split_char 10 cozeText in
    if 1 <? length lines then
      (nth 0 lines [], join LF (tl lines), [])
    else
      (js "你的旅行计划", cozeText, js "根据AI生成").

(** The three sections as [parseCozeResponseToItinerary] leaves them. *)
Definition split_sections (cozeText : jsstring) : sections :=
  let '(title, plan, highlights) := anchored_sections cozeText in
  if negb (truthy_str title) && negb (truthy_str plan)
     && negb (truthy_str highlights)
  then fallback_sections cozeText
  else (title, plan, highlights).

(** The destination cascade. *)
Definition infer_destination (cozeText title : jsstring) : jsstring :=
  let marked :=
    match exec destinationRegex cozeText with
    | Some m => match group 1 m with
                | Some g => if truthy_str g then Some (trim g) else None
                | None => None
                end
    | None => None
    end in
  match marked with
  | Some d => d
  | None =>
      match exec locationRegex title with
      | Some m => match group 1 m with Some g => g | None => [] end
      | None =>
          if 0 <? length title then
            remove_class (in_class (js "，。,."))
              (substring 0 (Nat.min 10 (length title)) title)
          else js "未知目的地"
      end
  end.

(** [let summary = title || cozeText.substring(0, 200);
     if (summary.length >= 200) summary += '...';] *)
Definition make_summary (cozeText title : jsstring) : jsstring :=
  let summary := if truthy_str title then title else substring 0 200 cozeText in
  if 200 <=? length summary then summary ++ js "..." else summary.

(** [interface Itinerary].  [startDate], [endDate] and the entries of
    [dailyItinerary] are rendered from the clock and are not represented
    (nor is the [RangeError] of that rendering for a day count that takes
    the end date out of the range of [Date]); [it_days] is the local [days]
    they are computed from: the end date is [days] days after the start
    date, and [dailyItinerary] has one entry for each [i] from 1 to
    [days]. *)
Record Itinerary := {
  it_destination : jsstring;
  it_days : Z;
  it_summary : jsstring;
  it_budget : jsstring;
  it_accommodation : list jsstring;
  it_transportation : list jsstring;
  it_mustVisit : list jsstring;
  it_title : jsstring;
  it_plan : jsstring;
  it_highlights : jsstring
}.

Definition parseCozeResponseToItinerary
    (cozeText : jsstring) (params : TravelParams) : Itinerary :=
  let days := parse_days params in
  let '(title, plan, highlights) := split_sections cozeText in
  let destination := infer_destination cozeText title in
  {| it_destination := destination;
     it_days := days;
     it_summary := make_summary cozeText title;
     it_budget := budget_text params;
     it_accommodation := [destination ++ js "酒店"; destination ++ js "民宿"];
     it_transportation := [js "高铁"; js "飞机"; js "公共交通"];
     it_mustVisit := [destination ++ js "景点"; destination ++ js "特色景区"];
     it_title := title;
     it_plan := plan;
     it_highlights := highlights |}.

(* ================================================================== *)
(** * JSON values and the host *)
(* ================================================================== *)

(** A number as its JSON literal denotes it, [mantissa * 10 ^ exp10]; the
    host rounds it to a double. *)
Record number := { mantissa : Z; exp10 : Z }.

(** What [JSON.parse] returns.  An object lists its own properties in the
    order [for ... in] visits them. *)
Inductive json : Type :=
| JNull
| JBool (b : bool)
| JNum (n : number)
| JStr (s : jsstring)
| JArr (items : list json)
| JObj (props : list (jsstring * json)).

(** A value that may be [undefined] is an [option json]. *)
Definition jsval := option json.

Definition num_of_nat (n : nat) : number :=
  {| mantissa := Z.of_nat n; exp10 := 0 |}.

(** The double nearest to the literal is [0] when the literal is [0] or at
    most [2^-1075] in magnitude. *)
Definition number_is_zero (n : number) : bool :=
  ((mantissa n =? 0)
   || ((exp10 n <? 0) && (Z.abs (mantissa n) * 2 ^ 1075 <=? 10 ^ (- exp10 n))))%Z.

(** [if (v)], [!v], [v || w], [v && w] *)
Definition truthy (v : json) : bool :=
  match v with
  | JNull => false
  | JBool b => b
  | JNum n => negb (number_is_zero n)
  | JStr s => truthy_str s
  | JArr _ | JObj _ => true
  end.

Definition truthy_val (v : jsval) : bool :=
  match v with Some x => truthy x | None => false end.

Fixpoint lookup (k : jsstring) (props : list (jsstring * json)) : jsval :=
  match props with
  | [] => None
  | (k', v) :: rest => if str_eqb k' k then Some v else lookup k rest
  end.

(** [v.name] for the property names the route reads ([type], [object],
    [value], [message], [content], [delta], [answer], [text], [is_finish],
    [error], [code], [length]): none of them is an index, and only [length]
    is found on a string or an array rather than among the own properties
    of an object.  [v] is not [null]. *)
Definition get (v : json) (name : jsstring) : jsval :=
  match v with
  | JObj props => lookup name props
  | JArr items =>
      if str_eqb name (js "length") then Some (JNum (num_of_nat (length items)))
      else None
  | JStr s =>
      if str_eqb name (js "length") then Some (JNum (num_of_nat (length s)))
      else None
  | _ => None
  end.

(** [v?.name] *)
Definition get_opt (v : jsval) (name : jsstring) : jsval :=
  match v with
  | None | Some JNull => None
  | Some x => get x name
  end.

Definition json_is_null (v : json) : bool :=
  match v with JNull => true | _ => false end.

(** [typeof v === 'string'] and [typeof v === 'object'] *)
Definition as_string (v : jsval) : option jsstring :=
  match v with Some (JStr s) => Some s | _ => None end.

Definition typeof_object (v : jsval) : bool :=
  match v with
  | Some JNull | Some (JArr _) | Some (JObj _) => true
  | _ => false
  end.

(** [v === s] for a string literal [s] *)
Definition is_str (s : jsstring) (v : jsval) : bool :=
  match v with Some (JStr x) => str_eqb x s | _ => false end.

(** The built-ins of the host. *)
Class HostRuntime := {
  (** [JSON.parse(text)]; [None] when it throws a [SyntaxError]. *)
  JSON_parse : jsstring -> option json;
  (** the text of a number, as in [`${n}`] *)
  Number_toString : number -> jsstring
}.

Section Conversions.
Context {host : HostRuntime}.

(** The text of a value in a template literal or on the right of [+=];
    [None] when the conversion throws a [TypeError], which it does on an
    object whose own [toString] property hides the inherited method. *)
Fixpoint ToString (v : json) : option jsstring :=
  match v with
  | JNull => Some (js "null")
  | JBool true => Some (js "true")
  | JBool false => Some (js "false")
  | JNum n => Some (Number_toString n)
  | JStr s => Some s
  | JArr items =>
      (fix elements (l : list json) : option jsstring :=
         match l with
         | [] => Some []
         | x :: rest =>
             match (match x with JNull => Some [] | _ => ToString x end),
                   elements rest with
             | Some a, Some b =>
                 Some (match rest with [] => a | _ => a ++ js "," ++ b end)
             | _, _ => None
             end
         end) items
  | JObj props =>
      match lookup (js "toString") props with
      | Some _ => None
      | None => Some (js "[object Object]")
      end
  end.

Definition ToString_val (v : jsval) : option jsstring :=
  match v with
  | Some x => ToString x
  | None => Some (js "undefined")
  end.

End Conversions.

(* ================================================================== *)
(** * Exceptions *)
(* ================================================================== *)

(** What the route can throw once the stream is open. *)
Inductive error : Type :=
| SyntaxError                       (* thrown by JSON.parse *)
| TypeError                         (* thrown by the host on a bad access *)
| CozeError (message : jsstring)    (* new Error(`Coze错误: ${code} - ${message}`) *)
| StreamError (dataObj : json)      (* new Error(`流错误: ${JSON.stringify(dataObj)}`) *)
| EmptyResponse.                    (* new Error('从Coze API获取的响应内容为空') *)

Inductive outcome (A : Type) : Type :=
| Ok (a : A)
| Throw (e : error).

Arguments Ok {A} a.
Arguments Throw {A} e.

Definition bind {A B : Type} (m : outcome A) (f : A -> outcome B) : outcome B :=
  match m with
  | Ok a => f a
  | Throw e => Throw e
  end.

Declare Scope outcome_scope.
Delimit Scope outcome_scope with outcome.
Notation "x <- m ;; f" := (bind m (fun x => f))
  (at level 61, m at next level, right associativity) : outcome_scope.
Notation "m ;;; f" := (bind m (fun _ => f))
  (at level 61, right associativity) : outcome_scope.
Open Scope outcome_scope.

(** A template literal or a comparison that converts [v]: its text is only
    logged, but the conversion can throw. *)
Definition converts {host : HostRuntime} (v : jsval) : outcome unit :=
  match ToString_val v with
  | Some _ => Ok tt
  | None => Throw TypeError
  end.

Definition is_syntax_error (e : error) : bool :=
  match e with SyntaxError => true | _ => false end.

(* ================================================================== *)
(** * generateCozeItinerary: the stream loop *)
(* ================================================================== *)

(** The variables of [generateCozeItinerary] that the loop updates.
    [completeResponse] is a value: the fast path can store whatever
    [dataObj.object.value] or [dataObj.message.content] holds. *)
Record StreamState := {
  buffer : jsstring;
  accumulatedResponse : jsstring;
  completeResponse : json;
  deltaCount : nat;
  isFinished : bool
}.

Definition initial_state : StreamState :=
  {| buffer := []; accumulatedResponse := []; completeResponse := JStr [];
     deltaCount := 0; isFinished := false |}.

Definition set_buffer (b : jsstring) (st : StreamState) : StreamState :=
  {| buffer := b; accumulatedResponse := accumulatedResponse st;
     completeResponse := completeResponse st; deltaCount := deltaCount st;
     isFinished := isFinished st |}.

Definition append_response (t : jsstring) (st : StreamState) : StreamState :=
  {| buffer := buffer st; accumulatedResponse := accumulatedResponse st ++ t;
     completeResponse := completeResponse st; deltaCount := deltaCount st;
     isFinished := isFinished st |}.

Definition count_delta (st : StreamState) : StreamState :=
  {| buffer := buffer st; accumulatedResponse := accumulatedResponse st;
     completeResponse := completeResponse st; deltaCount := S (deltaCount st);
     isFinished := isFinished st |}.

Definition finish (st : StreamState) : StreamState :=
  {| buffer := buffer st; accumulatedResponse := accumulatedResponse st;
     completeResponse := completeResponse st; deltaCount := deltaCount st;
     isFinished := true |}.

(** [completeResponse = v; isFinished = true;] *)
Definition complete_with (v : json) (st : StreamState) : StreamState :=
  {| buffer := buffer st; accumulatedResponse := accumulatedResponse st;
     completeResponse := v; deltaCount := deltaCount st;
     isFinished := true |}.

Definition DQ : jsstring := [34%N].

(** [/旅行推荐[：:]\s*[\s\S]*?行程规划[：:]\s*[\s\S]*?旅行红黑榜[：:]\s*[\s\S]*/] *)
Definition travelPattern : regex :=
  seq [lit (js "旅行推荐"); colon; spaces; any_lazy;
       lit (js "行程规划"); colon; spaces; any_lazy;
       lit (js "旅行红黑榜"); colon; spaces; any_greedy].

(** The pattern that reads a quoted content field out of the raw data (DQ
    stands for the double quote): [/DQ content DQ \s*:\s* DQ ([^DQ]+) DQ/]. *)
Definition contentPattern : regex :=
  seq [lit (DQ ++ js "content" ++ DQ); spaces; chr 58; spaces; chr 34;
       Group 1 (plus (Chr (fun c => negb (c =? 34)%N))); chr 34].

(** [/\{[\s\S]*?\}/g] *)
Definition jsonObjectPattern : regex := seq [chr 123; any_lazy; chr 125].

(** [/旅行推荐[\s\S]*?行程规划[\s\S]*?旅行红黑榜[\s\S]*/] *)
Definition rawTravelPattern : regex :=
  seq [lit (js "旅行推荐"); any_lazy; lit (js "行程规划"); any_lazy;
       lit (js "旅行红黑榜"); any_greedy].

(** The three replacements that undo the escapes: a backslash followed by
    [n] becomes a line feed, a backslash followed by a double quote becomes
    the double quote, and (on the fast path only) two backslashes become
    one; each replaces every occurrence, in this order. *)
Definition unescape_nq (s : jsstring) : jsstring :=
  replace2 92 34 DQ (replace2 92 110 LF s).

Definition unescape (s : jsstring) : jsstring :=
  replace2 92 92 [92%N] (unescape_nq s).

(** [typeof v === 'string' && v.trim()] *)
Definition nonblank_string (v : jsval) : option jsstring :=
  match v with
  | Some (JStr s) => if truthy_str (trim s) then Some s else None
  | _ => None
  end.

(** The first of [keys] whose value in [obj] is a string with a non-blank
    trim. *)
Fixpoint first_text_field (keys : list jsstring) (obj : json) : option jsstring :=
  match keys with
  | [] => None
  | key :: rest =>
      match nonblank_string (get obj key) with
      | Some s => Some s
      | None => first_text_field rest obj
      end
  end.

(** [findTextContent] of the loop: the common field names first, then the
    own properties that are objects, in order and depth first. *)
Fixpoint findTextContent (obj : json) : jsstring :=
  let contentKeys :=
    [js "content"; js "text"; js "value"; js "answer"; js "message"] in
  match obj with
  | JObj props =>
      match first_text_field contentKeys obj with
      | Some s => s
      | None =>
          (fix each (l : list (jsstring * json)) : jsstring :=
             match l with
             | [] => []
             | (_, v) :: rest =>
                 let found := findTextContent v in
                 if truthy_str found then found else each rest
             end) props
      end
  | JArr items =>
      (fix each (l : list json) : jsstring :=
         match l with
         | [] => []
         | v :: rest =>
             let found := findTextContent v in
             if truthy_str found then found else each rest
         end) items
  | _ => []
  end.

(** [findText] of the recovery: the first own property, in order and depth
    first, that is a string whose trim is longer than 20. *)
Definition long_string (v : json) : option jsstring :=
  match v with
  | JStr s => if 20 <? length (trim s) then Some s else None
  | _ => None
  end.

Fixpoint findText (o : json) : jsstring :=
  match o with
  | JObj props =>
      (fix each (l : list (jsstring * json)) : jsstring :=
         match l with
         | [] => []
         | (_, v) :: rest =>
             match long_string v with
             | Some s => s
             | None =>
                 let found := findText v in
                 if truthy_str found then found else each rest
             end
         end) props
  | JArr items =>
      (fix each (l : list json) : jsstring :=
         match l with
         | [] => []
         | v :: rest =>
             match long_string v with
             | Some s => s
             | None =>
                 let found := findText v in
                 if truthy_str found then found else each rest
             end
         end) items
  | _ => []
  end.

(** [a || b] on values *)
Definition or_val (a b : jsval) : jsval := if truthy_val a then a else b.

(** The first complete block of the buffer, and the buffer after it:
    [buffer.substring(0, boundaryIndex)] and
    [buffer.substring(boundaryIndex + 2)] for
    [boundaryIndex = buffer.indexOf('\n\n')], when it is not [-1]. *)
Definition first_block (buffer : jsstring) : option (jsstring * jsstring) :=
  match indexOf (LF ++ LF) buffer with
  | Some boundaryIndex =>
      Some (substring 0 boundaryIndex buffer,
            substring_from (boundaryIndex + 2) buffer)
  | None => None
  end.

Section Ingestion.
Context {host : HostRuntime}.

Definition or_empty (v : jsval) : json :=
  match v with Some x => x | None => JStr [] end.

(** [extractedContent] of the second delta, when the three headers are not
    found in the raw data. *)
Definition extractedContent (eventData : jsstring) (dataObj : json) : json :=
  let quoted :=
    match exec contentPattern eventData with
    | Some contentMatch =>
        match group 1 contentMatch with
        | Some g => if truthy_str g then Some g else None
        | None => None
        end
    | None => None
    end in
  match quoted with
  | Some g => JStr (unescape_nq g)
  | None =>
      let value := get_opt (get dataObj (js "object")) (js "value") in
      if truthy_val value then or_empty value
      else
        let content := get_opt (get dataObj (js "message")) (js "content") in
        if truthy_val content then or_empty content
        else JStr []
  end.

(** [eventType === 'conversation.message.delta' && dataObj.type === 'answer'] *)
Definition is_answer_delta (eventType : jsstring) (dataObj : json) : bool :=
  str_eqb eventType (js "conversation.message.delta")
  && is_str (js "answer") (get dataObj (js "type")).

(** The body of [if (deltaCount === 2) { ... }]: the whole text from the
    first header on when the raw data shows the three headers, the
    extracted content otherwise; when either is found it becomes
    [completeResponse] and the stream is finished. *)
Definition second_delta (eventData : jsstring) (dataObj : json)
    (st : StreamState) : outcome StreamState :=
  let travelMatch :=
    match exec travelPattern eventData with
    | Some m => if truthy_str (m_all m) then Some (m_all m) else None
    | None => None
    end in
  match travelMatch with
  | Some text => Ok (complete_with (JStr (unescape text)) st)
  | None =>
      let extracted := extractedContent eventData dataObj in
      if truthy extracted then
        converts (get extracted (js "length")) ;;;
        Ok (complete_with extracted st)
      else Ok st
  end.

(** The block that handles the deltas of the Coze format: the counter is
    incremented, and the content is taken from the second delta only. *)
Definition fast_path (eventType eventData : jsstring) (dataObj : json)
    (st : StreamState) : outcome StreamState :=
  if is_answer_delta eventType dataObj then
    let st := count_delta st in
    if deltaCount st =? 2 then second_delta eventData dataObj st
    else Ok st
  else Ok st.

(** [deltaContent] as the chain of tests leaves it. *)
Definition deltaContent_of (dataObj : json) : json :=
  let message_content := get_opt (get dataObj (js "message")) (js "content") in
  let object_value := get_opt (get dataObj (js "object")) (js "value") in
  let delta_content := get_opt (get dataObj (js "delta")) (js "content") in
  let content := get dataObj (js "content") in
  let answer := get dataObj (js "answer") in
  let text := get dataObj (js "text") in
  let direct :=
    if truthy_val message_content then or_empty message_content
    else if truthy_val object_value then or_empty object_value
    else if truthy_val delta_content then or_empty delta_content
    else if truthy_val content then or_empty content
    else match as_string answer with
         | Some s => JStr s
         | None => if truthy_val text then or_empty text else JStr []
         end in
  if truthy direct then direct else JStr (findTextContent dataObj).

(** The general handling of an event, after the fast path. *)
Definition regular_path (eventType : jsstring) (dataObj : json)
    (st : StreamState) : outcome StreamState :=
  if str_eqb eventType (js "message")
     || includes (js "conversation.message.delta") eventType then
    let messageType := or_val (get dataObj (js "type")) (Some (JStr (js "message.delta"))) in
    if is_str (js "message.delta") messageType || is_str (js "answer") messageType then
      let deltaContent := deltaContent_of dataObj in
      if truthy deltaContent then
        match ToString deltaContent with
        | Some text =>
            converts (get deltaContent (js "length")) ;;;
            Ok (append_response text st)
        | None => Throw TypeError
        end
      else Ok st
    else if is_str (js "generate_answer_finish") messageType
            || (truthy_val (get dataObj (js "message"))
                && match get_opt (get dataObj (js "message")) (js "is_finish") with
                   | Some (JBool true) => true
                   | _ => false
                   end)
            || includes (js "conversation.message.completed") eventType then
      Ok (finish st)
    else if is_str (js "error") messageType then
      let err := get dataObj (js "error") in
      match ToString_val (get_opt err (js "code")),
            ToString_val (get_opt err (js "message")) with
      | Some code, Some message =>
          Throw (CozeError (js "Coze错误: " ++ code ++ js " - " ++ message))
      | _, _ => Throw TypeError
      end
    else Ok st
  else if str_eqb eventType (js "error") then
    Throw (StreamError dataObj)
  else if str_eqb eventType (js "ping") || str_eqb eventType (js "done")
          || includes (js "conversation.chat") eventType then
    if str_eqb eventType (js "done") then Ok (finish st) else Ok st
  else Ok st.

(** The body of the [try]: parse the data, log, fast path, general
    handling.  Reading [dataObj.type] throws on [null]; the log line
    converts [dataObj.type || '未知']. *)
Definition interpret (eventType eventData : jsstring) (st : StreamState)
    : outcome StreamState :=
  match JSON_parse eventData with
  | None => Throw SyntaxError
  | Some JNull => Throw TypeError
  | Some dataObj =>
      converts (or_val (get dataObj (js "type")) (Some (JStr (js "未知")))) ;;;
      st1 <- fast_path eventType eventData dataObj st ;;
      regular_path eventType dataObj st1
  end.

(** [try { ... } catch (e) { if (e instanceof SyntaxError) { warn } else
    { throw e } }]: a syntax error leaves the variables as they were when
    it was thrown, which is before any of them was assigned. *)
Definition handle_event (eventType eventData : jsstring) (st : StreamState)
    : outcome StreamState :=
  match interpret eventType eventData st with
  | Ok st' => Ok st'
  | Throw e => if is_syntax_error e then Ok st else Throw e
  end.

(** The lines of a block: the last [event:] line and the last [data:]
    line count. *)
Definition read_line (frame : jsstring * jsstring) (line : jsstring)
    : jsstring * jsstring :=
  if startsWith (js "event:") line then (trim (substring_from 6 line), snd frame)
  else if startsWith (js "data:") line then (fst frame, trim (substring_from 5 line))
  else frame.

Definition parse_block (chunk : jsstring) : jsstring * jsstring :=
  fold_left read_line (split_char 10 chunk) (js "message", []).

(** One turn of the inner [while]: a block that is blank is passed over,
    and so is a block without data. *)
Definition handle_block (chunk : jsstring) (st : StreamState)
    : outcome StreamState :=
  if is_empty (trim chunk) then Ok st
  else
    let '(eventType, eventData) := parse_block chunk in
    if truthy_str eventData then handle_event eventType eventData st
    else Ok st.

(** [while ((boundaryIndex = buffer.indexOf('\n\n')) >= 0) {
      const chunk = buffer.substring(0, boundaryIndex);
      buffer = buffer.substring(boundaryIndex + 2); ... }] *)
Fixpoint drain_loop (fuel : nat) (st : StreamState) : outcome StreamState :=
  match first_block (buffer st) with
  | None => Ok st
  | Some (chunk, rest) =>
      match fuel with
      | 0 => Ok st
      | S fuel' =>
          st' <- handle_block chunk (set_buffer rest st) ;;
          drain_loop fuel' st'
      end
  end.

(** Every turn takes at least the two line feeds off the buffer, so the
    loop makes fewer turns than the buffer is long ([drain_unfold]). *)
Definition drain (st : StreamState) : outcome StreamState :=
  drain_loop (length (buffer st)) st.

(** [while (!isFinished) { read; if (done) break; buffer += newText;
    ... }] over the texts that the decoder yields until the stream is
    done. *)
Fixpoint read_loop (reads : list jsstring) (st : StreamState)
    : outcome StreamState :=
  if isFinished st then Ok st
  else
    match reads with
    | [] => Ok st
    | newText :: rest =>
        st' <- drain (set_buffer (buffer st ++ newText) st) ;;
        read_loop rest st'
    end.

End Ingestion.

Section Recovery.
Context {host : HostRuntime}.

(** What one parsed object of the buffer contributes to [finalResponse]:
    the first non-blank text field, and, while [finalResponse] is still
    falsy, the first long string found by [findText]. *)
Definition recover_from_object (finalResponse obj : json) : json :=
  let textFields :=
    [js "content"; js "text"; js "answer"; js "value"; js "message"] in
  let finalResponse :=
    match first_text_field textFields obj with
    | Some s => JStr s
    | None => finalResponse
    end in
  if negb (truthy finalResponse) && typeof_object (Some obj) then
    let text := findText obj in
    if truthy_str text then JStr text else finalResponse
  else finalResponse.

(** [for (const jsonStr of jsonMatches) { try { ... } catch (e) { } }]:
    a candidate that does not parse, or that parses to [null] (on which
    [Object.keys] throws), is passed over; the loop stops at the first
    candidate that leaves [finalResponse] truthy. *)
Fixpoint recover_loop (jsonMatches : list jsstring) (finalResponse : json)
    : json :=
  match jsonMatches with
  | [] => finalResponse
  | jsonStr :: rest =>
      match JSON_parse jsonStr with
      | None | Some JNull => recover_loop rest finalResponse
      | Some obj =>
          let finalResponse := recover_from_object finalResponse obj in
          if truthy finalResponse then finalResponse
          else recover_loop rest finalResponse
      end
  end.

(** The branch [if (buffer.length > 0) { ... }]. *)
Definition raw_recovery (buffer : jsstring) (finalResponse : json) : json :=
  let finalResponse :=
    recover_loop (match_all jsonObjectPattern buffer) finalResponse in
  if truthy finalResponse then finalResponse
  else
    match exec rawTravelPattern buffer with
    | Some textMatch => JStr (m_all textMatch)
    | None => JStr buffer
    end.

(** [v.length === 0] *)
Definition length_is_zero (v : json) : bool :=
  match get v (js "length") with
  | Some (JNum n) => number_is_zero n
  | _ => false
  end.

(** From the end of the loop to the call of
    [parseCozeResponseToItinerary]: the text that is handed to it.
    [finalResponse.substring] throws when [finalResponse] is not a
    string. *)
Definition final_response (st : StreamState) : outcome jsstring :=
  let finalResponse :=
    if truthy (completeResponse st) then completeResponse st
    else JStr (accumulatedResponse st) in
  finalResponse <-
    (if length_is_zero finalResponse then
       if 0 <? length (buffer st)
       then Ok (raw_recovery (buffer st) finalResponse)
       else Throw EmptyResponse
     else Ok finalResponse) ;;
  match finalResponse with
  | JStr text => Ok text
  | _ => Throw TypeError
  end.

(** [generateCozeItinerary] from [response.body.getReader()] on; [reads]
    are the texts that [decoder.decode(value, { stream: true })] yields for
    the chunks of the stream, in order, up to the read that reports
    [done]. *)
Definition generateCozeItinerary (params : TravelParams)
    (reads : list jsstring) : outcome Itinerary :=
  st <- read_loop reads initial_state ;;
  finalResponse <- final_response st ;;
  Ok (parseCozeResponseToItinerary finalResponse params).

(** The rest of [generateCozeItinerary] from a point inside the inner
    loop, with [reads] still to come from the stream. *)
Definition resume (params : TravelParams) (st : StreamState)
    (reads : list jsstring) : outcome Itinerary :=
  st1 <- drain st ;;
  st2 <- read_loop reads st1 ;;
  finalResponse <- final_response st2 ;;
  Ok (parseCozeResponseToItinerary finalResponse params).

End Recovery.

(* ================================================================== *)
(** * A host: JSON texts *)
(* ================================================================== *)

(** A reader of JSON texts after the grammar of JSON ([JSON.parse] without a
    reviver), used as the host where a property is evaluated on a concrete
    stream.  The general properties hold for every host. *)
Module JsonText.

Definition is_json_space (c : N) : bool :=
  ((c =? 32) || (c =? 9) || (c =? 10) || (c =? 13))%N.

Fixpoint skip_ws (s : jsstring) : jsstring :=
  match s with
  | c :: s' => if is_json_space c then skip_ws s' else s
  | [] => []
  end.

Definition simple_escape (e : N) : option N :=
  if (e =? 34)%N then Some 34%N          (* the double quote *)
  else if (e =? 92)%N then Some 92%N     (* \ *)
  else if (e =? 47)%N then Some 47%N     (* / *)
  else if (e =? 98)%N then Some 8%N      (* b *)
  else if (e =? 102)%N then Some 12%N    (* f *)
  else if (e =? 110)%N then Some 10%N    (* n *)
  else if (e =? 114)%N then Some 13%N    (* r *)
  else if (e =? 116)%N then Some 9%N     (* t *)
  else None.

Definition hex4 (h1 h2 h3 h4 : N) : option N :=
  match digit_val 16 h1, digit_val 16 h2, digit_val 16 h3, digit_val 16 h4 with
  | Some a, Some b, Some c, Some d => Some (((a * 16 + b) * 16 + c) * 16 + d)%N
  | _, _, _, _ => None
  end.

(** The characters of a string after its opening quote, up to the closing
    one; [acc] holds them reversed. *)
Fixpoint string_body (s : jsstring) (acc : jsstring)
  : option (jsstring * jsstring) :=
  match s with
  | [] => None
  | c :: r =>
      if (c =? 34)%N then Some (rev acc, r)
      else if (c =? 92)%N then
        match r with
        | [] => None
        | e :: r' =>
            if (e =? 117)%N then
              match r' with
              | h1 :: h2 :: h3 :: h4 :: r'' =>
                  match hex4 h1 h2 h3 h4 with
                  | Some u => string_body r'' (u :: acc)
                  | None => None
                  end
              | _ => None
              end
            else
              match simple_escape e with
              | Some x => string_body r' (x :: acc)
              | None => None
              end
        end
      else if (c <? 32)%N then None
      else string_body r (c :: acc)
  end.

Definition is_digit (c : N) : bool := ((48 <=? c) && (c <=? 57))%N.

Fixpoint take_digits (s : jsstring) (acc : jsstring) : jsstring * jsstring :=
  match s with
  | c :: s' => if is_digit c then take_digits s' (c :: acc) else (rev acc, s)
  | [] => (rev acc, [])
  end.

Definition digits_value (ds : jsstring) : Z :=
  fold_left (fun a c => a * 10 + Z.of_N (c - 48))%Z ds 0%Z.

(** [-? (0 | [1-9][0-9]* ) (. [0-9]+)? ([eE] [+-]? [0-9]+)?] *)
Definition number_text (s : jsstring) : option (number * jsstring) :=
  let '(neg, s1) := match s with 45%N :: r => (true, r) | _ => (false, s) end in
  let '(int, s2) := take_digits s1 [] in
  let int_ok :=
    match int with
    | [] => false
    | [_] => true
    | d :: _ => negb (d =? 48)%N
    end in
  if negb int_ok then None
  else
    let frac_part :=
      match s2 with
      | 46%N :: r =>
          let '(frac, s3) := take_digits r [] in
          if is_empty frac then None else Some (frac, s3)
      | _ => Some ([], s2)
      end in
    match frac_part with
    | None => None
    | Some (frac, s3) =>
        let exp_part :=
          match s3 with
          | e :: r =>
              if ((e =? 101) || (e =? 69))%N then
                let '(eneg, r1) :=
                  match r with
                  | 45%N :: r' => (true, r')
                  | 43%N :: r' => (false, r')
                  | _ => (false, r)
                  end in
                let '(ex, s4) := take_digits r1 [] in
                if is_empty ex then None
                else Some ((if eneg then - digits_value ex else digits_value ex)%Z, s4)
              else Some (0%Z, s3)
          | [] => Some (0%Z, s3)
          end in
        match exp_part with
        | None => None
        | Some (ex, s4) =>
            let m := digits_value (int ++ frac) in
            Some ({| mantissa := if neg then (- m)%Z else m;
                     exp10 := (ex - Z.of_nat (length frac))%Z |}, s4)
        end
    end.

(** Own properties as the host keeps them: a repeated name keeps its first
    place and its last value; names that are array indices come first, in
    increasing order. *)
Fixpoint upsert (k : jsstring) (v : json) (props : list (jsstring * json))
  : list (jsstring * json) :=
  match props with
  | [] => [(k, v)]
  | (k', v') :: rest =>
      if str_eqb k' k then (k', v) :: rest else (k', v') :: upsert k v rest
  end.

Definition canonical_index (k : jsstring) : option Z :=
  match k with
  | [] => None
  | d :: rest =>
      if forallb is_digit k && (is_empty rest || negb (d =? 48)%N)
      then let v := digits_value k in
           if (v <? 4294967295)%Z then Some v else None
      else None
  end.

Fixpoint insert_index (i : Z) (kv : jsstring * json)
    (sorted : list (Z * (jsstring * json))) : list (Z * (jsstring * json)) :=
  match sorted with
  | [] => [(i, kv)]
  | (j, kv') :: rest =>
      if (i <? j)%Z then (i, kv) :: sorted else (j, kv') :: insert_index i kv rest
  end.

Definition own_properties (members : list (jsstring * json))
  : list (jsstring * json) :=
  let props := fold_left (fun acc kv => upsert (fst kv) (snd kv) acc) members [] in
  let indexed :=
    fold_left (fun acc kv =>
                 match canonical_index (fst kv) with
                 | Some i => insert_index i kv acc
                 | None => acc
                 end) props [] in
  List.map snd indexed
  ++ filter (fun kv => match canonical_index (fst kv) with
                       | Some _ => false
                       | None => true
                       end) props.

(** A value at the start of [s], and what follows it. *)
Fixpoint value (fuel : nat) (s : jsstring) : option (json * jsstring) :=
  match fuel with
  | 0 => None
  | S fuel' =>
      match skip_ws s with
      | [] => None
      | c :: r =>
          if (c =? 123)%N then
            match skip_ws r with
            | 125%N :: r' => Some (JObj [], r')
            | _ =>
                (fix members (n : nat) (s : jsstring)
                     (acc : list (jsstring * json)) : option (json * jsstring) :=
                   match n with
                   | 0 => None
                   | S n' =>
                       match skip_ws s with
                       | 34%N :: r1 =>
                           match string_body r1 [] with
                           | Some (key, r2) =>
                               match skip_ws r2 with
                               | 58%N :: r3 =>
                                   match value fuel' r3 with
                                   | Some (v, r4) =>
                                       match skip_ws r4 with
                                       | 44%N :: r5 => members n' r5 ((key, v) :: acc)
                                       | 125%N :: r5 =>
                                           Some (JObj (own_properties (rev ((key, v) :: acc))), r5)
                                       | _ => None
                                       end
                                   | None => None
                                   end
                               | _ => None
                               end
                           | None => None
                           end
                       | _ => None
                       end
                   end) (length r) r []
            end
          else if (c =? 91)%N then
            match skip_ws r with
            | 93%N :: r' => Some (JArr [], r')
            | _ =>
                (fix elements (n : nat) (s : jsstring) (acc : list json)
                   : option (json * jsstring) :=
                   match n with
                   | 0 => None
                   | S n' =>
                       match value fuel' s with
                       | Some (v, r4) =>
                           match skip_ws r4 with
                           | 44%N :: r5 => elements n' r5 (v :: acc)
                           | 93%N :: r5 => Some (JArr (rev (v :: acc)), r5)
                           | _ => None
                           end
                       | None => None
                       end
                   end) (length r) r []
            end
          else if (c =? 34)%N then
            match string_body r [] with
            | Some (str, r') => Some (JStr str, r')
            | None => None
            end
          else if startsWith (js "true") (c :: r) then Some (JBool true, skipn 3 r)
          else if startsWith (js "false") (c :: r) then Some (JBool false, skipn 4 r)
          else if startsWith (js "null") (c :: r) then Some (JNull, skipn 3 r)
          else
            match number_text (c :: r) with
            | Some (n, r') => Some (JNum n, r')
            | None => None
            end
      end
  end.

Definition parse (text : jsstring) : option json :=
  match value (S (length text)) text with
  | Some (v, rest) => if is_empty (skip_ws rest) then Some v else None
  | None => None
  end.

(** The decimal digits of a natural number. *)
Fixpoint digits_loop (fuel : nat) (n : N) (acc : jsstring) : jsstring :=
  match fuel with
  | 0 => acc
  | S fuel' =>
      let acc' := (48 + n mod 10)%N :: acc in
      if (n <? 10)%N then acc' else digits_loop fuel' (n / 10)%N acc'
  end.

Definition digits_of (n : N) : jsstring := digits_loop (S (N.to_nat (N.log2 n))) n [].

(** The text of a number whose literal is a whole number below 10^21 in
    magnitude; only such numbers are rendered by this host. *)
Definition integer_text (n : number) : jsstring :=
  let v := (if exp10 n <? 0 then mantissa n / 10 ^ (- exp10 n)
            else mantissa n * 10 ^ exp10 n)%Z in
  (if (v <? 0)%Z then js "-" else []) ++ digits_of (Z.abs_N v).

Definition host : HostRuntime :=
  {| JSON_parse := parse; Number_toString := integer_text |}.

End JsonText.

(* ================================================================== *)
(** * Runs of the loop *)
(* ================================================================== *)

(** What the loops do to the variables, one action at a time: the buffer is
    assigned, or the data of a block are interpreted. *)
Inductive action : Type :=
| SetBuffer (b : jsstring)
| Event (eventType eventData : jsstring).

Section Runs.
Context {host : HostRuntime}.

Definition act (a : action) (st : StreamState) : outcome StreamState :=
  match a with
  | SetBuffer b => Ok (set_buffer b st)
  | Event eventType eventData => handle_event eventType eventData st
  end.

Fixpoint run (acts : list action) (st : StreamState) : outcome StreamState :=
  match acts with
  | [] => Ok st
  | a :: rest => st' <- act a st ;; run rest st'
  end.

(** The actions of one turn of the inner loop on [chunk], [rest] being
    the buffer after it. *)
Definition block_actions (chunk rest : jsstring) : list action :=
  SetBuffer rest ::
  (if is_empty (trim chunk) then []
   else
     let '(eventType, eventData) := parse_block chunk in
     if truthy_str eventData then [Event eventType eventData] else []).

(** The actions of the inner loop on a buffer. *)
Fixpoint buffer_actions (fuel : nat) (buffer : jsstring) : list action :=
  match first_block buffer with
  | None => []
  | Some (chunk, rest) =>
      match fuel with
      | 0 => []
      | S fuel' => block_actions chunk rest ++ buffer_actions fuel' rest
      end
  end.

(** An event that reaches the counter of the fast path. *)
Definition counts_as_delta (a : action) : bool :=
  match a with
  | Event eventType eventData =>
      match JSON_parse eventData with
      | Some dataObj => is_answer_delta eventType dataObj
      | None => false
      end
  | SetBuffer _ => false
  end.

Definition answer_deltas (acts : list action) : nat :=
  length (filter counts_as_delta acts).

End Runs.

(** [completeResponse] is still [''] until the counter reaches 2. *)
Definition unset_before_second (st : StreamState) : Prop :=
  completeResponse st = JStr [] \/ 2 <= deltaCount st.

(* ================================================================== *)
(** * Headers in a text *)
(* ================================================================== *)

(** A header followed by one of the two colons occurs in the text. *)
Definition has_anchor (header text : jsstring) : bool :=
  includes (header ++ js ":") text || includes (header ++ js "：") text.

Definition no_anchor (text : jsstring) : Prop :=
  has_anchor (js "旅行推荐") text = false
  /\ has_anchor (js "行程规划") text = false
  /\ has_anchor (js "旅行红黑榜") text = false.

(** The separated format: the three sections under their headers, one
    per line. *)
Definition render_sections (s : sections) : jsstring :=
  let '(title, plan, highlights) := s in
  js "旅行推荐:" ++ title ++ LF ++ js "行程规划:" ++ plan ++ LF
  ++ js "旅行红黑榜:" ++ highlights.

(** What follows the plan, and what follows the title, in the separated
    format. *)
Definition rendered_after_plan (highlights : jsstring) : jsstring :=
  LF ++ js "旅行红黑榜" ++ js ":" ++ highlights.

Definition rendered_after_title (plan highlights : jsstring) : jsstring :=
  LF ++ js "行程规划" ++ js ":" ++ plan ++ rendered_after_plan highlights.

(** [t] is what is left of [s] after some prefix. *)
Definition suffix_of (t s : jsstring) : Prop := exists p, s = p ++ t.


(* ================================================================== *)
(** * Frames of a stream *)
(* ================================================================== *)

(** A block whose event type is [error] and whose data parse. *)
Definition error_frame {host : HostRuntime} (chunk : jsstring) : bool :=
  negb (is_empty (trim chunk))
  && str_eqb (fst (parse_block chunk)) (js "error")
  && truthy_str (snd (parse_block chunk))
  && match JSON_parse (snd (parse_block chunk)) with
     | Some _ => true
     | None => false
     end.

(** Writing the frames of a stream. *)
Definition quoted (s : string) : jsstring := DQ ++ js s ++ DQ.

Definition sse_block (event : string) (data : jsstring) : jsstring :=
  js "event: " ++ js event ++ LF ++ js "data: " ++ data.

Definition sse_frame (event : string) (data : jsstring) : jsstring :=
  sse_block event data ++ LF ++ LF.

(** The data of an answer delta with a given content, written as the JSON
    text [{ type: answer, content: ... }] with its quotes. *)
Definition answer_data (content : jsstring) : jsstring :=
  js "{" ++ quoted "type" ++ js ":" ++ quoted "answer" ++ js ","
  ++ quoted "content" ++ js ":" ++ DQ ++ content ++ DQ ++ js "}".

(** A first delta, a second delta that carries the three headers (its line
    feeds escaped, as on the wire), and a third one. *)
Definition first_delta : jsstring := answer_data (js "旅").

Definition full_delta : jsstring :=
  answer_data (js "旅行推荐:西安之旅\n行程规划:详细安排\n旅行红黑榜:推荐").

Definition late_delta : jsstring :=
  answer_data (js "旅行推荐:X\n行程规划:Y\n旅行红黑榜:Z").

(** The variables after the first delta has been interpreted. *)
Definition after_first_delta (buffer : jsstring) : StreamState :=
  {| buffer := buffer; accumulatedResponse := js "旅";
     completeResponse := JStr []; deltaCount := 1; isFinished := false |}.

(** The variables an outcome holds, for writing example runs. *)
Definition state_of (o : outcome StreamState) : StreamState :=
  match o with
  | Ok st => st
  | Throw _ => initial_state
  end.

Definition delta_event (data : jsstring) : action :=
  Event (js "conversation.message.delta") data.

(** What a successful match hands to its continuation is a suffix of what
    it was given. *)
Definition hands_suffix
    (m : jsstring -> captures -> cont -> option (jsstring * captures)) : Prop :=
  forall s cs k res, m s cs k = Some res ->
    exists s' cs', suffix_of s' s /\ k s' cs' = Some res.

(** A section text as the separated format carries it: it starts and ends on
    a character that is not white space, and holds neither of the two
    characters that headers start with. *)
Definition starts_dark (s : jsstring) : bool :=
  match s with
  | c :: _ => negb (is_space c)
  | [] => false
  end.

Definition ends_dark (s : jsstring) : bool := starts_dark (rev s).

Definition plain_section (x : jsstring) : Prop :=
  starts_dark x = true /\ ends_dark x = true
  /\ forall c, In c x -> in_class (js "旅行") c = false.


(* ================================================================== *)
(** * Frames on the wire *)
(* ================================================================== *)

(** The outcome of a step, with the buffer assigned after it. *)
Definition then_set_buffer (b : jsstring) (o : outcome StreamState)
    : outcome StreamState :=
  st <- o ;; Ok (set_buffer b st).

(** A frame as the peer writes it: an event line and a data line. *)
Definition frame_text (eventType eventData : jsstring) : jsstring :=
  js "event:" ++ eventType ++ LF ++ js "data:" ++ eventData.

(* ================================================================== *)
(** * The format that the prompt asks for *)
(* ================================================================== *)

(** The prompt asks for the three sections under their headers, each header
    followed by a colon, with line feeds and indentation around the section
    texts.  What follows a header: a colon, white space, the text of the
    section, white space. *)
Record section_layout := {
  sl_colon : N;
  sl_before : jsstring;
  sl_body : jsstring;
  sl_after : jsstring
}.

Definition written (s : section_layout) : jsstring :=
  [sl_colon s] ++ sl_before s ++ sl_body s ++ sl_after s.

Definition is_colon (c : N) : bool := ((c =? 65306) || (c =? 58))%N.

Definition blank (ws : jsstring) : Prop := forallb is_space ws = true.

Definition well_laid (s : section_layout) : Prop :=
  is_colon (sl_colon s) = true /\ blank (sl_before s)
  /\ plain_section (sl_body s) /\ blank (sl_after s).

Definition requested_format (preamble : jsstring) (s1 s2 s3 : section_layout)
    : jsstring :=
  preamble ++ js "旅行推荐" ++ written s1 ++ js "行程规划" ++ written s2
  ++ js "旅行红黑榜" ++ written s3.

(* ================================================================== *)
(** * The form (the page that posts to the route) *)
(* ================================================================== *)

(** [handleSubmit] of the form validates the fields and builds the
    parameters that the results page posts to the route. *)
Module Form.

(** [\d] *)
Definition is_decimal_digit (c : N) : bool := ((48 <=? c) && (c <=? 57))%N.

(** [/^\d+$/] and [/^\d+-\d+$/].  Both open with [^] and have no [m] flag:
    they match at the start of the text or not at all, so [test] is one
    attempt there. *)
Definition numberPattern : regex := seq [plus (Chr is_decimal_digit); Eos].

Definition rangePattern : regex :=
  seq [plus (Chr is_decimal_digit); chr 45; plus (Chr is_decimal_digit); Eos].

Definition test_at_start (r : regex) (s : jsstring) : bool :=
  match match_here r s with Some _ => true | None => false end.

(** [parseInt] returns a Number: the double nearest to the integer that it
    reads, or [NaN] ([None] here).  A double has 53 significant bits: an
    integer of more bits is rounded to the nearest multiple of the power of
    two that leaves 53, to the even one when it lies half-way, and to
    [Infinity] from [2^1024 - 2^970] on.  An integer up to [2^53] is its
    own double.  The digits are read as they stand, which is what V8 (Node,
    Chrome) does; ECMAScript also lets an engine read the digits after the
    twentieth as zeros. *)
Inductive double : Type :=
| Finite (v : Z)
| Infinity (negative : bool).

(** The double nearest to a magnitude [m >= 0]; [None] for [Infinity]. *)
Definition nearest_magnitude (m : Z) : option Z :=
  let bits := (Z.log2 m + 1)%Z in
  if (bits <=? 53)%Z then Some m
  else
    let shift := (bits - 53)%Z in
    let q := Z.shiftr m shift in
    let r := (m - Z.shiftl q shift)%Z in
    let half := Z.shiftl 1 (shift - 1) in
    let q' := if (half <? r)%Z || ((r =? half)%Z && Z.odd q)
              then (q + 1)%Z else q in
    let v := Z.shiftl q' shift in
    if (2 ^ 1024 <=? v)%Z then None else Some v.

Definition nearest_double (x : Z) : double :=
  match nearest_magnitude (Z.abs x) with
  | Some v => Finite (if (x <? 0)%Z then - v else v)%Z
  | None => Infinity (x <? 0)%Z
  end.

(** [a <= b] on doubles. *)
Definition double_le (a b : double) : bool :=
  match a, b with
  | Finite x, Finite y => (x <=? y)%Z
  | Finite _, Infinity negative => negb negative
  | Infinity negative, Finite _ => negative
  | Infinity n1, Infinity n2 => n1 || negb n2
  end.

(** The larger of two doubles. *)
Definition double_max (a b : double) : double :=
  if double_le a b then b else a.

(** [n > 0] and [a <= b] on results of [parseInt]; a comparison with [NaN]
    or [undefined] is false. *)
Definition gt_0 (n : option Z) : bool :=
  match n with
  | Some v => match nearest_double v with
              | Finite x => (0 <? x)%Z
              | Infinity negative => negb negative
              end
  | None => false
  end.

Definition le (a b : option Z) : bool :=
  match a, b with
  | Some x, Some y => double_le (nearest_double x) (nearest_double y)
  | _, _ => false
  end.

(** [isValidNumberOrRange] *)
Definition isValidNumberOrRange (value : jsstring) : bool :=
  if test_at_start numberPattern value then gt_0 (parseInt value)
  else if test_at_start rangePattern value then
    match List.map parseInt (split_char 45 value) with
    | min :: max :: _ => gt_0 min && gt_0 max && le min max
    | _ => false
    end
  else false.

(** The state of the form.  The budget is the value of the slider, a whole
    number from 0 to 20000. *)
Record FormState := {
  departure : jsstring;
  f_destination : jsstring;
  f_days : jsstring;
  f_travelers : jsstring;
  f_preference : jsstring;
  f_budget : N;
  unlimitedBudget : bool;
  unknownDestination : bool
}.

(** [s || undefined] *)
Definition or_undefined (s : jsstring) : option jsstring :=
  if truthy_str s then Some s else None.

(** What [handleSubmit] does with the form: it shows the errors, or it
    stores the parameters for the results page, which posts them to the
    route as they are.  The write to the session storage is taken to
    succeed; no state of the form changes what is written. *)
Inductive submission : Type :=
| Refused (newErrors : list (jsstring * jsstring))
| Submitted (travelParams : TravelParams).

Definition travelParams_of (f : FormState) : TravelParams :=
  {| location := departure f;
     destination := if unknownDestination f then None
                    else or_undefined (f_destination f);
     days := f_days f;
     travelers := or_undefined (f_travelers f);
     preference := or_undefined (f_preference f);
     budget := Some (if unlimitedBudget f then js "不限"
                     else JsonText.digits_of (f_budget f));
     user_id := None |}.

Definition handleSubmit (f : FormState) : submission :=
  let newErrors :=
    (if is_empty (trim (departure f))
     then [(js "departure", js "出发地点不能为空")] else [])
    ++ (if is_empty (trim (f_days f))
        then [(js "days", js "旅行天数不能为空")]
        else if negb (isValidNumberOrRange (f_days f))
        then [(js "days",
               js "请输入有效的旅行天数或天数范围 (例如: 3 或 3-5)")]
        else [])
    ++ (if truthy_str (trim (f_travelers f))
           && negb (isValidNumberOrRange (f_travelers f))
        then [(js "travelers",
               js "请输入有效的人数或人数范围 (例如: 2 或 2-4)")]
        else [])
    ++ (if negb (unknownDestination f)
           && is_empty (trim (f_destination f))
        then [(js "destination", js "请输入目的地")] else []) in
  match newErrors with
  | [] => Submitted (travelParams_of f)
  | _ :: _ => Refused newErrors
  end.

End Form.

(* ================================================================== *)
(** * Dates *)
(* ================================================================== *)

(** Time values are milliseconds from the start of 1 January 1970 (UTC).
    What the route does with them: it adds whole days to the reading of the
    clock and takes the date part of [toISOString()]. *)
Module Calendar.

Definition msPerDay : Z := 86400000.

(** [Day(t)]: the number of the day that a time value falls on. *)
Definition Day (t : Z) : Z := (t / msPerDay)%Z.

(** A [Date] holds a time value of at most 8.64e15 in magnitude; beyond, it
    is an invalid date, on which [toISOString] throws a [RangeError]. *)
Definition valid_time (t : Z) : bool := (Z.abs t <=? 8640000000000000)%Z.

(** Year, month and day of the month of a day number, in the Gregorian
    calendar extended over all years; the years are counted from March in
    eras of 400 years. *)
Definition civil_of_day (day : Z) : Z * Z * Z :=
  let z := (day + 719468)%Z in
  let era := (z / 146097)%Z in
  let doe := (z - era * 146097)%Z in
  let yoe := ((doe - doe / 1460 + doe / 36524 - doe / 146096) / 365)%Z in
  let doy := (doe - (365 * yoe + yoe / 4 - yoe / 100))%Z in
  let mp := ((5 * doy + 2) / 153)%Z in
  let d := (doy - (153 * mp + 2) / 5 + 1)%Z in
  let m := (if mp <? 10 then mp + 3 else mp - 9)%Z in
  ((yoe + era * 400 + (if m <=? 2 then 1 else 0))%Z, m, d).

(** The decimal digits of a number that is not negative, with zeros in front
    up to a width. *)
Definition padded (width : nat) (n : Z) : jsstring :=
  let ds := JsonText.digits_of (Z.to_N n) in
  repeat 48%N (width - length ds) ++ ds.

(** Four digits for the years 0 to 9999, a sign and six digits otherwise. *)
Definition year_text (y : Z) : jsstring :=
  if ((0 <=? y) && (y <=? 9999))%Z then padded 4 y
  else (if (y <? 0)%Z then js "-" else js "+") ++ padded 6 (Z.abs y).

Definition iso_day (day : Z) : jsstring :=
  let '(y, m, d) := civil_of_day day in
  year_text y ++ js "-" ++ padded 2 m ++ js "-" ++ padded 2 d.

(** [new Date(t).toISOString().split('T')[0]] for a valid time value. *)
Definition iso_date (t : Z) : jsstring := iso_day (Day t).

End Calendar.
Export Calendar.

(* ================================================================== *)
(** * The route as a whole *)
(* ================================================================== *)

(** What can be thrown anywhere in the route. *)
Inductive exception : Type :=
| Thrown (e : error)            (* an exception of the kinds the loop throws *)
| RangeError                    (* toISOString() on an invalid date *)
| Error (message : jsstring)    (* new Error(message) outside the loop *)
| Rejected.                     (* a promise of the host was rejected *)

Inductive completion (A : Type) : Type :=
| Returned (a : A)
| Raised (x : exception).

Arguments Returned {A} a.
Arguments Raised {A} x.

Definition of_outcome {A : Type} (o : outcome A) : completion A :=
  match o with
  | Ok a => Returned a
  | Throw e => Raised (Thrown e)
  end.

(** The value of a field that holds a destination.  It is a string, except
    in the mock when [destinations[params.location]] finds a member that
    the object inherits from [Object.prototype]: the value is then that
    member, a function of the host or, under [__proto__], the prototype
    itself. *)
Inductive destination_value : Type :=
| Named (name : jsstring)
| PrototypeMember (key : jsstring).

(** What the host gives as the text of a member of [Object.prototype], as
    in [`${destination}`]: the source text of a native function, whose
    layout is the host's, or [[object Object]]. *)
Class PrototypeText := {
  member_text : jsstring -> jsstring
}.

(** [`${destination}`] *)
Definition text_of {proto : PrototypeText} (destination : destination_value)
    : jsstring :=
  match destination with
  | Named name => name
  | PrototypeMember key => member_text key
  end.

(** [interface ItineraryActivity] and [interface ItineraryDay]. *)
Record ItineraryActivity := {
  a_time : jsstring;
  a_activity : jsstring;
  a_description : jsstring;
  a_location : destination_value
}.

Record ItineraryDay := {
  d_day : Z;
  d_date : jsstring;
  d_activities : list ItineraryActivity
}.

(** [interface Itinerary] with the fields that depend on the clock.
    [destination_field] is the value of the field [destination];
    [undated] holds the other fields, which are texts built from the text
    of the destination, and that text as [it_destination]. *)
Record DatedItinerary := {
  undated : Itinerary;
  destination_field : destination_value;
  startDate : jsstring;
  endDate : jsstring;
  dailyItinerary : list ItineraryDay
}.

(** The answers of [POST]. *)
Inductive http_response : Type :=
| BadRequest (error : jsstring)          (* { error }, status 400 *)
| Success (data : DatedItinerary)        (* { success: true, data } *)
| Fallback (data : DatedItinerary) (message : jsstring)
                                         (* { success, data, fallback: true, message } *)
| ServerError (error : jsstring).        (* { error }, status 500 *)

(** The environment variables that [generateCozeItinerary] reads. *)
Record Environment := {
  COZE_WORKFLOW_ID : option jsstring;
  COZE_API_KEY : option jsstring;
  COZE_API_ENDPOINT : option jsstring
}.

(** What [fetch] gives: the promise is rejected, or it yields a response.
    [r_text] is what [response.text()] yields ([None] when it is rejected);
    [r_body] are the texts decoded from the chunks of [response.body], up
    to the read that reports the end ([None] when there is no body). *)
Record HttpResponse := {
  r_ok : bool;
  r_status : number;
  r_statusText : jsstring;
  r_text : option jsstring;
  r_body : option (list jsstring)
}.

Inductive fetch_result : Type :=
| FetchRejected
| Fetched (response : HttpResponse).

(** The own properties of the object [destinations] of the mock, and the
    names it inherits from [Object.prototype]: under such a name the
    lookup finds a function of the host or, under [__proto__], the
    prototype itself.  All of them are truthy. *)
Definition destinations : list (jsstring * jsstring) :=
  [(js "北京", js "西安"); (js "上海", js "杭州");
   (js "广州", js "厦门"); (js "深圳", js "三亚")].

Definition Object_prototype_names : list jsstring :=
  [js "constructor"; js "hasOwnProperty"; js "isPrototypeOf";
   js "propertyIsEnumerable"; js "toLocaleString"; js "toString";
   js "valueOf"; js "__proto__"; js "__defineGetter__";
   js "__defineSetter__"; js "__lookupGetter__"; js "__lookupSetter__"].

Inductive property : Type :=
| Own (value : jsstring)
| Inherited
| Missing.

Fixpoint own_property (key : jsstring) (props : list (jsstring * jsstring))
  : option jsstring :=
  match props with
  | [] => None
  | (k, v) :: rest => if str_eqb k key then Some v else own_property key rest
  end.

(** [destinations[key]] *)
Definition destinations_at (key : jsstring) : property :=
  match own_property key destinations with
  | Some v => Own v
  | None => if existsb (str_eqb key) Object_prototype_names then Inherited
            else Missing
  end.

(** [a || '杭州'] where [a] is a string or [undefined] *)
Definition or_Hangzhou (a : option jsstring) : destination_value :=
  if truthy_opt a then Named (match a with Some v => v | None => [] end)
  else Named (js "杭州").

(** [params.destination || destinations[params.location] || '杭州'] *)
Definition mock_destination (params : TravelParams) : destination_value :=
  if truthy_opt (destination params)
  then Named (match destination params with Some d => d | None => [] end)
  else match destinations_at (location params) with
       | Own v => or_Hangzhou (Some v)
       | Inherited => PrototypeMember (location params)
       | Missing => or_Hangzhou None
       end.

(** The texts of the members of [Object.prototype] on V8 (Node). *)
Definition native_function_text (name : jsstring) : jsstring :=
  js "function " ++ name ++ js "() { [native code] }".

Definition V8_member_text (key : jsstring) : jsstring :=
  if str_eqb key (js "__proto__") then js "[object Object]"
  else if str_eqb key (js "constructor") then native_function_text (js "Object")
  else native_function_text key.

Definition V8_prototype : PrototypeText := {| member_text := V8_member_text |}.

Module Route.

Section Clocked.
Context {host : HostRuntime} {proto : PrototypeText}.

(** [now n] is what the clock reads the [n]-th time it is read. *)
Variable now : nat -> Z.

(** A computation that reads the clock and may throw: from the number of
    readings made so far to its completion and the number made after it. *)
Definition M (A : Type) : Type := nat -> completion A * nat.

Definition ret {A : Type} (a : A) : M A := fun n => (Returned a, n).

Definition raise {A : Type} (x : exception) : M A := fun n => (Raised x, n).

Definition bindM {A B : Type} (m : M A) (f : A -> M B) : M B :=
  fun n =>
    match m n with
    | (Returned a, n') => f a n'
    | (Raised x, n') => (Raised x, n')
    end.

(** [try { m } catch (e) { handler(e) }] *)
Definition try_catch {A : Type} (m : M A) (handler : exception -> M A) : M A :=
  fun n =>
    match m n with
    | (Returned a, n') => (Returned a, n')
    | (Raised x, n') => handler x n'
    end.

(** [Date.now()], and the time value of [new Date()]. *)
Definition Date_now : M Z := fun n => (Returned (now n), S n).

Definition lift {A : Type} (c : completion A) : M A := fun n => (c, n).

Fixpoint mapM {A B : Type} (f : A -> M B) (l : list A) : M (list B) :=
  match l with
  | [] => ret []
  | a :: rest =>
      bindM (f a) (fun b => bindM (mapM f rest) (fun bs => ret (b :: bs)))
  end.

(** [new Date(t).toISOString().split('T')[0]] *)
Definition date_of (t : Z) : M jsstring :=
  if valid_time t then ret (iso_date t) else raise RangeError.

(** [new Date(Date.now() + offset).toISOString().split('T')[0]], and with
    offset 0 [new Date().toISOString().split('T')[0]]. *)
Definition date_from_now (offset : Z) : M jsstring :=
  bindM Date_now (fun t => date_of (t + offset)).

(** ** parseCozeResponseToItinerary, with its dates *)

(** The entry that the loop pushes for day [i]. *)
Definition daily_entry (params : TravelParams) (destination : jsstring)
    (i : nat) : M ItineraryDay :=
  bindM (date_from_now ((Z.of_nat i - 1) * msPerDay)) (fun date =>
  ret {| d_day := Z.of_nat i;
         d_date := date;
         d_activities :=
           [{| a_time := js "09:00";
               a_activity := if i =? 1 then js "从" ++ location params ++ js "出发"
                             else js "自由行程";
               a_description := js "AI生成的旅行计划";
               a_location := Named (if i =? 1 then location params
                                    else destination) |}]
      |}).

(** The whole function: the fields that do not depend on the clock are
    those of the function above of the same name; then the start date, the
    end date [days] days later, and one entry for each [i] from 1 to
    [days]. *)
Definition parseCozeResponseToItinerary (cozeText : jsstring)
    (params : TravelParams) : M DatedItinerary :=
  let itinerary := parseCozeResponseToItinerary cozeText params in
  bindM (date_from_now 0) (fun startDate =>
  bindM (date_from_now (it_days itinerary * msPerDay)) (fun endDate =>
  bindM (mapM (daily_entry params (it_destination itinerary))
              (List.seq 1 (Z.to_nat (it_days itinerary)))) (fun daily =>
  ret {| undated := itinerary;
         destination_field := Named (it_destination itinerary);
         startDate := startDate; endDate := endDate;
         dailyItinerary := daily |}))).

(** ** generateMockItinerary *)

Definition days_text (days : Z) : jsstring :=
  Number_toString {| mantissa := days; exp10 := 0 |}.

(** The entry for index [i] of [Array.from({ length: days }, ...)].
    Inside a template the destination stands as its text; a field
    [location: destination] holds the destination itself. *)
Definition mock_entry (params : TravelParams) (destination : destination_value)
    (i : nat) : M ItineraryDay :=
  let text := text_of destination in
  bindM (date_from_now (Z.of_nat i * msPerDay)) (fun date =>
  ret {| d_day := Z.of_nat i + 1;
         d_date := date;
         d_activities :=
           [{| a_time := js "09:00";
               a_activity :=
                 if i =? 0
                 then js "从" ++ location params ++ js "出发前往" ++ text
                 else js "游览" ++ text ++ js "景区"
                      ++ nth (i mod 4)
                           [[]; js "著名景点"; js "历史街区"; js "自然风景区"] [];
               a_description :=
                 if i =? 0 then js "准备前往目的地"
                 else js "欣赏" ++ text ++ js "美景，品尝当地小吃";
               a_location :=
                 if i =? 0 then Named (location params)
                 else Named (text ++ js "景区") |};
            {| a_time := js "12:00";
               a_activity := js "午餐";
               a_description := js "品尝" ++ text ++ js "特色菜";
               a_location := destination |};
            {| a_time := js "14:00";
               a_activity :=
                 nth (i mod 4)
                   [js "参观博物馆"; js "游览古城区"; js "探访文化街区";
                    js "漫步在公园"] [];
               a_description := js "了解" ++ text ++ js "的历史文化";
               a_location := destination |};
            {| a_time := js "18:00";
               a_activity := js "晚餐";
               a_description := js "尝试当地特色餐厅";
               a_location := destination |};
            {| a_time := js "20:00";
               a_activity :=
                 nth (i mod 4)
                   [js "欣赏夜景"; js "体验夜市"; js "观看演出"; js "休息"] [];
               a_description := js "体验" ++ text ++ js "夜生活";
               a_location := destination |}]
      |}).

(** The itinerary of the mock for a destination. *)
Definition mock_itinerary (params : TravelParams)
    (destination : destination_value) : M DatedItinerary :=
  let days := parse_days params in
  let text := text_of destination in
  let preferenceText :=
    if truthy_opt (preference params) then
      js "，特别关注"
      ++ match preference params with Some p => p | None => [] end
      ++ js "相关的景点和活动"
    else [] in
  bindM (date_from_now 0) (fun startDate =>
  bindM (date_from_now (days * msPerDay)) (fun endDate =>
  let summary :=
    js "这是一个" ++ days_text days ++ js "天的"
    ++ (if truthy_opt (travelers params) then
          match travelers params with Some t => t | None => [] end ++ js "人"
        else [])
    ++ js "行程，从" ++ location params ++ js "出发前往" ++ text
    ++ js "的旅行建议" ++ preferenceText ++ js "。" in
  bindM (mapM (mock_entry params destination)
              (List.seq 0 (Z.to_nat days))) (fun daily =>
  ret {| undated :=
           {| it_destination := text;
              it_days := days;
              it_summary := summary;
              it_budget := budget_text params;
              it_accommodation :=
                [text ++ js "豪华酒店"; text ++ js "精品民宿";
                 text ++ js "度假酒店"];
              it_transportation := [js "高铁"; js "飞机"; js "长途汽车"];
              it_mustVisit :=
                [text ++ js "著名景点1"; text ++ js "著名景点2";
                 text ++ js "著名景点3"; text ++ js "著名景点4";
                 text ++ js "著名景点5"];
              it_title :=
                location params ++ js "到" ++ text ++ js "的"
                ++ days_text days ++ js "天行程推荐";
              it_plan :=
                js "这是一个从" ++ location params ++ js "到" ++ text
                ++ js "的" ++ days_text days
                ++ js "天行程规划。包含景点、餐饮和交通安排。";
              it_highlights :=
                js "推荐体验：" ++ text ++ js "特色美食" ++ LF
                ++ js "避坑指南：远离人群密集区，注意个人财物安全。" |};
         destination_field := destination;
         startDate := startDate; endDate := endDate;
         dailyItinerary := daily |}))).

(** [generateMockItinerary] *)
Definition generateMockItinerary (params : TravelParams) : M DatedItinerary :=
  mock_itinerary params (mock_destination params).

(** ** generateCozeItinerary, from its first line *)

(** [if (endpoint && !endpoint.startsWith('http')) endpoint =
    `https://${endpoint}`] *)
Definition normalized_endpoint (endpoint : option jsstring) : option jsstring :=
  match endpoint with
  | Some e =>
      if truthy_str e && negb (startsWith (js "http") e)
      then Some (js "https://" ++ e) else Some e
  | None => None
  end.

(** The endpoint that is called: the three variables must be set and not
    empty. *)
Definition configured (env : Environment) : completion jsstring :=
  let endpoint := normalized_endpoint (COZE_API_ENDPOINT env) in
  if negb (truthy_opt (COZE_WORKFLOW_ID env))
     || negb (truthy_opt (COZE_API_KEY env))
     || negb (truthy_opt endpoint)
  then Raised (Error (js "未配置Coze API所需的参数"))
  else match endpoint with
       | Some e => Returned e
       | None => Raised (Error (js "未配置Coze API所需的参数"))
       end.

(** The [try] block over the body of a response that is not ok: it reads the
    text, throws on a page of HTML, and looks whether the text is JSON. *)
Definition inspect_error_body (response : HttpResponse) : completion unit :=
  match r_text response with
  | None => Raised Rejected
  | Some errorText =>
      if startsWith (js "<!DOCTYPE") (trim errorText)
         || startsWith (js "<html") (trim errorText)
      then Raised (Error (js "API返回了HTML错误页面而非JSON响应"))
      else Returned tt
  end.

(** [if (!response.ok) { try { ... } catch (textError) { log } throw new
    Error(`Coze API响应错误: ${status} - ${statusText}`) }] *)
Definition refuse_response (response : HttpResponse) : completion (list jsstring) :=
  let _ := match inspect_error_body response with
           | Returned _ => tt
           | Raised textError => tt
           end in
  Raised (Error (js "Coze API响应错误: " ++ Number_toString (r_status response)
                 ++ js " - " ++ r_statusText response)).

(** From the response to the texts of its stream. *)
Definition open_stream (fetched : fetch_result) : completion (list jsstring) :=
  match fetched with
  | FetchRejected => Raised Rejected
  | Fetched response =>
      if negb (r_ok response) then refuse_response response
      else match r_body response with
           | None => Raised (Error (js "响应体为空"))
           | Some reads => Returned reads
           end
  end.

(** The text of the stream that is handed to the parser. *)
Definition stream_text (reads : list jsstring) : outcome jsstring :=
  st <- read_loop reads initial_state ;; final_response st.

(** The whole function.  The prompt and the request are built from the
    parameters and sent; building them reads the clock once when no user
    id is given ([`user-${Date.now()}`]). *)
Definition generateCozeItinerary (env : Environment) (fetched : fetch_result)
    (params : TravelParams) : M DatedItinerary :=
  bindM (lift (configured env)) (fun endpoint =>
  bindM (if truthy_opt (user_id params) then ret tt
         else bindM Date_now (fun _ => ret tt)) (fun _ =>
  bindM (lift (open_stream fetched)) (fun reads =>
  bindM (lift (of_outcome (stream_text reads))) (fun finalResponse =>
  parseCozeResponseToItinerary finalResponse params)))).

(** ** POST *)

(** A required field of the body: [!body.name || !body.name.trim()] answers
    400; [trim] is only found on strings. *)
Inductive required : Type :=
| Blank
| NotAString
| Text (s : jsstring).

Definition required_field (body : json) (name : jsstring) : required :=
  let v := get body name in
  if negb (truthy_val v) then Blank
  else match v with
       | Some (JStr s) => if truthy_str (trim s) then Text s else Blank
       | _ => NotAString
       end.

(** An optional field as the interface [TravelParams] declares it: absent
    (or [null], which the route does not tell from absent) or a string;
    [None] for any other value, which is not represented. *)
Definition optional_field (body : json) (name : jsstring)
    : option (option jsstring) :=
  match get body name with
  | None | Some JNull => Some None
  | Some (JStr s) => Some (Some s)
  | Some _ => None
  end.

Definition serverError : http_response :=
  ServerError (js "服务器内部错误，请稍后再试").

(** After the two checks: the timestamp of the record that is saved, the
    call of the AI, and the mock when the call throws.  Saving to the
    database changes nothing in the answer (its errors are caught and it
    returns nothing that the answer uses) and is not represented. *)
Definition answer (env : Environment) (fetched : fetch_result)
    (params : TravelParams) (mock : M DatedItinerary) : M http_response :=
  try_catch
    (bindM (date_from_now 0) (fun timestamp =>
     try_catch
       (bindM (generateCozeItinerary env fetched params) (fun itinerary =>
        ret (Success itinerary)))
       (fun aiError =>
        bindM mock (fun mockItinerary =>
        ret (Fallback mockItinerary
               (js "使用了备用数据，因为AI服务暂时不可用"))))))
    (fun error => ret serverError).

(** [POST]: [body] is what [request.json()] yields ([None] when it is
    rejected).  The result is [None] when the body is outside the interface
    [TravelParams] in a way that is not represented. *)
Definition POST (env : Environment) (fetched : fetch_result)
    (body : option json) : option (M http_response) :=
  match body with
  | None => Some (ret serverError)
  | Some JNull => Some (ret serverError)
  | Some body =>
      match required_field body (js "location") with
      | Blank => Some (ret (BadRequest (js "出发地点不能为空")))
      | NotAString => Some (ret serverError)
      | Text location =>
          match required_field body (js "days") with
          | Blank => Some (ret (BadRequest (js "旅行天数不能为空")))
          | NotAString => Some (ret serverError)
          | Text days =>
              match optional_field body (js "destination"),
                    optional_field body (js "travelers"),
                    optional_field body (js "preference"),
                    optional_field body (js "budget"),
                    optional_field body (js "user_id") with
              | Some destination, Some travelers, Some preference,
                Some budget, Some user_id =>
                  let params :=
                    {| location := location; destination := destination;
                       days := days; travelers := travelers;
                       preference := preference; budget := budget;
                       user_id := user_id |} in
                  Some (answer env fetched params
                          (generateMockItinerary params))
              | _, _, _, _, _ => None
              end
          end
      end
  end.

End Clocked.

End Route.

(* ================================================================== *)
(** * From the form to the route *)
(* ================================================================== *)

(** The body that the results page posts: [JSON.stringify(travelParams)],
    read back by [request.json()]; a field that is [undefined] is left
    out. *)
Definition field (name : string) (v : option jsstring)
    : list (jsstring * json) :=
  match v with
  | Some s => [(js name, JStr s)]
  | None => []
  end.

Definition body_of (p : TravelParams) : json :=
  JObj ([(js "location", JStr (location p))]
        ++ field "destination" (destination p)
        ++ [(js "days", JStr (days p))]
        ++ field "travelers" (travelers p)
        ++ field "preference" (preference p)
        ++ field "budget" (budget p)
        ++ field "user_id" (user_id p)).

(* ================================================================== *)
(** * Escaped text *)
(* ================================================================== *)

(** A text as it stands inside a JSON string when it holds no backslash:
    a line feed is written as a backslash and [n], a double quote as a
    backslash and a double quote. *)
Fixpoint escaped (s : jsstring) : jsstring :=
  match s with
  | [] => []
  | c :: s' =>
      if (c =? 10)%N then 92%N :: 110%N :: escaped s'
      else if (c =? 34)%N then 92%N :: 34%N :: escaped s'
      else c :: escaped s'
  end.

(** The same with the quotes alone written with a backslash: what the
    first replacement leaves for the second. *)
Fixpoint escaped_quotes (s : jsstring) : jsstring :=
  match s with
  | [] => []
  | c :: s' =>
      if (c =? 34)%N then 92%N :: 34%N :: escaped_quotes s'
      else c :: escaped_quotes s'
  end.

(* ================================================================== *)
(** * Facts about strings *)
(* ================================================================== *)

Lemma str_eqb_eq (a b : jsstring) : str_eqb a b = true <-> a = b.
Proof.
  revert b; induction a as [|x a IH]; intros [|y b]; simpl; split;
    try congruence; try reflexivity.
  - intros H. apply andb_true_iff in H as [Hx Hr].
    apply N.eqb_eq in Hx. apply IH in Hr. congruence.
  - intros H. injection H as -> ->. rewrite N.eqb_refl. simpl. now apply IH.
Qed.

Lemma startsWith_prefix (p s : jsstring) :
  startsWith p s = true <-> exists t, s = p ++ t.
Proof.
  revert s; induction p as [|x p IH]; intros s; simpl.
  - split; [intros _; now exists s | reflexivity].
  - destruct s as [|y s].
    + split; [discriminate | intros [t Ht]; discriminate].
    + rewrite andb_true_iff, N.eqb_eq, IH. split.
      * intros [-> [t ->]]. now exists t.
      * intros [t Ht]. injection Ht as -> ->. split; [reflexivity | now exists t].
Qed.

Lemma startsWith_app_r (p q s : jsstring) :
  startsWith p s = true -> startsWith q (skipn (length p) s) = true ->
  startsWith (p ++ q) s = true.
Proof.
  revert s; induction p as [|x p IH]; intros s; simpl.
  - auto.
  - destruct s as [|y s]; [discriminate|].
    rewrite !andb_true_iff. intros [Hx Hr] Hq. split; [assumption|].
    apply IH; assumption.
Qed.

Lemma includes_here (p s : jsstring) :
  startsWith p s = true -> includes p s = true.
Proof.
  unfold includes. intros H. destruct s; simpl; rewrite H; reflexivity.
Qed.

Lemma includes_cons (p : jsstring) (c : N) (s : jsstring) :
  includes p s = true -> includes p (c :: s) = true.
Proof.
  unfold includes. simpl.
  destruct (startsWith p (c :: s)); [reflexivity|].
  destruct (indexOf p s); simpl; [reflexivity | discriminate].
Qed.

Lemma suffix_of_refl (s : jsstring) : suffix_of s s.
Proof. now exists []. Qed.

Lemma suffix_of_trans (a b c : jsstring) :
  suffix_of a b -> suffix_of b c -> suffix_of a c.
Proof.
  intros [p ->] [q ->]. exists (q ++ p). now rewrite app_assoc.
Qed.

Lemma suffix_of_tail (c : N) (s : jsstring) : suffix_of s (c :: s).
Proof. now exists [c]. Qed.

Lemma suffix_of_length (t s : jsstring) : suffix_of t s -> length t <= length s.
Proof. intros [p ->]. rewrite length_app. lia. Qed.

Lemma includes_suffix (p t s : jsstring) :
  suffix_of t s -> startsWith p t = true -> includes p s = true.
Proof.
  intros [q ->] H. induction q as [|c q IH]; simpl.
  - now apply includes_here.
  - now apply includes_cons.
Qed.

(* ================================================================== *)
(** * Facts about the matcher *)
(* ================================================================== *)

Lemma star_loop_suffix body greedy :
  hands_suffix body ->
  forall k fuel s cs res,
    star_loop body greedy k fuel s cs = Some res ->
    exists s' cs', suffix_of s' s /\ k s' cs' = Some res.
Proof.
  intros Hbody k fuel. induction fuel as [|fuel IH]; intros s cs res; simpl.
  - intros H. exists s, cs. split; [apply suffix_of_refl | exact H].
  - assert (Hagain : forall r,
      body s cs (fun s1 c1 =>
        if length s1 <? length s then star_loop body greedy k fuel s1 c1
        else None) = Some r ->
      exists s' cs', suffix_of s' s /\ k s' cs' = Some r).
    { intros r H. apply Hbody in H as [s1 [c1 [Hs1 H]]].
      destruct (length s1 <? length s); [|discriminate].
      apply IH in H as [s' [cs' [Hs' H]]].
      exists s', cs'. split; [eapply suffix_of_trans; eauto | exact H]. }
    destruct greedy.
    + destruct (body s cs _) eqn:E.
      * intros H. injection H as <-. now apply Hagain.
      * intros H. exists s, cs. split; [apply suffix_of_refl | exact H].
    + destruct (k s cs) eqn:E.
      * intros H. injection H as <-. exists s, cs.
        split; [apply suffix_of_refl | exact E].
      * apply Hagain.
Qed.

Lemma rx_suffix (r : regex) : hands_suffix (rx r).
Proof.
  induction r as [p| |a IHa b IHb|a IHa b IHb|g a IHa|n a IHa|a IHa|];
    intros s cs k res; cbn [rx].
  - destruct s as [|c s']; [discriminate|].
    destruct (p c); [|discriminate].
    intros H. exists s', cs. split; [apply suffix_of_tail | exact H].
  - intros H. exists s, cs. split; [apply suffix_of_refl | exact H].
  - intros H. apply IHa in H as [s1 [c1 [Hs1 H]]].
    apply IHb in H as [s2 [c2 [Hs2 H]]].
    exists s2, c2. split; [eapply suffix_of_trans; eauto | exact H].
  - destruct (rx a s cs k) eqn:E.
    + intros H. injection H as <-. now apply IHa in E.
    + apply IHb.
  - now apply star_loop_suffix.
  - intros H. apply IHa in H as [s1 [c1 [Hs1 H]]].
    exists s1, ((n, firstn (length s - length s1) s) :: c1). split; assumption.
  - destruct (rx a s cs accept) as [[s1 c1]|] eqn:E; [|discriminate].
    intros H. exists s, c1. split; [apply suffix_of_refl | exact H].
  - destruct s; [|discriminate].
    intros H. exists [], cs. split; [apply suffix_of_refl | exact H].
Qed.

(** A literal matches exactly itself. *)
Lemma rx_lit (w s : jsstring) (cs : captures) (k : cont) :
  rx (lit w) s cs k =
  if startsWith w s then k (skipn (length w) s) cs else None.
Proof.
  revert s; induction w as [|c w IH]; intros s.
  - reflexivity.
  - destruct w as [|c' w'].
    + simpl. destruct s as [|x s']; [reflexivity|].
      destruct (c =? x)%N; simpl; reflexivity.
    + change (lit (c :: c' :: w')) with (Cat (chr c) (lit (c' :: w'))).
      cbn [rx chr]. destruct s as [|x s']; [reflexivity|].
      cbn [startsWith].
      destruct (c =? x)%N; [|reflexivity].
      rewrite IH. reflexivity.
Qed.

Lemma exec_from_none (r : regex) (s : jsstring) :
  (forall t, suffix_of t s -> match_here r t = None) ->
  forall i, exec_from r i s = None.
Proof.
  induction s as [|c s IH]; intros H i; simpl.
  - now rewrite (H [] (suffix_of_refl _)).
  - rewrite (H (c :: s) (suffix_of_refl _)).
    apply IH. intros t Ht. apply H.
    eapply suffix_of_trans; [exact Ht | apply suffix_of_tail].
Qed.

Lemma exec_from_some (r : regex) (s : jsstring) (i : nat) (m : match_result) :
  exec_from r i s = Some m ->
  exists t all rest, suffix_of t s /\
    match_here r t = Some (all, rest, m_groups m) /\ m_all m = all.
Proof.
  revert i; induction s as [|c s IH]; intros i; simpl.
  - destruct (match_here r []) as [[[all rest] cs]|] eqn:E; [|discriminate].
    intros H. injection H as <-. exists [], all, rest. simpl.
    repeat split; [apply suffix_of_refl | exact E].
  - destruct (match_here r (c :: s)) as [[[all rest] cs]|] eqn:E.
    + intros H. injection H as <-. exists (c :: s), all, rest. simpl.
      repeat split; [apply suffix_of_refl | exact E].
    + intros H. apply IH in H as [t [all [rest [Ht H]]]].
      exists t, all, rest. split; [|exact H].
      eapply suffix_of_trans; [exact Ht | apply suffix_of_tail].
Qed.

Lemma rx_cat (a b : regex) (s : jsstring) (cs : captures) (k : cont) :
  rx (Cat a b) s cs k = rx a s cs (fun s1 c1 => rx b s1 c1 k).
Proof. reflexivity. Qed.

Lemma rx_star (g : bool) (a : regex) (s : jsstring) (cs : captures) (k : cont) :
  rx (Star g a) s cs k = star_loop (rx a) g k (S (length s)) s cs.
Proof. reflexivity. Qed.

Lemma rx_chr (p : N -> bool) (c : N) (s : jsstring) (cs : captures) (k : cont) :
  rx (Chr p) (c :: s) cs k = if p c then k s cs else None.
Proof. reflexivity. Qed.

(** ** The fuel of the loops of the matcher is never exhausted *)

(** A match only looks at its continuation on suffixes of its input. *)
Lemma star_loop_ext
    (body : jsstring -> captures -> cont -> option (jsstring * captures))
    (greedy : bool) :
  (forall s cs k1 k2,
     (forall s' cs', suffix_of s' s -> k1 s' cs' = k2 s' cs') ->
     body s cs k1 = body s cs k2) ->
  forall fuel s cs k1 k2,
    (forall s' cs', suffix_of s' s -> k1 s' cs' = k2 s' cs') ->
    star_loop body greedy k1 fuel s cs = star_loop body greedy k2 fuel s cs.
Proof.
  intros Hbody fuel. induction fuel as [|fuel IH]; intros s cs k1 k2 Hk.
  - simpl. apply Hk, suffix_of_refl.
  - assert (Hagain : body s cs
      (fun (s1 : list N) c1 => if length s1 <? length s
                    then star_loop body greedy k1 fuel s1 c1 else None)
      = body s cs
      (fun (s1 : list N) c1 => if length s1 <? length s
                    then star_loop body greedy k2 fuel s1 c1 else None)).
    { apply Hbody. intros s1 c1 Hs1.
      destruct (length s1 <? length s); [|reflexivity].
      apply IH. intros s' cs' Hs'. apply Hk.
      exact (suffix_of_trans _ _ _ Hs' Hs1). }
    cbn [star_loop]. cbv zeta.
    rewrite Hagain, (Hk s cs (suffix_of_refl s)). reflexivity.
Qed.

Lemma rx_ext (r : regex) :
  forall s cs k1 k2,
    (forall s' cs', suffix_of s' s -> k1 s' cs' = k2 s' cs') ->
    rx r s cs k1 = rx r s cs k2.
Proof.
  induction r as [p| |a IHa b IHb|a IHa b IHb|g a IHa|n a IHa|a IHa|];
    intros s cs k1 k2 Hk; cbn [rx].
  - destruct s as [|c s']; [reflexivity|].
    destruct (p c); [|reflexivity]. apply Hk, suffix_of_tail.
  - apply Hk, suffix_of_refl.
  - apply IHa. intros s1 c1 Hs1. apply IHb. intros s' cs' Hs'.
    apply Hk. exact (suffix_of_trans _ _ _ Hs' Hs1).
  - rewrite (IHa s cs k1 k2 Hk), (IHb s cs k1 k2 Hk). reflexivity.
  - apply star_loop_ext; assumption.
  - apply IHa. intros s1 c1 Hs1. apply Hk. exact Hs1.
  - destruct (rx a s cs accept) as [[s1 c1]|]; [|reflexivity].
    apply Hk, suffix_of_refl.
  - destruct s; [|reflexivity]. apply Hk, suffix_of_refl.
Qed.

Lemma star_loop_enough (a : regex) (greedy : bool) (k : cont) (f1 f2 : nat) :
  forall s cs, length s < f1 -> length s < f2 ->
    star_loop (rx a) greedy k f1 s cs = star_loop (rx a) greedy k f2 s cs.
Proof.
  revert f2; induction f1 as [|f1 IH]; intros f2 s cs H1 H2; [lia|].
  destruct f2 as [|f2]; [lia|].
  assert (Hagain : rx a s cs
    (fun (s1 : list N) c1 => if length s1 <? length s
                  then star_loop (rx a) greedy k f1 s1 c1 else None)
    = rx a s cs
    (fun (s1 : list N) c1 => if length s1 <? length s
                  then star_loop (rx a) greedy k f2 s1 c1 else None)).
  { apply rx_ext. intros s1 c1 _.
    destruct (length s1 <? length s) eqn:E; [|reflexivity].
    apply Nat.ltb_lt in E. apply IH; lia. }
  cbn [star_loop]. cbv zeta. rewrite Hagain. reflexivity.
Qed.

(** More fuel than [S (length s)] changes nothing in a star. *)
Lemma rx_star_fuel (greedy : bool) (a : regex) (k : cont) (fuel : nat)
    (s : jsstring) (cs : captures) :
  length s < fuel ->
  star_loop (rx a) greedy k fuel s cs = rx (Star greedy a) s cs k.
Proof. intros H. rewrite rx_star. apply star_loop_enough; lia. Qed.

(** What is left after a match is a suffix of the text, and it is the whole
    text exactly when the match is empty. *)
Lemma match_here_rest (r : regex) (s all rest : jsstring) (cs : captures) :
  match_here r s = Some (all, rest, cs) ->
  length rest <= length s /\ (all <> [] -> length rest < length s).
Proof.
  unfold match_here.
  destruct (rx r s [] accept) as [[rest' cs']|] eqn:E; [|discriminate].
  intros H. injection H as <- <- <-.
  apply rx_suffix in E as (s' & c' & Hsuf & E). injection E as -> ->.
  apply suffix_of_length in Hsuf. split; [exact Hsuf|].
  intros Hne. destruct (Nat.eq_dec (length rest') (length s)) as [Heq|Hlt];
    [|lia].
  exfalso. apply Hne. rewrite Heq, Nat.sub_diag. reflexivity.
Qed.

Lemma match_all_loop_enough (r : regex) (f1 f2 : nat) :
  forall s, length s < f1 -> length s < f2 ->
    match_all_loop r f1 s = match_all_loop r f2 s.
Proof.
  revert f2; induction f1 as [|f1 IH]; intros f2 s H1 H2; [lia|].
  destruct f2 as [|f2]; [lia|]. cbn [match_all_loop].
  destruct (match_here r s) as [[[all rest] cs]|] eqn:E.
  - destruct all as [|c all].
    + destruct s as [|x s']; [reflexivity|]. f_equal.
      apply IH; simpl in *; lia.
    + f_equal.
      destruct (match_here_rest r s (c :: all) rest cs E) as [_ Hlt].
      apply IH; specialize (Hlt ltac:(discriminate)); lia.
  - destruct s as [|x s']; [reflexivity|]. apply IH; simpl in *; lia.
Qed.

Lemma split_loop_enough (r : regex) (f1 f2 : nat) :
  forall cur s,
    2 * length s + (if is_empty cur then 0 else 1) < f1 ->
    2 * length s + (if is_empty cur then 0 else 1) < f2 ->
    split_loop r f1 cur s = split_loop r f2 cur s.
Proof.
  revert f2; induction f1 as [|f1 IH]; intros f2 cur s H1 H2; [lia|].
  destruct f2 as [|f2]; [lia|]. cbn [split_loop].
  destruct s as [|c s']; [reflexivity|].
  assert (Hstep : split_loop r f1 (c :: cur) s' = split_loop r f2 (c :: cur) s').
  { apply IH; cbn [is_empty length] in *; lia. }
  destruct (match_here r (c :: s')) as [[[all rest] cs]|] eqn:E;
    [|exact Hstep].
  destruct (is_empty all && is_empty cur) eqn:Eb; [exact Hstep|].
  f_equal. destruct (match_here_rest r (c :: s') all rest cs E) as [Hle Hlt].
  apply IH; cbn [is_empty].
  - destruct all as [|x all].
    + destruct cur; [discriminate Eb|]. cbn [is_empty] in H1. lia.
    + specialize (Hlt ltac:(discriminate)). destruct (is_empty cur); lia.
  - destruct all as [|x all].
    + destruct cur; [discriminate Eb|]. cbn [is_empty] in H2. lia.
    + specialize (Hlt ltac:(discriminate)). destruct (is_empty cur); lia.
Qed.

(** A match of a pattern that opens with a literal is not empty. *)
Lemma literal_match_not_empty (w : jsstring) (R : regex) (s : jsstring)
    (m : match_result) :
  w <> [] -> exec (Cat (lit w) R) s = Some m -> m_all m <> [].
Proof.
  intros Hw H. apply exec_from_some in H as (t & all & rest & _ & H & Hall).
  rewrite Hall. clear Hall. unfold match_here in H.
  destruct (rx (Cat (lit w) R) t [] accept) as [[rest' cs]|] eqn:E; [|discriminate].
  injection H as Hall _ _. subst all. cbn [rx] in E. rewrite rx_lit in E.
  destruct (startsWith w t) eqn:Hs; [|discriminate].
  apply rx_suffix in E as (s' & cs' & Hsuf & E).
  injection E as -> _.
  apply startsWith_prefix in Hs as [u ->].
  rewrite skipn_app, Nat.sub_diag, skipn_all in Hsuf. simpl in Hsuf.
  apply suffix_of_length in Hsuf. rewrite length_app.
  destruct w as [|c w]; [now elim Hw|].
  destruct (length (c :: w) + length u - length rest') as [|n] eqn:En;
    [cbn [length] in En; lia|].
  simpl. discriminate.
Qed.

(* ================================================================== *)
(** * Stars over one character class *)
(* ================================================================== *)

Lemma star_greedy_step (p : N -> bool) (k : cont) (fuel : nat) (c : N)
    (s : jsstring) (cs : captures) :
  star_loop (rx (Chr p)) true k (S fuel) (c :: s) cs =
  if p c then
    match star_loop (rx (Chr p)) true k fuel s cs with
    | Some x => Some x
    | None => k (c :: s) cs
    end
  else k (c :: s) cs.
Proof.
  cbn [star_loop rx]. destruct (p c); [|reflexivity].
  replace (length s <? length (c :: s)) with true; [reflexivity|].
  symmetry. apply Nat.ltb_lt. simpl. lia.
Qed.

Lemma star_lazy_step (p : N -> bool) (k : cont) (fuel : nat) (c : N)
    (s : jsstring) (cs : captures) :
  star_loop (rx (Chr p)) false k (S fuel) (c :: s) cs =
  match k (c :: s) cs with
  | Some x => Some x
  | None => if p c then star_loop (rx (Chr p)) false k fuel s cs else None
  end.
Proof.
  cbn [star_loop rx]. destruct (k (c :: s) cs); [reflexivity|].
  destruct (p c); [|reflexivity].
  replace (length s <? length (c :: s)) with true; [reflexivity|].
  symmetry. apply Nat.ltb_lt. simpl. lia.
Qed.

Lemma star_nil (p : N -> bool) (greedy : bool) (k : cont) (fuel : nat)
    (cs : captures) :
  star_loop (rx (Chr p)) greedy k fuel [] cs = k [] cs.
Proof.
  destruct fuel; [reflexivity|]. cbn [star_loop rx].
  destruct greedy; [reflexivity|]. now destruct (k [] cs).
Qed.

(** White space is not skipped where there is none. *)
Lemma spaces_dark (k : cont) (fuel : nat) (s : jsstring) (cs : captures) :
  starts_dark s = true ->
  star_loop (rx (Chr is_space)) true k fuel s cs = k s cs.
Proof.
  destruct s as [|c s]; [discriminate|]. cbn [starts_dark]. intros H.
  apply negb_true_iff in H.
  destruct fuel; [reflexivity|]. now rewrite star_greedy_step, H.
Qed.

(** A greedy run of white space that ends where the continuation succeeds
    on a dark character takes all of it. *)
Lemma spaces_take (k : cont) (ws r : jsstring) (cs : captures) (fuel : nat)
    (res : jsstring * captures) :
  forallb is_space ws = true -> length ws < fuel ->
  starts_dark r = true -> k r cs = Some res ->
  star_loop (rx (Chr is_space)) true k fuel (ws ++ r) cs = Some res.
Proof.
  revert fuel; induction ws as [|c ws IH]; intros fuel Hws Hfuel Hr Hk.
  - simpl. now rewrite spaces_dark.
  - simpl in Hws. apply andb_true_iff in Hws as [Hc Hws].
    destruct fuel as [|fuel]; [simpl in Hfuel; lia|].
    simpl app. rewrite star_greedy_step, Hc.
    rewrite IH; try assumption; [reflexivity|]. simpl in Hfuel. lia.
Qed.

Lemma ends_dark_cons (c : N) (p : jsstring) :
  p <> [] -> ends_dark (c :: p) = ends_dark p.
Proof.
  unfold ends_dark. simpl. intros Hp.
  destruct (rev p) as [|x r] eqn:E.
  - apply (f_equal (@rev N)) in E. rewrite rev_involutive in E. now elim Hp.
  - reflexivity.
Qed.

Lemma ends_dark_single (c : N) : ends_dark [c] = negb (is_space c).
Proof. reflexivity. Qed.

(** White space never runs past a text that ends on a dark character: a
    continuation that fails everywhere inside the text fails. *)
Lemma spaces_stop (k : cont) (p tail : jsstring) (cs : captures) (fuel : nat) :
  p <> [] -> ends_dark p = true ->
  (forall q' q, p = q' ++ q -> q <> [] -> k (q ++ tail) cs = None) ->
  star_loop (rx (Chr is_space)) true k fuel (p ++ tail) cs = None.
Proof.
  revert fuel; induction p as [|c p IH]; intros fuel Hp Hend Hk;
    [now elim Hp|].
  assert (Hhere : k ((c :: p) ++ tail) cs = None)
    by (apply (Hk [] (c :: p)); [reflexivity | discriminate]).
  destruct fuel as [|fuel]; [exact Hhere|].
  simpl app. rewrite star_greedy_step.
  destruct (is_space c) eqn:Hc; [|exact Hhere].
  destruct p as [|c' p'].
  - rewrite ends_dark_single, Hc in Hend. discriminate.
  - rewrite IH; [exact Hhere | discriminate | |].
    + rewrite ends_dark_cons in Hend by discriminate. exact Hend.
    + intros q' q Hq Hne. apply (Hk (c :: q') q); [|exact Hne].
      simpl. now rewrite Hq.
Qed.

(** A lazy star over any character stops at the first place where the
    continuation succeeds. *)
Lemma lazy_any_first (k : cont) (pre post : jsstring) (cs : captures)
    (fuel : nat) (res : jsstring * captures) :
  length pre < fuel ->
  (forall q' q, pre = q' ++ q -> q <> [] -> k (q ++ post) cs = None) ->
  k post cs = Some res ->
  star_loop (rx (Chr (fun _ => true))) false k fuel (pre ++ post) cs = Some res.
Proof.
  revert fuel; induction pre as [|c pre IH]; intros fuel Hfuel Hmiss Hk.
  - destruct fuel as [|fuel]; [simpl in Hfuel; lia|].
    simpl app. destruct post as [|x post].
    + now rewrite star_nil.
    + now rewrite star_lazy_step, Hk.
  - destruct fuel as [|fuel]; [simpl in Hfuel; lia|].
    simpl app. rewrite star_lazy_step.
    change (c :: pre ++ post) with ((c :: pre) ++ post).
    rewrite (Hmiss [] (c :: pre)) by (reflexivity || discriminate).
    apply IH; [simpl in Hfuel; lia | | exact Hk].
    intros q' q Hq Hne. apply (Hmiss (c :: q') q); [|exact Hne].
    simpl. now rewrite Hq.
Qed.

(* ================================================================== *)
(** * The three sections *)
(* ================================================================== *)

(** A pattern that opens with a header and a colon only matches where the
    text shows that header followed by one of the colons. *)
Lemma header_match_here (w : jsstring) (R : regex) (t : jsstring) :
  match_here (Cat (lit w) (Cat colon R)) t <> None ->
  startsWith (w ++ js ":") t = true \/ startsWith (w ++ js "：") t = true.
Proof.
  unfold match_here. cbn [rx]. rewrite rx_lit.
  destruct (startsWith w t) eqn:Hw; [|intros H; now elim H].
  destruct (skipn (length w) t) as [|c s'] eqn:Hs; [intros H; now elim H|].
  cbn [colon rx].
  destruct ((c =? 65306)%N || (c =? 58)%N) eqn:Hc; [|intros H; now elim H].
  intros _. apply orb_true_iff in Hc as [Hc|Hc]; apply N.eqb_eq in Hc; subst c.
  - right. apply startsWith_app_r; [exact Hw|]. rewrite Hs. reflexivity.
  - left. apply startsWith_app_r; [exact Hw|]. rewrite Hs. reflexivity.
Qed.

Lemma header_absent_no_match (w : jsstring) (R : regex) (text : jsstring) :
  has_anchor w text = false ->
  exec (Cat (lit w) (Cat colon R)) text = None.
Proof.
  intros H. apply orb_false_iff in H as [H1 H2].
  apply exec_from_none. intros t Ht.
  destruct (match_here (Cat (lit w) (Cat colon R)) t) eqn:E; [|reflexivity].
  assert (Hm : match_here (Cat (lit w) (Cat colon R)) t <> None) by congruence.
  apply header_match_here in Hm as [Hm|Hm];
    apply (includes_suffix _ _ _ Ht) in Hm; congruence.
Qed.

(** Conversely, a section that was extracted shows its header in the text. *)
Lemma extract_section_header (w : jsstring) (R : regex) (text : jsstring) :
  extract_section (Cat (lit w) (Cat colon R)) text <> [] ->
  has_anchor w text = true.
Proof.
  intros H. destruct (has_anchor w text) eqn:E; [reflexivity|].
  exfalso. apply H. unfold extract_section.
  now rewrite (header_absent_no_match w R text E).
Qed.

Lemma no_anchor_sections (text : jsstring) :
  no_anchor text -> anchored_sections text = ([], [], []).
Proof.
  intros (H1 & H2 & H3). unfold anchored_sections, extract_section.
  unfold titleRegex, planRegex, highlightsRegex. cbn [seq].
  rewrite (header_absent_no_match _ _ _ H1).
  rewrite (header_absent_no_match _ _ _ H2).
  rewrite (header_absent_no_match _ _ _ H3).
  reflexivity.
Qed.

Lemma truthy_str_true (s : jsstring) : truthy_str s = true <-> s <> [].
Proof.
  destruct s; cbv; split; intros H; try discriminate; try reflexivity.
  now elim H.
Qed.

(** When the cascade is taken. *)
Lemma split_sections_cases (text : jsstring) :
  let '(title, plan, highlights) := anchored_sections text in
  (title = [] /\ plan = [] /\ highlights = [] ->
     split_sections text = fallback_sections text)
  /\ (~ (title = [] /\ plan = [] /\ highlights = []) ->
     split_sections text = (title, plan, highlights)).
Proof.
  unfold split_sections.
  destruct (anchored_sections text) as [[title plan] highlights].
  destruct title, plan, highlights; cbn; split; intros H;
    try reflexivity; try (exfalso; apply H; auto);
    destruct H as (? & ? & ?); discriminate.
Qed.

(** A section pattern that ends on a lookahead for the next header only
    matches when that header, followed by a colon, occurs further on. *)
Lemma next_header_needed (w w2 : jsstring) (text : jsstring) :
  extract_section
    (seq [lit w; colon; spaces; Group 1 any_lazy;
          Ahead (seq [spaces; lit w2; colon])]) text <> [] ->
  has_anchor w2 text = true.
Proof.
  intros H.
  destruct (exec (seq [lit w; colon; spaces; Group 1 any_lazy;
                       Ahead (seq [spaces; lit w2; colon])]) text)
    as [m|] eqn:E;
    [|unfold extract_section in H; rewrite E in H; now elim H].
  clear H. apply exec_from_some in E as (t & all & rest & Ht & E & _).
  unfold match_here in E.
  destruct (rx _ t [] accept) as [[rest' cs']|] eqn:R; [|discriminate].
  clear E. cbn [seq rx] in R.
  apply rx_suffix in R as (s1 & c1 & Hs1 & R).
  apply rx_suffix in R as (s2 & c2 & Hs2 & R).
  apply (rx_suffix spaces) in R as (s3 & c3 & Hs3 & R).
  apply (rx_suffix any_lazy) in R as (s4 & c4 & Hs4 & R).
  destruct (rx spaces s4 _ _) as [[s5 c5]|] eqn:L; [|discriminate].
  clear R. apply (rx_suffix spaces) in L as (s6 & c6 & Hs6 & L).
  rewrite rx_lit in L.
  destruct (startsWith w2 s6) eqn:Hw; [|discriminate].
  cbn [rx colon] in L.
  destruct (skipn (length w2) s6) as [|c s'] eqn:Hs; [discriminate|].
  destruct ((c =? 65306)%N || (c =? 58)%N) eqn:Hc; [|discriminate].
  assert (Hsuf : suffix_of s6 text).
  { eapply suffix_of_trans; [exact Hs6|].
    eapply suffix_of_trans; [exact Hs4|].
    eapply suffix_of_trans; [exact Hs3|].
    eapply suffix_of_trans; [exact Hs2|].
    eapply suffix_of_trans; [exact Hs1|]. exact Ht. }
  unfold has_anchor. apply orb_true_iff.
  apply orb_true_iff in Hc as [Hc|Hc]; apply N.eqb_eq in Hc; subst c.
  - right. apply (includes_suffix _ _ _ Hsuf).
    apply startsWith_app_r; [exact Hw|]. rewrite Hs. reflexivity.
  - left. apply (includes_suffix _ _ _ Hsuf).
    apply startsWith_app_r; [exact Hw|]. rewrite Hs. reflexivity.
Qed.

(* ================================================================== *)
(** * The separated format *)
(* ================================================================== *)

Lemma startsWith_self (w t : jsstring) : startsWith w (w ++ t) = true.
Proof. apply startsWith_prefix. now exists t. Qed.

Lemma skipn_self (w t : jsstring) : skipn (length w) (w ++ t) = t.
Proof. now rewrite skipn_app, Nat.sub_diag, skipn_all. Qed.

Lemma firstn_self (a t : jsstring) :
  firstn (length (a ++ t) - length t) (a ++ t) = a.
Proof.
  rewrite length_app, Nat.add_sub, firstn_app, Nat.sub_diag, firstn_all.
  simpl. apply app_nil_r.
Qed.

Lemma trim_plain (x : jsstring) :
  starts_dark x = true -> ends_dark x = true -> trim x = x.
Proof.
  intros Hs He. unfold trim, trimEnd.
  assert (H1 : forall y, starts_dark y = true -> trimStart y = y).
  { intros [|c y]; [discriminate|]. cbn [starts_dark trimStart].
    intros H. apply negb_true_iff in H. now rewrite H. }
  rewrite (H1 x Hs), (H1 (rev x) He). apply rev_involutive.
Qed.

Lemma ends_dark_suffix (q' q : jsstring) :
  q <> [] -> ends_dark (q' ++ q) = ends_dark q.
Proof.
  intros Hq. induction q' as [|c q' IH]; [reflexivity|].
  simpl app. rewrite ends_dark_cons; [exact IH|].
  destruct q'; [exact Hq | discriminate].
Qed.

Lemma starts_dark_app (a t : jsstring) :
  starts_dark a = true -> starts_dark (a ++ t) = true.
Proof. destruct a; [discriminate | trivial]. Qed.

(** A literal does not match where the text shows another first
    character. *)
Lemma lit_miss (h : N) (w s : jsstring) (c : N) (cs : captures) (k : cont) :
  c <> h -> rx (lit (h :: w)) (c :: s) cs k = None.
Proof.
  intros Hc. rewrite rx_lit. cbn [startsWith].
  destruct (N.eqb_spec h c) as [->|_]; [now elim Hc | reflexivity].
Qed.

(** The pattern of a section, [header colon \s* ([\s\S]*?) K], on a text
    that shows the header, a colon and a section text [A] after which alone
    [K] succeeds: the group is [A]. *)
Lemma section_match (H : jsstring) (K : regex) (A tail rest : jsstring)
    (cs' : captures) :
  starts_dark A = true ->
  (forall q' q c0, A = q' ++ q -> q <> [] -> rx K (q ++ tail) c0 accept = None) ->
  rx K tail [(1, A)] accept = Some (rest, cs') ->
  rx (seq [lit H; colon; spaces; Group 1 any_lazy; K])
     (H ++ js ":" ++ A ++ tail) [] accept = Some (rest, cs').
Proof.
  intros Hdark Hmiss Hk. cbn [seq rx].
  rewrite rx_lit, startsWith_self, skipn_self.
  change (js ":" ++ A ++ tail) with (58%N :: A ++ tail).
  cbn [colon rx]. change ((58 =? 65306)%N || (58 =? 58)%N) with true. cbv iota.
  unfold spaces at 1. cbn [rx].
  rewrite spaces_dark by (now apply starts_dark_app).
  unfold any_lazy. cbn [rx].
  apply lazy_any_first.
  - rewrite length_app. lia.
  - intros q' q Hq Hne. now apply (Hmiss q' q).
  - rewrite firstn_self. exact Hk.
Qed.

(** The lookahead for the next header fails inside a plain section and
    succeeds at its end. *)
Lemma lookahead_inside (h : N) (w : jsstring) (A q' q tail : jsstring)
    (c0 : captures) :
  ends_dark A = true -> ~ In h A -> A = q' ++ q -> q <> [] ->
  rx (Ahead (seq [spaces; lit (h :: w); colon])) (q ++ tail) c0 accept = None.
Proof.
  intros Hend Hno Hq Hne. cbn [seq rx]. unfold spaces. cbn [rx].
  rewrite spaces_stop; [reflexivity | exact Hne | |].
  - rewrite Hq in Hend. now rewrite ends_dark_suffix in Hend.
  - intros p' p Hp Hpne. destruct p as [|c p]; [now elim Hpne|].
    simpl app. apply lit_miss. intros ->. apply Hno.
    rewrite Hq, Hp. apply in_or_app. right. apply in_or_app. right. now left.
Qed.

Lemma lookahead_at_end (w tail : jsstring) (cs : captures) :
  starts_dark w = true ->
  rx (Ahead (seq [spaces; lit w; colon])) (LF ++ w ++ js ":" ++ tail) cs accept
  = Some (LF ++ w ++ js ":" ++ tail, cs).
Proof.
  intros Hw. cbn [seq rx]. unfold spaces. cbn [rx].
  rewrite (spaces_take _ LF (w ++ js ":" ++ tail) cs _ (tail, cs));
    try reflexivity.
  - simpl. lia.
  - now apply starts_dark_app.
  - rewrite rx_lit, startsWith_self, skipn_self. reflexivity.
Qed.

(** Looking for a pattern that opens with a literal. *)
Lemma exec_from_miss (w : jsstring) (R : regex) (i : nat) (c : N) (s : jsstring) :
  startsWith w (c :: s) = false ->
  exec_from (Cat (lit w) R) i (c :: s) = exec_from (Cat (lit w) R) (S i) s.
Proof.
  intros H. cbn [exec_from]. unfold match_here. cbn [rx].
  now rewrite rx_lit, H.
Qed.

Lemma exec_from_skip (h : N) (w : jsstring) (R : regex) (pre s : jsstring) (i : nat) :
  ~ In h pre ->
  exec_from (Cat (lit (h :: w)) R) i (pre ++ s)
  = exec_from (Cat (lit (h :: w)) R) (length pre + i) s.
Proof.
  revert i; induction pre as [|c pre IH]; intros i Hno; [reflexivity|].
  simpl app. rewrite exec_from_miss.
  - rewrite IH by (intros Hin; apply Hno; now right). simpl. f_equal. lia.
  - cbn [startsWith]. destruct (N.eqb_spec h c) as [->|_]; [|reflexivity].
    exfalso. apply Hno. now left.
Qed.

Lemma exec_from_hit (r : regex) (i : nat) (s rest : jsstring) (cs : captures) :
  rx r s [] accept = Some (rest, cs) ->
  exists m, exec_from r i s = Some m /\ m_groups m = cs.
Proof.
  intros H. destruct s as [|c s]; cbn [exec_from]; unfold match_here; rewrite H;
    eexists; split; reflexivity.
Qed.

Lemma extract_section_group (r : regex) (text A : jsstring) (m : match_result) :
  exec r text = Some m -> m_groups m = [(1, A)] ->
  starts_dark A = true -> ends_dark A = true ->
  extract_section r text = A.
Proof.
  intros Hm Hg Hs He. unfold extract_section, group. rewrite Hm, Hg.
  cbn [capture Nat.eqb]. destruct A as [|c A]; [discriminate|].
  cbn [truthy_str is_empty negb]. now apply trim_plain.
Qed.

Lemma plain_no_initial (x : jsstring) :
  plain_section x -> ~ In 26053%N x /\ ~ In 34892%N x.
Proof.
  intros (_ & _ & H). split; intros Hin; apply H in Hin; discriminate.
Qed.

Section SeparatedText.
Variables A B C : jsstring.
Hypothesis plain_A : plain_section A.
Hypothesis plain_B : plain_section B.
Hypothesis plain_C : plain_section C.


Lemma rendered_text :
  render_sections (A, B, C)
  = js "旅行推荐" ++ js ":" ++ A ++ rendered_after_title B C.
Proof.
  unfold render_sections, rendered_after_title, rendered_after_plan.
  change (js "旅行推荐:") with (js "旅行推荐" ++ js ":").
  change (js "行程规划:") with (js "行程规划" ++ js ":").
  change (js "旅行红黑榜:") with (js "旅行红黑榜" ++ js ":").
  now rewrite <- !app_assoc.
Qed.

Lemma rendered_title : extract_section titleRegex (render_sections (A, B, C)) = A.
Proof.
  destruct plain_A as (HsA & HeA & _).
  destruct (plain_no_initial A plain_A) as [_ HnA].
  rewrite rendered_text.
  destruct (exec_from_hit titleRegex 0
              (js "旅行推荐" ++ js ":" ++ A ++ rendered_after_title B C)
              (rendered_after_title B C) [(1, A)]) as (m & Hm & Hg).
  { unfold titleRegex. apply section_match; [exact HsA | |].
    - intros q' q c0 Hq Hne.
      exact (lookahead_inside 34892 (js "程规划") A q' q
               (rendered_after_title B C) c0 HeA HnA Hq Hne).
    - unfold rendered_after_title. apply lookahead_at_end. reflexivity. }
  exact (extract_section_group titleRegex _ A m Hm Hg HsA HeA).
Qed.

Lemma rendered_plan : extract_section planRegex (render_sections (A, B, C)) = B.
Proof.
  destruct plain_B as (HsB & HeB & _).
  destruct (plain_no_initial A plain_A) as [_ HnA].
  destruct (plain_no_initial B plain_B) as [HnB _].
  rewrite rendered_text.
  assert (Hexec : exists m,
    exec planRegex (js "旅行推荐" ++ js ":" ++ A ++ rendered_after_title B C)
    = Some m /\ m_groups m = [(1, B)]).
  { unfold exec, planRegex. cbn [seq].
    change (js "旅行推荐" ++ js ":" ++ A ++ rendered_after_title B C)
      with (26053 :: 34892 :: 25512 :: 33616 :: 58
            :: A ++ rendered_after_title B C)%N.
    rewrite !exec_from_miss by reflexivity.
    change (lit (js "行程规划")) with (lit (34892%N :: js "程规划")).
    rewrite exec_from_skip by exact HnA.
    unfold rendered_after_title.
    change (LF ++ js "行程规划" ++ js ":" ++ B ++ rendered_after_plan C)
      with (10%N :: js "行程规划" ++ js ":" ++ B ++ rendered_after_plan C).
    rewrite exec_from_miss by reflexivity.
    apply (exec_from_hit _ _ _ (rendered_after_plan C)).
    apply (section_match (js "行程规划")); [exact HsB | |].
    - intros q' q c0 Hq Hne.
      exact (lookahead_inside 26053 (js "行红黑榜") B q' q
               (rendered_after_plan C) c0 HeB HnB Hq Hne).
    - unfold rendered_after_plan. apply lookahead_at_end. reflexivity. }
  destruct Hexec as (m & Hm & Hg).
  exact (extract_section_group planRegex _ B m Hm Hg HsB HeB).
Qed.

Lemma rendered_highlights :
  extract_section highlightsRegex (render_sections (A, B, C)) = C.
Proof.
  destruct plain_C as (HsC & HeC & _).
  destruct (plain_no_initial A plain_A) as [HnA _].
  destruct (plain_no_initial B plain_B) as [HnB _].
  rewrite rendered_text.
  assert (Hexec : exists m,
    exec highlightsRegex
      (js "旅行推荐" ++ js ":" ++ A ++ rendered_after_title B C) = Some m
    /\ m_groups m = [(1, C)]).
  { unfold exec, highlightsRegex. cbn [seq].
    change (js "旅行推荐" ++ js ":" ++ A ++ rendered_after_title B C)
      with (26053 :: 34892 :: 25512 :: 33616 :: 58
            :: A ++ rendered_after_title B C)%N.
    rewrite !exec_from_miss by reflexivity.
    change (lit (js "旅行红黑榜")) with (lit (26053%N :: js "行红黑榜")).
    rewrite exec_from_skip by exact HnA.
    unfold rendered_after_title.
    change (LF ++ js "行程规划" ++ js ":" ++ B ++ rendered_after_plan C)
      with (10 :: 34892 :: 31243 :: 35268 :: 21010 :: 58
            :: B ++ rendered_after_plan C)%N.
    change (lit (26053%N :: js "行红黑榜")) with (lit (js "旅行红黑榜")).
    rewrite !exec_from_miss by reflexivity.
    change (lit (js "旅行红黑榜")) with (lit (26053%N :: js "行红黑榜")).
    rewrite exec_from_skip by exact HnB.
    unfold rendered_after_plan. replace (LF ++ js "旅行红黑榜" ++ js ":" ++ C)
      with (10%N :: js "旅行红黑榜" ++ js ":" ++ C ++ [])
      by (now rewrite app_nil_r).
    change (lit (26053%N :: js "行红黑榜")) with (lit (js "旅行红黑榜")).
    rewrite exec_from_miss by reflexivity.
    apply (exec_from_hit _ _ _ []).
    apply (section_match (js "旅行红黑榜")); [exact HsC | | reflexivity].
    intros q' q c0 Hq Hne. destruct q; [now elim Hne | reflexivity]. }
  destruct Hexec as (m & Hm & Hg).
  exact (extract_section_group highlightsRegex _ C m Hm Hg HsC HeC).
Qed.

Lemma rendered_sections :
  split_sections (render_sections (A, B, C)) = (A, B, C).
Proof.
  unfold split_sections, anchored_sections.
  rewrite rendered_title, rendered_plan, rendered_highlights.
  destruct plain_A as (HsA & _). destruct A; [discriminate | reflexivity].
Qed.

End SeparatedText.

(* ================================================================== *)
(** * Paragraphs *)
(* ================================================================== *)



(** Inside a paragraph the separator does not match; at a blank line before
    a paragraph it matches the two line feeds and no more. *)
Lemma separator_miss (c : N) (s : jsstring) :
  c <> 10%N -> match_here paragraphRegex (c :: s) = None.
Proof.
  intros Hc. unfold match_here, paragraphRegex. cbn [seq rx chr].
  destruct (N.eqb_spec 10 c) as [E|_]; [symmetry in E; contradiction|].
  reflexivity.
Qed.


Lemma split_loop_walk (p s cur : jsstring) (fuel : nat) :
  ~ In 10%N p ->
  split_loop paragraphRegex (length p + fuel) cur (p ++ s)
  = split_loop paragraphRegex fuel (rev p ++ cur) s.
Proof.
  revert cur; induction p as [|c p IH]; intros cur Hno; [reflexivity|].
  simpl length. simpl app. cbn [Nat.add split_loop].
  rewrite separator_miss by (intros ->; apply Hno; now left).
  rewrite IH by (intros Hin; apply Hno; now right).
  now rewrite <- app_assoc.
Qed.





(* ================================================================== *)
(** * The claims about parseCozeResponseToItinerary *)
(* ================================================================== *)

(** What the route computes from a range: the part after the hyphen alone
    decides; the part before it is parsed and dropped. *)
Lemma split_acc_plain (c : N) (cur s : jsstring) :
  ~ In c s -> split_acc c cur s = [rev cur ++ s].
Proof.
  revert cur; induction s as [|x s IH]; intros cur Hn; simpl.
  - now rewrite app_nil_r.
  - destruct (N.eqb_spec x c) as [->|Hx].
    + exfalso. apply Hn. now left.
    + rewrite IH by (intros Hin; apply Hn; now right).
      simpl. now rewrite <- app_assoc.
Qed.

Lemma split_acc_at (c : N) (cur a b : jsstring) :
  ~ In c a ->
  split_acc c cur (a ++ c :: b) = (rev cur ++ a) :: split_acc c [] b.
Proof.
  revert cur; induction a as [|x a IH]; intros cur Hn; simpl.
  - rewrite N.eqb_refl. now rewrite app_nil_r.
  - destruct (N.eqb_spec x c) as [->|Hx].
    + exfalso. apply Hn. now left.
    + rewrite IH by (intros Hin; apply Hn; now right).
      simpl. now rewrite <- app_assoc.
Qed.

Lemma includes_char (c : N) (a b : jsstring) :
  includes [c] (a ++ c :: b) = true.
Proof.
  apply (includes_suffix [c] (c :: b)).
  - now exists a.
  - simpl. now rewrite N.eqb_refl.
Qed.

Lemma days_of_range (a b : jsstring) (bud : option jsstring) :
  ~ In 45%N a -> ~ In 45%N b ->
  parse_days (request (a ++ js "-" ++ b) bud) = or_3 (parseInt b).
Proof.
  intros Ha Hb. unfold parse_days. cbn [days request].
  change (js "-") with [45%N]. cbn [app].
  rewrite includes_char. unfold split_char.
  rewrite (split_acc_at 45%N [] a b Ha), (split_acc_plain 45%N [] b Hb).
  reflexivity.
Qed.

(** C1 (the route departs from the specification).  On the day count
    ["7-5"] the route computes 5, the integer after the hyphen, whereas the
    specification (and the comment in the route) asks for the maximum of
    the two integers, 7.  The day count of the itinerary is that value
    whatever the text. *)
Theorem days_range_takes_part_after_hyphen :
  parse_days (request (js "7-5") None) = 5%Z
  /\ parse_days (request (js "7-5") None) <> Z.max 7 5
  /\ forall cozeText,
       it_days (parseCozeResponseToItinerary cozeText (request (js "7-5") None))
       = 5%Z.
Proof.
  split; [vm_compute; reflexivity|].
  split; [vm_compute; discriminate|].
  intros cozeText. unfold parseCozeResponseToItinerary.
  destruct (split_sections cozeText) as [[title plan] highlights].
  reflexivity.
Qed.

(** C9 (the route departs from the specification).  The form sends the
    budget ["不限"] when the budget is unlimited; it is not numeric, and the
    specification asks for ["预算不限"], but the route interpolates it,
    whatever the text and the day count. *)
Theorem budget_unlimited_word_is_interpolated :
  budget_text (request (js "3") (Some (js "不限"))) = js "预算约不限元人民币"
  /\ budget_text (request (js "3") (Some (js "不限"))) <> js "预算不限"
  /\ forall cozeText d,
       it_budget (parseCozeResponseToItinerary cozeText
                    (request d (Some (js "不限"))))
       = js "预算约不限元人民币".
Proof.
  split; [vm_compute; reflexivity|].
  split; [vm_compute; discriminate|].
  intros cozeText d. unfold parseCozeResponseToItinerary.
  destruct (split_sections cozeText) as [[title plan] highlights].
  reflexivity.
Qed.

(** What the route does with the budget: any budget that is present and not
    empty is interpolated, numeric or not. *)
Lemma budget_text_cases (params : TravelParams) :
  match budget params with
  | Some (c :: b) => budget_text params = js "预算约" ++ (c :: b) ++ js "元人民币"
  | Some [] | None => budget_text params = js "预算不限"
  end.
Proof.
  unfold budget_text. destruct (budget params) as [[|c b]|]; reflexivity.
Qed.

(** C2, as stated, fails: in ["旅行推荐:A"] the first header occurs and the
    other two do not, yet the title is not ["A"]: the cascade is applied
    and gives the placeholders. *)
Lemma partial_anchor_counterexample :
  let text := js "旅行推荐:A" in
  has_anchor (js "旅行推荐") text = true
  /\ has_anchor (js "行程规划") text = false
  /\ has_anchor (js "旅行红黑榜") text = false
  /\ split_sections text = fallback_sections text
  /\ split_sections text = (js "你的旅行计划", text, js "根据AI生成")
  /\ split_sections text <> (js "A", [], []).
Proof.
  vm_compute. repeat split; try reflexivity. discriminate.
Qed.

(** C2, amended.  The cascade is applied exactly when the three anchored
    extractions are all empty; otherwise the sections are the anchored
    extractions, those that found nothing being empty.  Without any header
    all three are empty.  The title is only extracted when its header and
    the header of the plan both occur, the plan when its header and the
    header of the highlights both occur, the highlights when their header
    occurs. *)
Theorem cascade_when_sections_empty (text : jsstring) :
  (anchored_sections text <> ([], [], []) ->
     split_sections text = anchored_sections text)
  /\ (anchored_sections text = ([], [], []) ->
     split_sections text = fallback_sections text)
  /\ (no_anchor text -> anchored_sections text = ([], [], []))
  /\ (extract_section titleRegex text <> [] ->
      has_anchor (js "旅行推荐") text = true
      /\ has_anchor (js "行程规划") text = true)
  /\ (extract_section planRegex text <> [] ->
      has_anchor (js "行程规划") text = true
      /\ has_anchor (js "旅行红黑榜") text = true)
  /\ (extract_section highlightsRegex text <> [] ->
      has_anchor (js "旅行红黑榜") text = true).
Proof.
  pose proof (split_sections_cases text) as Hc.
  destruct (anchored_sections text) as [[title plan] highlights] eqn:E.
  destruct Hc as [Hall Hsome].
  split; [|split; [|split; [|split; [|split]]]].
  - intros H. apply Hsome. intros (-> & -> & ->). now apply H.
  - intros H. injection H as -> -> ->. now apply Hall.
  - intros H. rewrite <- E. now apply no_anchor_sections.
  - intros H. split.
    + exact (extract_section_header _ _ text H).
    + exact (next_header_needed _ _ text H).
  - intros H. split.
    + exact (extract_section_header _ _ text H).
    + exact (next_header_needed _ _ text H).
  - intros H. exact (extract_section_header _ _ text H).
Qed.

Lemma cascade_when_sections_empty_witness :
  let text := js "旅行红黑榜:C" in
  anchored_sections text <> ([], [], [])
  /\ split_sections text = ([], [], js "C").
Proof.
  split; [vm_compute; discriminate|].
  refine (eq_trans (proj1 (cascade_when_sections_empty (js "旅行红黑榜:C")) _) _).
  - vm_compute. discriminate.
  - vm_compute. reflexivity.
Defined.

(* ================================================================== *)
(** * The claims about the split of a text *)
(* ================================================================== *)

(** C7.  A text in the separated format, with its three plain sections [A],
    [B] and [C] under their headers, is split into exactly [A], [B] and
    [C]; writing these out in the separated format and splitting again
    gives the same sections. *)
Theorem separated_text_sections (A B C : jsstring) :
  plain_section A -> plain_section B -> plain_section C ->
  split_sections
    (js "旅行推荐:" ++ A ++ LF ++ js "行程规划:" ++ B ++ LF
     ++ js "旅行红黑榜:" ++ C) = (A, B, C)
  /\ split_sections (render_sections (split_sections (render_sections (A, B, C))))
     = split_sections (render_sections (A, B, C)).
Proof.
  intros HA HB HC.
  pose proof (rendered_sections A B C HA HB HC) as H.
  split; [exact H | now rewrite H].
Qed.

Lemma separated_text_sections_witness :
  plain_section (js "A") /\ plain_section (js "B") /\ plain_section (js "C")
  /\ split_sections
       (js "旅行推荐:A" ++ LF ++ js "行程规划:B" ++ LF ++ js "旅行红黑榜:C")
     = (js "A", js "B", js "C").
Proof.
  assert (HA : plain_section (js "A")).
  { repeat split; intros c [<-|[]]; reflexivity. }
  assert (HB : plain_section (js "B")).
  { repeat split; intros c [<-|[]]; reflexivity. }
  assert (HC : plain_section (js "C")).
  { repeat split; intros c [<-|[]]; reflexivity. }
  repeat (split; [assumption|]).
  exact (proj1 (separated_text_sections (js "A") (js "B") (js "C") HA HB HC)).
Defined.




(* ================================================================== *)
(** * Facts about the interpretation of one event *)
(* ================================================================== *)

Ltac break_match :=
  match goal with
  | |- context [match ?x with _ => _ end] =>
      first [is_var x; destruct x | let E := fresh "E" in destruct x eqn:E]
  end.

Section EventFacts.
Context {host : HostRuntime}.

Lemma converts_throw (v : jsval) (e : error) :
  converts v = Throw e -> is_syntax_error e = false.
Proof.
  unfold converts. destruct (ToString_val v); [discriminate|].
  intros H. injection H as <-. reflexivity.
Qed.

(** What the block of the second delta can change: [completeResponse] and
    [isFinished], the latter only to [true]. *)
Lemma second_delta_effect (d : jsstring) (obj : json) (st st' : StreamState) :
  second_delta d obj st = Ok st' ->
  buffer st' = buffer st
  /\ accumulatedResponse st' = accumulatedResponse st
  /\ deltaCount st' = deltaCount st
  /\ (isFinished st = true -> isFinished st' = true).
Proof.
  unfold second_delta.
  destruct (match exec travelPattern d with
            | Some m => if truthy_str (m_all m) then Some (m_all m) else None
            | None => None
            end) as [text|].
  - intros H. injection H as <-. simpl. auto.
  - destruct (truthy (extractedContent d obj)).
    + destruct (converts _); simpl; [|discriminate].
      intros H. injection H as <-. simpl. auto.
    + intros H. injection H as <-. auto.
Qed.

Lemma second_delta_throw (d : jsstring) (obj : json) (st : StreamState) (e : error) :
  second_delta d obj st = Throw e -> is_syntax_error e = false.
Proof.
  unfold second_delta.
  destruct (match exec travelPattern d with
            | Some m => if truthy_str (m_all m) then Some (m_all m) else None
            | None => None
            end) as [text|]; [discriminate|].
  destruct (truthy (extractedContent d obj)); [|discriminate].
  destruct (converts _) eqn:E; simpl; [discriminate|].
  intros H. injection H as <-. exact (converts_throw _ _ E).
Qed.

(** The fast path runs the block of the second delta exactly when the event
    is an answer delta and the counter stands at 1; otherwise it changes
    nothing but the counter. *)
Lemma fast_path_cases (t d : jsstring) (obj : json) (st : StreamState) :
  fast_path t d obj st =
  if is_answer_delta t obj then
    if deltaCount st =? 1 then second_delta d obj (count_delta st)
    else Ok (count_delta st)
  else Ok st.
Proof.
  unfold fast_path. destruct (is_answer_delta t obj); [|reflexivity].
  cbn [count_delta deltaCount]. change (S (deltaCount st) =? 2)
    with (deltaCount st =? 1). reflexivity.
Qed.

Lemma fast_path_effect (t d : jsstring) (obj : json) (st st' : StreamState) :
  fast_path t d obj st = Ok st' ->
  buffer st' = buffer st
  /\ accumulatedResponse st' = accumulatedResponse st
  /\ deltaCount st' = deltaCount st + (if is_answer_delta t obj then 1 else 0)
  /\ (isFinished st = true -> isFinished st' = true)
  /\ (deltaCount st <> 1 ->
      completeResponse st' = completeResponse st
      /\ isFinished st' = isFinished st).
Proof.
  rewrite fast_path_cases. destruct (is_answer_delta t obj).
  - destruct (deltaCount st =? 1) eqn:E.
    + intros H. apply second_delta_effect in H as (Hb & Ha & Hd & Hf).
      cbn in *. apply Nat.eqb_eq in E.
      repeat split; try assumption; try lia.
    + intros H. injection H as <-. cbn. repeat split; auto; lia.
  - intros H. injection H as <-. repeat split; auto; lia.
Qed.

Lemma fast_path_throw (t d : jsstring) (obj : json) (st : StreamState) (e : error) :
  fast_path t d obj st = Throw e -> is_syntax_error e = false.
Proof.
  rewrite fast_path_cases.
  destruct (is_answer_delta t obj); [|discriminate].
  destruct (deltaCount st =? 1); [|discriminate].
  apply second_delta_throw.
Qed.

(** The general handling never touches [completeResponse], the counter or
    the buffer. *)
Lemma regular_path_effect (t : jsstring) (obj : json) (st st' : StreamState) :
  regular_path t obj st = Ok st' ->
  buffer st' = buffer st
  /\ completeResponse st' = completeResponse st
  /\ deltaCount st' = deltaCount st
  /\ (isFinished st = true -> isFinished st' = true).
Proof.
  unfold regular_path.
  repeat (break_match; try discriminate);
    try (destruct (converts _); simpl; try discriminate);
    intros H; injection H as <-; simpl; auto.
Qed.

Lemma regular_path_throw (t : jsstring) (obj : json) (st : StreamState) (e : error) :
  regular_path t obj st = Throw e -> is_syntax_error e = false.
Proof.
  unfold regular_path.
  repeat (break_match; try discriminate);
    try (destruct (converts _) eqn:Ec; simpl; try discriminate);
    intros H; injection H as <-; try reflexivity;
    exact (converts_throw _ _ Ec).
Qed.

End EventFacts.

Section RunFacts.
Context {host : HostRuntime}.

Lemma interpret_parsed (t d : jsstring) (obj : json) (st : StreamState) :
  JSON_parse d = Some obj -> obj <> JNull ->
  interpret t d st =
    (converts (or_val (get obj (js "type")) (Some (JStr (js "未知")))) ;;;
     st1 <- fast_path t d obj st ;;
     regular_path t obj st1).
Proof.
  intros Hp Hn. unfold interpret. rewrite Hp.
  destruct obj; try reflexivity. now elim Hn.
Qed.

Lemma interpret_unparsed (t d : jsstring) (st : StreamState) :
  JSON_parse d = None -> interpret t d st = Throw SyntaxError.
Proof. intros H. unfold interpret. now rewrite H. Qed.

(** Only [JSON.parse] throws a syntax error. *)
Lemma interpret_syntax_error (t d : jsstring) (st : StreamState) (e : error) :
  interpret t d st = Throw e -> is_syntax_error e = true ->
  JSON_parse d = None.
Proof.
  destruct (JSON_parse d) as [obj|] eqn:Hp; [|reflexivity].
  intros H He. exfalso.
  assert (Hf : is_syntax_error e = false); [|congruence].
  destruct (json_is_null obj) eqn:Hn.
  - destruct obj; try discriminate.
    unfold interpret in H. rewrite Hp in H. injection H as <-. reflexivity.
  - rewrite (interpret_parsed t d obj st Hp) in H
      by (intros ->; discriminate).
    destruct (converts _) eqn:Ec; simpl in H;
      [|injection H as <-; exact (converts_throw _ _ Ec)].
    destruct (fast_path t d obj st) eqn:Ef; simpl in H.
    + exact (regular_path_throw _ _ _ _ H).
    + injection H as <-. exact (fast_path_throw _ _ _ _ _ Ef).
Qed.

(** The effect of one event on the variables. *)
Lemma handle_event_effect (t d : jsstring) (st st' : StreamState) :
  handle_event t d st = Ok st' ->
  buffer st' = buffer st
  /\ deltaCount st' =
       deltaCount st + (if counts_as_delta (Event t d) then 1 else 0)
  /\ (isFinished st = true -> isFinished st' = true)
  /\ (deltaCount st <> 1 -> completeResponse st' = completeResponse st)
  /\ (counts_as_delta (Event t d) = false ->
      completeResponse st' = completeResponse st).
Proof.
  unfold handle_event. destruct (interpret t d st) as [st1|e] eqn:E.
  - intros H. injection H as <-.
    destruct (JSON_parse d) as [obj|] eqn:Hp;
      [|rewrite (interpret_unparsed t d st Hp) in E; discriminate].
    destruct (json_is_null obj) eqn:Hn.
    { destruct obj; try discriminate.
      unfold interpret in E. rewrite Hp in E. discriminate. }
    rewrite (interpret_parsed t d obj st Hp) in E by (intros ->; discriminate).
    destruct (converts _); simpl in E; [|discriminate].
    destruct (fast_path t d obj st) as [st2|] eqn:Ef; simpl in E; [|discriminate].
    pose proof Ef as Ef0.
    apply fast_path_effect in Ef as (Hb & _ & Hd & Hf & Hc).
    apply regular_path_effect in E as (Hb' & Hc' & Hd' & Hf').
    cbn [counts_as_delta]. rewrite Hp.
    repeat split.
    + congruence.
    + congruence.
    + auto.
    + intros Hne. destruct (Hc Hne) as [Hc1 _]. congruence.
    + intros Hno. rewrite fast_path_cases, Hno in Ef0.
      injection Ef0 as <-. exact Hc'.
  - destruct (is_syntax_error e) eqn:He; [|discriminate].
    intros H. injection H as <-.
    cbn [counts_as_delta]. rewrite (interpret_syntax_error t d st e E He).
    repeat split; auto.
Qed.

Lemma act_effect (a : action) (st st' : StreamState) :
  act a st = Ok st' ->
  deltaCount st' = deltaCount st + (if counts_as_delta a then 1 else 0)
  /\ (isFinished st = true -> isFinished st' = true)
  /\ (deltaCount st <> 1 -> completeResponse st' = completeResponse st)
  /\ (counts_as_delta a = false -> completeResponse st' = completeResponse st).
Proof.
  destruct a as [b|t d]; simpl.
  - intros H. injection H as <-. simpl. repeat split; auto.
  - intros H. apply handle_event_effect in H as (_ & H). exact H.
Qed.

Lemma run_app (a b : list action) (st : StreamState) :
  run (a ++ b) st = (st' <- run a st ;; run b st').
Proof.
  revert st; induction a as [|x a IH]; intros st; simpl; [reflexivity|].
  destruct (act x st); simpl; [apply IH | reflexivity].
Qed.

Lemma answer_deltas_cons (a : action) (acts : list action) :
  answer_deltas (a :: acts) =
  (if counts_as_delta a then 1 else 0) + answer_deltas acts.
Proof.
  unfold answer_deltas. simpl. destruct (counts_as_delta a); reflexivity.
Qed.

(** The counter counts the answer deltas that were interpreted. *)
Lemma run_deltaCount (acts : list action) (st st' : StreamState) :
  run acts st = Ok st' ->
  deltaCount st' = deltaCount st + answer_deltas acts.
Proof.
  revert st; induction acts as [|a acts IH]; intros st; simpl.
  - intros H. injection H as <-. unfold answer_deltas. simpl. lia.
  - destruct (act a st) as [st1|] eqn:E; simpl; [|discriminate].
    intros H. apply IH in H. apply act_effect in E as (Hd & _).
    rewrite answer_deltas_cons. lia.
Qed.

Lemma run_finished (acts : list action) (st st' : StreamState) :
  run acts st = Ok st' -> isFinished st = true -> isFinished st' = true.
Proof.
  revert st; induction acts as [|a acts IH]; intros st; simpl.
  - intros H. injection H as <-. auto.
  - destruct (act a st) as [st1|] eqn:E; simpl; [|discriminate].
    intros H Hf. apply (IH st1 H). apply act_effect in E as (_ & Hm & _). auto.
Qed.

(** Once the counter has passed 1, [completeResponse] stays as it is. *)
Lemma run_complete_stable (acts : list action) (st st' : StreamState) :
  run acts st = Ok st' -> 2 <= deltaCount st ->
  completeResponse st' = completeResponse st.
Proof.
  revert st; induction acts as [|a acts IH]; intros st; simpl.
  - intros H. injection H as <-. auto.
  - destruct (act a st) as [st1|] eqn:E; simpl; [|discriminate].
    intros H Hd. apply act_effect in E as (Hd1 & _ & Hc & _).
    rewrite (IH st1 H) by lia. apply Hc. lia.
Qed.

Lemma act_unset_before_second (a : action) (st st' : StreamState) :
  act a st = Ok st' -> unset_before_second st -> unset_before_second st'.
Proof.
  intros E. apply act_effect in E as (Hd & _ & Hc & Hn).
  intros [H|H].
  - destruct (counts_as_delta a) eqn:Ea.
    + destruct (Nat.eq_dec (deltaCount st) 1) as [H1|H1].
      * right. lia.
      * left. rewrite Hc; assumption.
    + left. rewrite Hn; auto.
  - right. lia.
Qed.

Lemma run_unset_before_second (acts : list action) (st st' : StreamState) :
  run acts st = Ok st' -> unset_before_second st -> unset_before_second st'.
Proof.
  revert st; induction acts as [|a acts IH]; intros st; simpl.
  - intros H. injection H as <-. auto.
  - destruct (act a st) as [st1|] eqn:E; simpl; [|discriminate].
    intros H Hi. apply (IH st1 H). exact (act_unset_before_second a st st1 E Hi).
Qed.

End RunFacts.

(* ================================================================== *)
(** * Facts about the loops *)
(* ================================================================== *)

Lemma indexOf_split (p s : jsstring) (i : nat) :
  indexOf p s = Some i ->
  s = firstn i s ++ p ++ skipn (i + length p) s.
Proof.
  revert i; induction s as [|c s IH]; intros i; simpl.
  - destruct (startsWith p []) eqn:E; [|discriminate].
    intros H. injection H as <-. simpl.
    apply startsWith_prefix in E as [t Ht].
    destruct p; [reflexivity | discriminate].
  - destruct (startsWith p (c :: s)) eqn:E.
    + intros H. injection H as <-. simpl.
      apply startsWith_prefix in E as [t Ht]. rewrite Ht.
      rewrite skipn_app, Nat.sub_diag, skipn_all. reflexivity.
    + destruct (indexOf p s) as [j|]; simpl; [|discriminate].
      intros H. injection H as <-. simpl. f_equal. now apply IH.
Qed.

Lemma first_block_split (b chunk rest : jsstring) :
  first_block b = Some (chunk, rest) -> b = chunk ++ LF ++ LF ++ rest.
Proof.
  unfold first_block. destruct (indexOf (LF ++ LF) b) as [i|] eqn:E; [|discriminate].
  intros H. injection H as <- <-. unfold substring, substring_from.
  rewrite Nat.sub_0_r. simpl skipn at 1.
  apply indexOf_split in E. exact E.
Qed.

Lemma first_block_shorter (b chunk rest : jsstring) :
  first_block b = Some (chunk, rest) -> S (length rest) <= length b.
Proof.
  intros H. apply first_block_split in H. rewrite H.
  rewrite !length_app. simpl. lia.
Qed.

Section LoopFacts.
Context {host : HostRuntime}.

Lemma handle_block_as_run (chunk rest : jsstring) (st : StreamState) :
  handle_block chunk (set_buffer rest st) = run (block_actions chunk rest) st.
Proof.
  unfold handle_block, block_actions. cbn [run act bind].
  destruct (is_empty (trim chunk)); [reflexivity|].
  destruct (parse_block chunk) as [t d].
  destruct (truthy_str d); [|reflexivity].
  cbn [run act]. destruct (handle_event t d _); reflexivity.
Qed.

Lemma run_buffer_of_block (chunk rest : jsstring) (st st' : StreamState) :
  run (block_actions chunk rest) st = Ok st' -> buffer st' = rest.
Proof.
  unfold block_actions. cbn [run act bind].
  destruct (is_empty (trim chunk)).
  - intros H. injection H as <-. reflexivity.
  - destruct (parse_block chunk) as [t d].
    destruct (truthy_str d).
    + cbn [run act]. destruct (handle_event t d _) as [st1|] eqn:E; simpl;
        [|discriminate].
      intros H. injection H as <-.
      apply handle_event_effect in E as (Hb & _). exact Hb.
    + intros H. injection H as <-. reflexivity.
Qed.

Lemma handle_block_buffer (chunk rest : jsstring) (st st' : StreamState) :
  handle_block chunk (set_buffer rest st) = Ok st' -> buffer st' = rest.
Proof. rewrite handle_block_as_run. apply run_buffer_of_block. Qed.

(** The inner loop is the run of the actions of its buffer. *)
Lemma drain_loop_as_run (fuel : nat) (st : StreamState) :
  drain_loop fuel st = run (buffer_actions fuel (buffer st)) st.
Proof.
  revert st; induction fuel as [|fuel IH]; intros st;
    cbn [drain_loop buffer_actions].
  - destruct (first_block (buffer st)) as [[chunk rest]|]; reflexivity.
  - destruct (first_block (buffer st)) as [[chunk rest]|]; [|reflexivity].
    rewrite run_app, <- handle_block_as_run.
    destruct (handle_block chunk (set_buffer rest st)) as [st1|] eqn:E; simpl;
      [|reflexivity].
    rewrite IH. now rewrite (handle_block_buffer _ _ _ _ E).
Qed.

(** The fuel of the inner loop is never exhausted. *)
Lemma drain_loop_enough (f1 f2 : nat) (st : StreamState) :
  length (buffer st) <= f1 -> length (buffer st) <= f2 ->
  drain_loop f1 st = drain_loop f2 st.
Proof.
  revert f2 st; induction f1 as [|f1 IH]; intros f2 st H1 H2.
  - destruct f2; simpl;
      destruct (first_block (buffer st)) as [[chunk rest]|] eqn:E;
      try reflexivity.
    apply first_block_shorter in E. lia.
  - simpl. destruct (first_block (buffer st)) as [[chunk rest]|] eqn:E.
    + pose proof (first_block_shorter _ _ _ E) as Hlen.
      destruct f2 as [|f2]; [lia|]. simpl. rewrite E.
      destruct (handle_block chunk (set_buffer rest st)) as [st1|] eqn:Eh; simpl;
        [|reflexivity].
      apply handle_block_buffer in Eh.
      apply IH; rewrite Eh; lia.
    + destruct f2; simpl; rewrite E; reflexivity.
Qed.

(** One turn of the inner loop, whatever [isFinished] is. *)
Lemma drain_unfold (st : StreamState) :
  drain st =
  match first_block (buffer st) with
  | None => Ok st
  | Some (chunk, rest) =>
      st' <- handle_block chunk (set_buffer rest st) ;; drain st'
  end.
Proof.
  unfold drain. destruct (first_block (buffer st)) as [[chunk rest]|] eqn:E.
  - pose proof (first_block_shorter _ _ _ E) as Hlen.
    destruct (length (buffer st)) as [|n] eqn:En; [lia|].
    simpl. rewrite E.
    destruct (handle_block chunk (set_buffer rest st)) as [st1|] eqn:Eh; simpl;
      [|reflexivity].
    pose proof (handle_block_buffer _ _ _ _ Eh) as Hb.
    apply drain_loop_enough; rewrite Hb; lia.
  - destruct (length (buffer st)); simpl; rewrite E; reflexivity.
Qed.

Lemma drain_as_run (st : StreamState) :
  drain st = run (buffer_actions (length (buffer st)) (buffer st)) st.
Proof. apply drain_loop_as_run. Qed.

Lemma read_loop_finished (reads : list jsstring) (st : StreamState) :
  isFinished st = true -> read_loop reads st = Ok st.
Proof. intros H. destruct reads; simpl; rewrite H; reflexivity. Qed.

(** The outer loop is a run as well. *)
Lemma read_loop_as_run (reads : list jsstring) (st : StreamState) :
  exists acts, read_loop reads st = run acts st.
Proof.
  revert st; induction reads as [|newText reads IH]; intros st; simpl.
  - exists []. destruct (isFinished st); reflexivity.
  - destruct (isFinished st); [now exists []|].
    rewrite drain_as_run. cbn [buffer set_buffer].
    set (b := buffer st ++ newText).
    destruct (run (buffer_actions (length b) b) (set_buffer b st)) as [st1|e] eqn:E.
    + destruct (IH st1) as [acts Hacts].
      exists (SetBuffer b :: buffer_actions (length b) b ++ acts).
      cbn [run act bind]. rewrite run_app, E. simpl. exact Hacts.
    + exists (SetBuffer b :: buffer_actions (length b) b).
      cbn [run act bind]. rewrite E. reflexivity.
Qed.

Lemma read_loop_app (r1 r2 : list jsstring) (st : StreamState) :
  read_loop (r1 ++ r2) st = (st' <- read_loop r1 st ;; read_loop r2 st').
Proof.
  revert st; induction r1 as [|x r1 IH]; intros st; simpl.
  - destruct (isFinished st) eqn:E; simpl; [|reflexivity].
    now rewrite read_loop_finished.
  - destruct (isFinished st) eqn:E; simpl.
    + now rewrite read_loop_finished.
    + destruct (drain _); simpl; [apply IH | reflexivity].
Qed.

(** From any read on, the route is [resume]: after the reads [reads0] have
    left the loop unfinished in [st0], the next text is appended to the
    buffer and the inner loop entered. *)
Lemma generate_resume (params : TravelParams) (reads0 : list jsstring)
    (st0 : StreamState) (newText : jsstring) (reads : list jsstring) :
  read_loop reads0 initial_state = Ok st0 ->
  isFinished st0 = false ->
  generateCozeItinerary params (reads0 ++ newText :: reads) =
  resume params (set_buffer (buffer st0 ++ newText) st0) reads.
Proof.
  intros Hrun Hfin. unfold generateCozeItinerary, resume.
  rewrite read_loop_app, Hrun. cbn [bind read_loop]. rewrite Hfin.
  destruct (drain (set_buffer (buffer st0 ++ newText) st0)); reflexivity.
Qed.

End LoopFacts.

(* ================================================================== *)
(** * The claims about the stream loop *)
(* ================================================================== *)

Section StreamClaims.
Context {host : HostRuntime}.

(** C3.  After any run of the loop from the start, the block of the fast
    path (the body of [if (deltaCount === 2)]) is run by the next event
    exactly when that event is an answer delta and exactly one answer delta
    was interpreted before it, that is, on the second answer delta.  Up to
    then [completeResponse] is still [''].  On the second answer delta the
    counter becomes 2 and the variables are set: when the raw data show the
    three headers, [completeResponse] is the unescaped match and
    [isFinished] is [true]; when they do not and some content is extracted,
    [completeResponse] is that content and [isFinished] is [true]; when
    nothing is extracted both stay as they are.  On any other event (not an
    answer delta, or the first, the third or a later one) the fast path
    leaves [completeResponse] and [isFinished] as they are. *)
Theorem fast_path_fires_on_second_delta_only :
  forall (acts : list action) (st : StreamState),
    run acts initial_state = Ok st ->
    forall (eventType eventData : jsstring) (dataObj : json),
      (is_answer_delta eventType dataObj = true /\ answer_deltas acts = 1 ->
         fast_path eventType eventData dataObj st
           = second_delta eventData dataObj (count_delta st)
         /\ completeResponse st = JStr []
         /\ (forall m, exec travelPattern eventData = Some m ->
               fast_path eventType eventData dataObj st
                 = Ok (complete_with (JStr (unescape (m_all m))) (count_delta st)))
         /\ (forall m, exec travelPattern eventData = Some m ->
               exists st', fast_path eventType eventData dataObj st = Ok st'
                 /\ completeResponse st' = JStr (unescape (m_all m))
                 /\ isFinished st' = true
                 /\ deltaCount st' = 2
                 /\ accumulatedResponse st' = accumulatedResponse st)
         /\ (exec travelPattern eventData = None ->
             forall st', fast_path eventType eventData dataObj st = Ok st' ->
               deltaCount st' = 2
               /\ accumulatedResponse st' = accumulatedResponse st
               /\ if truthy (extractedContent eventData dataObj)
                  then completeResponse st' = extractedContent eventData dataObj
                       /\ isFinished st' = true
                  else completeResponse st' = JStr []
                       /\ isFinished st' = isFinished st)
         /\ (exec travelPattern eventData = None ->
             truthy (extractedContent eventData dataObj) = true ->
             converts (get (extractedContent eventData dataObj) (js "length"))
               = Ok tt ->
             exists st', fast_path eventType eventData dataObj st = Ok st'
               /\ completeResponse st' = extractedContent eventData dataObj
               /\ isFinished st' = true))
      /\ (~ (is_answer_delta eventType dataObj = true /\ answer_deltas acts = 1) ->
         exists st', fast_path eventType eventData dataObj st = Ok st'
           /\ completeResponse st' = completeResponse st
           /\ isFinished st' = isFinished st).
Proof.
  intros acts st Hrun eventType eventData dataObj.
  pose proof (run_deltaCount acts _ _ Hrun) as Hcount. simpl in Hcount.
  assert (Hinv : unset_before_second st).
  { apply (run_unset_before_second acts initial_state st Hrun). now left. }
  rewrite fast_path_cases. split.
  - intros [Hd H1]. rewrite Hd.
    assert (Hone : deltaCount st = 1) by lia.
    assert (E : (deltaCount st =? 1) = true) by now apply Nat.eqb_eq.
    assert (Hunset : completeResponse st = JStr []).
    { destruct Hinv as [Hinv|Hinv]; [exact Hinv | lia]. }
    assert (Hfound : forall m, exec travelPattern eventData = Some m ->
              second_delta eventData dataObj (count_delta st)
              = Ok (complete_with (JStr (unescape (m_all m))) (count_delta st))).
    { intros m Hm. unfold second_delta. rewrite Hm.
      assert (Hne : truthy_str (m_all m) = true).
      { apply truthy_str_true. pose proof Hm as Hm'.
        unfold travelPattern in Hm'. cbn [seq] in Hm'.
        apply literal_match_not_empty in Hm'; [exact Hm' | discriminate]. }
      rewrite Hne. reflexivity. }
    rewrite E. split; [reflexivity|]. split; [exact Hunset|].
    split; [exact Hfound|]. split; [|split].
    + intros m Hm. rewrite (Hfound m Hm). eexists. split; [reflexivity|].
      cbn [complete_with count_delta completeResponse isFinished deltaCount
           accumulatedResponse].
      rewrite Hone. repeat split.
    + intros Hnone st'. unfold second_delta. rewrite Hnone.
      destruct (truthy (extractedContent eventData dataObj)).
      * destruct (converts _) as [[]|e]; cbn [bind]; [|discriminate].
        intros H. injection H as <-.
        cbn [complete_with count_delta completeResponse isFinished deltaCount
             accumulatedResponse].
        rewrite Hone. repeat split.
      * intros H. injection H as <-.
        cbn [count_delta completeResponse isFinished deltaCount
             accumulatedResponse].
        rewrite Hone. repeat split. exact Hunset.
    + intros Hnone Ht Hc. unfold second_delta. rewrite Hnone, Ht, Hc.
      cbn [bind]. eexists. split; [reflexivity|]. split; reflexivity.
  - intros Hnot. destruct (is_answer_delta eventType dataObj) eqn:Hd.
    + destruct (deltaCount st =? 1) eqn:E.
      * exfalso. apply Hnot. apply Nat.eqb_eq in E. split; [reflexivity | lia].
      * exists (count_delta st). repeat split.
    + exists st. repeat split.
Qed.

(** C6.  Once [completeResponse] has been set in a run from the start, no
    later event changes it: not in any further run of events, not in the
    rest of the inner loop over the frames already in the buffer, and not
    in the rest of the stream. *)
Theorem completeResponse_assigned_once :
  forall (acts : list action) (st : StreamState),
    run acts initial_state = Ok st ->
    completeResponse st <> JStr [] ->
    (forall acts' st', run acts' st = Ok st' ->
       completeResponse st' = completeResponse st)
    /\ (forall st', drain st = Ok st' ->
       completeResponse st' = completeResponse st)
    /\ (forall reads st', read_loop reads st = Ok st' ->
       completeResponse st' = completeResponse st).
Proof.
  intros acts st Hrun Hset.
  assert (Hd : 2 <= deltaCount st).
  { destruct (run_unset_before_second acts initial_state st Hrun) as [H|H];
      [now left | now elim Hset | exact H]. }
  split; [|split].
  - intros acts' st' H. exact (run_complete_stable acts' st st' H Hd).
  - intros st' H. rewrite drain_as_run in H.
    exact (run_complete_stable _ st st' H Hd).
  - intros reads st' H. destruct (read_loop_as_run reads st) as [acts' Ha].
    rewrite Ha in H. exact (run_complete_stable acts' st st' H Hd).
Qed.

Lemma handle_event_throw (t d : jsstring) (st : StreamState) (e : error) :
  interpret t d st = Throw e -> is_syntax_error e = false ->
  handle_event t d st = Throw e.
Proof. intros H He. unfold handle_event. now rewrite H, He. Qed.

Lemma handle_block_event (chunk t d : jsstring) (st : StreamState) :
  is_empty (trim chunk) = false -> parse_block chunk = (t, d) -> d <> [] ->
  handle_block chunk st = handle_event t d st.
Proof.
  intros Hc Hp Hd. unfold handle_block. rewrite Hc, Hp.
  apply truthy_str_true in Hd. now rewrite Hd.
Qed.

Lemma drain_throw_resume (params : TravelParams) (st : StreamState)
    (reads : list jsstring) (e : error) :
  drain st = Throw e -> resume params st reads = Throw e.
Proof. intros H. unfold resume. now rewrite H. Qed.

(** C4.  Let the next block of the buffer be a frame with data.  If the
    data are not valid JSON, the loop goes on with the rest of the buffer
    and with the variables as they were: the frame is skipped, and only
    such frames raise a syntax error.  Any other exception raised while the
    frame is interpreted ends the inner loop and the whole ingestion with
    that exception. *)
Theorem malformed_frame_skipped_other_errors_fatal :
  forall (st : StreamState) (chunk rest eventType eventData : jsstring),
    first_block (buffer st) = Some (chunk, rest) ->
    is_empty (trim chunk) = false ->
    parse_block chunk = (eventType, eventData) ->
    eventData <> [] ->
    (JSON_parse eventData = None ->
       handle_block chunk (set_buffer rest st) = Ok (set_buffer rest st)
       /\ drain st = drain (set_buffer rest st)
       /\ forall params reads,
            resume params st reads = resume params (set_buffer rest st) reads)
    /\ (forall e, interpret eventType eventData (set_buffer rest st) = Throw e ->
          (is_syntax_error e = true -> JSON_parse eventData = None)
          /\ (is_syntax_error e = false ->
              drain st = Throw e
              /\ forall params reads, resume params st reads = Throw e)).
Proof.
  intros st chunk rest t d Hfirst Hblank Hparse Hdata.
  pose proof (handle_block_event chunk t d (set_buffer rest st) Hblank Hparse Hdata)
    as Hblock.
  split.
  - intros Hbad.
    assert (Hskip : handle_block chunk (set_buffer rest st) = Ok (set_buffer rest st)).
    { rewrite Hblock. unfold handle_event.
      now rewrite (interpret_unparsed t d _ Hbad). }
    assert (Hdrain : drain st = drain (set_buffer rest st)).
    { rewrite (drain_unfold st), Hfirst, Hskip. reflexivity. }
    split; [exact Hskip|]. split; [exact Hdrain|].
    intros params reads. unfold resume. now rewrite Hdrain.
  - intros e He. split.
    + intros Hs. exact (interpret_syntax_error t d _ e He Hs).
    + intros Hs.
      assert (Hdrain : drain st = Throw e).
      { rewrite (drain_unfold st), Hfirst, Hblock.
        now rewrite (handle_event_throw t d _ e He Hs). }
      split; [exact Hdrain|].
      intros params reads. exact (drain_throw_resume params st reads e Hdrain).
Qed.

(** An error frame throws, whatever the variables hold. *)
Lemma error_frame_throws (chunk : jsstring) (st : StreamState) :
  error_frame chunk = true ->
  exists e, handle_block chunk st = Throw e.
Proof.
  unfold error_frame. rewrite !andb_true_iff.
  intros [[[Hblank Htype] Hdata] Hjson].
  apply negb_true_iff in Hblank.
  destruct (parse_block chunk) as [t d] eqn:Hp. simpl in *.
  apply str_eqb_eq in Htype. subst t.
  unfold handle_block. rewrite Hblank, Hp, Hdata.
  destruct (JSON_parse d) as [obj|] eqn:Hj; [|discriminate].
  unfold handle_event.
  destruct (json_is_null obj) eqn:Hn.
  - destruct obj; try discriminate. unfold interpret. rewrite Hj.
    exists TypeError. reflexivity.
  - rewrite (interpret_parsed (js "error") d obj st Hj)
      by (intros ->; discriminate).
    destruct (converts _) eqn:Ec; cbn [bind].
    + rewrite fast_path_cases.
      replace (is_answer_delta (js "error") obj) with false
        by (unfold is_answer_delta; reflexivity).
      cbn [bind]. exists (StreamError obj). reflexivity.
    + rewrite (converts_throw _ _ Ec). now exists e.
Qed.

Lemma drain_finished (st st' : StreamState) :
  drain st = Ok st' -> isFinished st = true -> isFinished st' = true.
Proof. rewrite drain_as_run. apply run_finished. Qed.

(** C10.  Let the next block of the buffer be interpreted without
    exception and leave [isFinished] set (by the fast path, a finish
    indicator or a done event).  The inner loop still goes on with the rest
    of the buffer; if it ends without exception no further text is read
    from the stream; and if the block after it is an error frame, the
    ingestion fails. *)
Theorem finished_stops_reads_not_buffered_frames :
  forall (st st1 : StreamState) (chunk rest : jsstring),
    first_block (buffer st) = Some (chunk, rest) ->
    handle_block chunk (set_buffer rest st) = Ok st1 ->
    isFinished st1 = true ->
    drain st = drain st1
    /\ (forall st2 reads, drain st1 = Ok st2 -> read_loop reads st2 = Ok st2)
    /\ (forall chunk2 rest2,
          first_block rest = Some (chunk2, rest2) ->
          error_frame chunk2 = true ->
          exists e, drain st = Throw e
            /\ forall params reads, resume params st reads = Throw e).
Proof.
  intros st st1 chunk rest Hfirst Hblock Hfin.
  assert (Hdrain : drain st = drain st1).
  { rewrite (drain_unfold st), Hfirst, Hblock. reflexivity. }
  split; [exact Hdrain|]. split.
  - intros st2 reads H. apply read_loop_finished.
    exact (drain_finished st1 st2 H Hfin).
  - intros chunk2 rest2 Hnext Herr.
    destruct (error_frame_throws chunk2 (set_buffer rest2 st1) Herr) as [e He].
    exists e.
    assert (Hthrow : drain st = Throw e).
    { rewrite Hdrain, (drain_unfold st1).
      rewrite (handle_block_buffer chunk rest st st1 Hblock), Hnext, He.
      reflexivity. }
    split; [exact Hthrow|].
    intros params reads. exact (drain_throw_resume params st reads e Hthrow).
Qed.

End StreamClaims.

(* ================================================================== *)
(** * The end of the stream *)
(* ================================================================== *)

Section RecoveryFacts.
Context {host : HostRuntime}.

(** From a string, the recovery only ever makes a string. *)
Lemma recover_from_object_text (s0 : jsstring) (obj : json) :
  exists s, recover_from_object (JStr s0) obj = JStr s.
Proof.
  unfold recover_from_object.
  destruct (first_text_field _ obj) as [x|].
  - destruct (negb (truthy (JStr x)) && typeof_object (Some obj)).
    + destruct (truthy_str (findText obj)); eexists; reflexivity.
    + eexists; reflexivity.
  - destruct (negb (truthy (JStr s0)) && typeof_object (Some obj)).
    + destruct (truthy_str (findText obj)); eexists; reflexivity.
    + eexists; reflexivity.
Qed.

Lemma recover_loop_text (jsonMatches : list jsstring) (s0 : jsstring) :
  exists s, recover_loop jsonMatches (JStr s0) = JStr s.
Proof.
  revert s0; induction jsonMatches as [|jsonStr rest IH]; intros s0; simpl.
  - now exists s0.
  - destruct (JSON_parse jsonStr) as [obj|]; [|apply IH].
    destruct (recover_from_object_text s0 obj) as [s Hs].
    destruct obj; try apply IH; rewrite Hs;
      (destruct (truthy (JStr s)); [now exists s | apply IH]).
Qed.

(** On a buffer that is not empty the recovery yields a text that is not
    empty; it is the buffer itself when no object of the buffer yields a
    text and the three headers are not found in it. *)
Lemma raw_recovery_text (b : jsstring) :
  b <> [] ->
  exists text, raw_recovery b (JStr []) = JStr text
    /\ text <> []
    /\ (recover_loop (match_all jsonObjectPattern b) (JStr []) = JStr [] ->
        exec rawTravelPattern b = None -> text = b).
Proof.
  intros Hb. unfold raw_recovery.
  destruct (recover_loop_text (match_all jsonObjectPattern b) []) as [s Hs].
  rewrite Hs. simpl truthy. destruct (truthy_str s) eqn:Et.
  - exists s. split; [reflexivity|]. split; [now apply truthy_str_true|].
    intros H. injection H as ->. discriminate.
  - destruct (exec rawTravelPattern b) as [m|] eqn:Em.
    + exists (m_all m). split; [reflexivity|]. split; [|discriminate].
      unfold rawTravelPattern in Em. cbn [seq] in Em.
      apply literal_match_not_empty in Em; [exact Em | discriminate].
    + exists b. repeat split. exact Hb.
Qed.

(** C5.  Let the loop end with nothing accumulated and [completeResponse]
    not set.  With an empty buffer the route throws the empty-response
    error and returns no itinerary.  With anything left in the buffer the
    recovery hands a text that is not empty to
    [parseCozeResponseToItinerary]: the buffer itself when no object of the
    buffer yields a text and the three headers are not found in it. *)
Theorem empty_stream_fails_buffer_recovers :
  forall (st : StreamState),
    accumulatedResponse st = [] ->
    completeResponse st = JStr [] ->
    (buffer st = [] ->
       final_response st = Throw EmptyResponse
       /\ forall params reads,
            read_loop reads initial_state = Ok st ->
            generateCozeItinerary params reads = Throw EmptyResponse)
    /\ (buffer st <> [] ->
       exists text,
         final_response st = Ok text
         /\ text <> []
         /\ (recover_loop (match_all jsonObjectPattern (buffer st)) (JStr [])
               = JStr [] ->
             exec rawTravelPattern (buffer st) = None ->
             text = buffer st)).
Proof.
  intros st Hacc Hcomplete. unfold final_response.
  rewrite Hcomplete, Hacc. cbn [truthy truthy_str is_empty negb].
  change (length_is_zero (JStr [])) with true. cbv iota.
  split.
  - intros Hb. rewrite Hb. cbn.
    split; [reflexivity|].
    intros params reads Hrun. unfold generateCozeItinerary. rewrite Hrun.
    cbn [bind]. unfold final_response.
    rewrite Hcomplete, Hacc, Hb. reflexivity.
  - intros Hb.
    destruct (raw_recovery_text (buffer st) Hb) as (text & Hr & Hne & Hfall).
    exists text.
    destruct (buffer st) as [|c b] eqn:Eb; [now elim Hb|].
    cbn [length Nat.ltb Nat.leb bind]. rewrite Hr.
    repeat split; assumption.
Qed.

End RecoveryFacts.

(* ================================================================== *)
(** * The claims on example streams *)
(* ================================================================== *)

Lemma fast_path_fires_on_second_delta_only_witness :
  let acts := [delta_event first_delta] in
  let dataObj := or_empty (JsonText.parse full_delta) in
  let eventType := js "conversation.message.delta" in
  run (host := JsonText.host) acts initial_state = Ok (after_first_delta [])
  /\ is_answer_delta eventType dataObj = true
  /\ answer_deltas (host := JsonText.host) acts = 1
  /\ fast_path (host := JsonText.host) eventType full_delta dataObj
       (after_first_delta [])
     = second_delta (host := JsonText.host) full_delta dataObj
         (count_delta (after_first_delta []))
  /\ exists m st',
       exec travelPattern full_delta = Some m
       /\ fast_path (host := JsonText.host) eventType full_delta dataObj
            (after_first_delta []) = Ok st'
       /\ completeResponse st'
          = JStr (js "旅行推荐:西安之旅" ++ LF ++ js "行程规划:详细安排" ++ LF
                  ++ js "旅行红黑榜:推荐" ++ DQ ++ js "}")
       /\ isFinished st' = true
       /\ deltaCount st' = 2.
Proof.
  intros acts dataObj eventType.
  assert (Hrun : run (host := JsonText.host) acts initial_state
                 = Ok (after_first_delta [])) by (vm_compute; reflexivity).
  assert (Hd : is_answer_delta eventType dataObj = true)
    by (vm_compute; reflexivity).
  assert (Hn : answer_deltas (host := JsonText.host) acts = 1)
    by (vm_compute; reflexivity).
  split; [exact Hrun|]. split; [exact Hd|]. split; [exact Hn|].
  destruct (proj1 (fast_path_fires_on_second_delta_only acts _ Hrun
                     eventType full_delta dataObj) (conj Hd Hn))
    as (H1 & _ & _ & Hset & _).
  split; [exact H1|].
  destruct (exec travelPattern full_delta) as [m|] eqn:Em.
  - destruct (Hset m eq_refl) as (st' & Hf & Hc & Hfin & Hcount & _).
    exists m, st'. split; [reflexivity|]. split; [exact Hf|].
    split; [|split; assumption].
    rewrite Hc. vm_compute in Em. injection Em as <-. vm_compute. reflexivity.
  - vm_compute in Em. discriminate Em.
Defined.

Lemma completeResponse_assigned_once_witness :
  let acts := [delta_event first_delta; delta_event full_delta] in
  let st := state_of (run (host := JsonText.host) acts initial_state) in
  let st' := state_of (run (host := JsonText.host) [delta_event late_delta] st) in
  run (host := JsonText.host) acts initial_state = Ok st
  /\ completeResponse st <> JStr []
  /\ run (host := JsonText.host) [delta_event late_delta] st = Ok st'
  /\ deltaCount st' = 3
  /\ completeResponse st' = completeResponse st.
Proof.
  intros acts st st'.
  assert (Hrun : run (host := JsonText.host) acts initial_state = Ok st)
    by (vm_compute; reflexivity).
  assert (Hset : completeResponse st <> JStr []) by (vm_compute; discriminate).
  assert (Hlate : run (host := JsonText.host) [delta_event late_delta] st = Ok st')
    by (vm_compute; reflexivity).
  split; [exact Hrun|]. split; [exact Hset|]. split; [exact Hlate|].
  split; [vm_compute; reflexivity|].
  exact (proj1 (completeResponse_assigned_once acts st Hrun Hset)
           [delta_event late_delta] st' Hlate).
Defined.

Lemma malformed_frame_skipped_other_errors_fatal_witness :
  let chunk := sse_block "message" (js "{bad") in
  let rest := sse_frame "message" first_delta in
  let st := set_buffer (chunk ++ LF ++ LF ++ rest) initial_state in
  first_block (buffer st) = Some (chunk, rest)
  /\ is_empty (trim chunk) = false
  /\ parse_block chunk = (js "message", js "{bad")
  /\ js "{bad" <> []
  /\ JSON_parse (HostRuntime := JsonText.host) (js "{bad") = None
  /\ drain (host := JsonText.host) st
     = drain (host := JsonText.host) (set_buffer rest st).
Proof.
  intros chunk rest st.
  assert (H1 : first_block (buffer st) = Some (chunk, rest))
    by (vm_compute; reflexivity).
  assert (H2 : is_empty (trim chunk) = false) by (vm_compute; reflexivity).
  assert (H3 : parse_block chunk = (js "message", js "{bad"))
    by (vm_compute; reflexivity).
  assert (H4 : js "{bad" <> []) by (vm_compute; discriminate).
  assert (H5 : JSON_parse (HostRuntime := JsonText.host) (js "{bad") = None)
    by (vm_compute; reflexivity).
  repeat (split; [assumption|]).
  exact (proj1 (proj2 (proj1
    (malformed_frame_skipped_other_errors_fatal (host := JsonText.host)
       st chunk rest (js "message") (js "{bad") H1 H2 H3 H4) H5))).
Defined.

Lemma finished_stops_reads_not_buffered_frames_witness :
  let chunk := sse_block "conversation.message.delta" full_delta in
  let chunk2 := sse_block "error" (js "{}") in
  let rest := chunk2 ++ LF ++ LF in
  let st := after_first_delta (chunk ++ LF ++ LF ++ rest) in
  let st1 := state_of (handle_block (host := JsonText.host) chunk (set_buffer rest st)) in
  first_block (buffer st) = Some (chunk, rest)
  /\ handle_block (host := JsonText.host) chunk (set_buffer rest st) = Ok st1
  /\ isFinished st1 = true
  /\ completeResponse st1 <> JStr []
  /\ first_block rest = Some (chunk2, [])
  /\ error_frame (host := JsonText.host) chunk2 = true
  /\ exists e, drain (host := JsonText.host) st = Throw e
       /\ forall params reads,
            resume (host := JsonText.host) params st reads = Throw e.
Proof.
  intros chunk chunk2 rest st st1.
  assert (H1 : first_block (buffer st) = Some (chunk, rest))
    by (vm_compute; reflexivity).
  assert (H2 : handle_block (host := JsonText.host) chunk (set_buffer rest st) = Ok st1)
    by (vm_compute; reflexivity).
  assert (H3 : isFinished st1 = true) by (vm_compute; reflexivity).
  assert (H4 : completeResponse st1 <> JStr []) by (vm_compute; discriminate).
  assert (H5 : first_block rest = Some (chunk2, [])) by (vm_compute; reflexivity).
  assert (H6 : error_frame (host := JsonText.host) chunk2 = true)
    by (vm_compute; reflexivity).
  repeat (split; [assumption|]).
  exact (proj2 (proj2
    (finished_stops_reads_not_buffered_frames (host := JsonText.host)
       st st1 chunk rest H1 H2 H3)) chunk2 [] H5 H6).
Defined.

Lemma empty_stream_fails_buffer_recovers_witness :
  let st := set_buffer (js "hello") initial_state in
  accumulatedResponse st = []
  /\ completeResponse st = JStr []
  /\ buffer st <> []
  /\ final_response (host := JsonText.host) st = Ok (js "hello")
  /\ final_response (host := JsonText.host) initial_state = Throw EmptyResponse.
Proof.
  intros st.
  assert (H3 : buffer st <> []) by (vm_compute; discriminate).
  split; [reflexivity|]. split; [reflexivity|]. split; [exact H3|].
  split.
  - destruct (proj2 (empty_stream_fails_buffer_recovers (host := JsonText.host)
                       st eq_refl eq_refl) H3) as (text & Hf & _ & Hb).
    rewrite Hf. f_equal. apply Hb; vm_compute; reflexivity.
  - exact (proj1 (proj1 (empty_stream_fails_buffer_recovers
                           (host := JsonText.host) initial_state eq_refl eq_refl)
                    eq_refl)).
Defined.

(** The whole route on streams of the kinds the claims speak of. *)
Example error_frame_in_the_same_chunk :
  generateCozeItinerary (host := JsonText.host) (request (js "5-7") None)
    [sse_frame "conversation.message.delta" first_delta
     ++ sse_frame "conversation.message.delta" full_delta
     ++ sse_frame "error" (js "{}")]
  = Throw (StreamError (JObj [])).
Proof. vm_compute. reflexivity. Qed.

Example error_frame_in_a_later_chunk :
  match generateCozeItinerary (host := JsonText.host) (request (js "5-7") None)
          [sse_frame "conversation.message.delta" first_delta
           ++ sse_frame "conversation.message.delta" full_delta;
           sse_frame "error" (js "{}")] with
  | Ok itinerary =>
      it_title itinerary = js "西安之旅" /\ it_plan itinerary = js "详细安排"
      /\ it_days itinerary = 7%Z
  | Throw _ => False
  end.
Proof. vm_compute. repeat split. Qed.

Example malformed_frame_amid_the_stream :
  generateCozeItinerary (host := JsonText.host) (request (js "3") None)
    [sse_frame "message" first_delta ++ sse_frame "message" (js "{bad")
     ++ sse_frame "message" first_delta]
  = generateCozeItinerary (host := JsonText.host) (request (js "3") None)
      [sse_frame "message" first_delta ++ sse_frame "message" first_delta].
Proof. vm_compute. reflexivity. Qed.

Example null_data_is_fatal :
  generateCozeItinerary (host := JsonText.host) (request (js "3") None)
    [sse_frame "message" first_delta ++ sse_frame "message" (js "null")]
  = Throw TypeError.
Proof. vm_compute. reflexivity. Qed.


Example third_delta_in_the_same_chunk :
  match generateCozeItinerary (host := JsonText.host) (request (js "3") None)
          [sse_frame "conversation.message.delta" first_delta
           ++ sse_frame "conversation.message.delta" full_delta
           ++ sse_frame "conversation.message.delta" late_delta] with
  | Ok itinerary => it_title itinerary = js "西安之旅"
  | Throw _ => False
  end.
Proof. vm_compute. reflexivity. Qed.

Example nothing_received :
  generateCozeItinerary (host := JsonText.host) (request (js "3") None) []
  = Throw EmptyResponse
  /\ generateCozeItinerary (host := JsonText.host) (request (js "3") None)
       [sse_frame "ping" (js "{}")]
     = Throw EmptyResponse.
Proof. split; vm_compute; reflexivity. Qed.

Example unframed_text_is_recovered :
  match generateCozeItinerary (host := JsonText.host) (request (js "3") None)
          [js "hello"] with
  | Ok itinerary => it_plan itinerary = js "hello"
  | Throw _ => False
  end.
Proof. vm_compute. reflexivity. Qed.

Section BufferFacts.
Context {host : HostRuntime}.

Lemma second_delta_set_buffer (b d : jsstring) (obj : json) (st : StreamState) :
  second_delta d obj (set_buffer b st) = then_set_buffer b (second_delta d obj st).
Proof.
  unfold second_delta, then_set_buffer.
  destruct (match exec travelPattern d with
            | Some m => if truthy_str (m_all m) then Some (m_all m) else None
            | None => None
            end) as [text|]; [reflexivity|].
  destruct (truthy (extractedContent d obj)); [|reflexivity].
  destruct (converts _); reflexivity.
Qed.

Lemma fast_path_set_buffer (b t d : jsstring) (obj : json) (st : StreamState) :
  fast_path t d obj (set_buffer b st) = then_set_buffer b (fast_path t d obj st).
Proof.
  rewrite !fast_path_cases. destruct (is_answer_delta t obj); [|reflexivity].
  cbn [deltaCount set_buffer]. destruct (deltaCount st =? 1); [|reflexivity].
  exact (second_delta_set_buffer b d obj (count_delta st)).
Qed.

Lemma regular_path_set_buffer (b t : jsstring) (obj : json) (st : StreamState) :
  regular_path t obj (set_buffer b st) = then_set_buffer b (regular_path t obj st).
Proof.
  unfold regular_path, then_set_buffer.
  repeat (break_match; try reflexivity);
    destruct (converts _); reflexivity.
Qed.

Lemma handle_event_set_buffer (b t d : jsstring) (st : StreamState) :
  handle_event t d (set_buffer b st) = then_set_buffer b (handle_event t d st).
Proof.
  unfold handle_event, interpret.
  destruct (JSON_parse d) as [obj|]; [|reflexivity].
  destruct (json_is_null obj) eqn:Hn; [destruct obj; try discriminate; reflexivity|].
  assert (E : forall s,
    match obj with
    | JNull => Throw TypeError
    | _ => converts (or_val (get obj (js "type")) (Some (JStr (js "未知")))) ;;;
           (st1 <- fast_path t d obj s ;; regular_path t obj st1)
    end
    = (converts (or_val (get obj (js "type")) (Some (JStr (js "未知")))) ;;;
       (st1 <- fast_path t d obj s ;; regular_path t obj st1)))
    by (intros s; destruct obj; try reflexivity; discriminate).
  rewrite !E. clear E.
  destruct (converts _) as [[]|e]; cbn [bind].
  - rewrite fast_path_set_buffer.
    destruct (fast_path t d obj st) as [st1|e]; cbn [bind then_set_buffer].
    + rewrite regular_path_set_buffer.
      destruct (regular_path t obj st1) as [st2|e]; cbn [bind then_set_buffer];
        [reflexivity|].
      destruct (is_syntax_error e); reflexivity.
    + destruct (is_syntax_error e); reflexivity.
  - destruct (is_syntax_error e); reflexivity.
Qed.

Lemma handle_block_set_buffer (b chunk : jsstring) (st : StreamState) :
  handle_block chunk (set_buffer b st) = then_set_buffer b (handle_block chunk st).
Proof.
  unfold handle_block. destruct (is_empty (trim chunk)); [reflexivity|].
  destruct (parse_block chunk) as [t d].
  destruct (truthy_str d); [|reflexivity].
  apply handle_event_set_buffer.
Qed.

End BufferFacts.


Lemma blank_line_here (c : N) (s : jsstring) :
  startsWith (LF ++ LF) (c :: s) =
  (10 =? c)%N && match s with y :: _ => (10 =? y)%N | [] => false end.
Proof.
  cbn [LF app startsWith]. destruct s as [|y s]; [reflexivity|].
  now rewrite andb_true_r.
Qed.

(** The first blank line of a buffer is where its first block ends. *)
Lemma indexOf_blank_at (chunk rest : jsstring) :
  indexOf (LF ++ LF) (chunk ++ LF) = None ->
  indexOf (LF ++ LF) (chunk ++ LF ++ LF ++ rest) = Some (length chunk).
Proof.
  induction chunk as [|c chunk IH]; intros H; [reflexivity|].
  cbn [app indexOf] in H. cbn [app indexOf length].
  rewrite blank_line_here in *.
  destruct ((10 =? c)%N && _) eqn:E in H; [discriminate|].
  destruct (indexOf (LF ++ LF) (chunk ++ LF)) eqn:Ei; [discriminate|].
  rewrite (IH eq_refl).
  replace ((10 =? c)%N && _) with false; [reflexivity|].
  rewrite <- E. f_equal. destruct chunk; reflexivity.
Qed.

Lemma indexOf_blank_least (s : jsstring) (i : nat) :
  indexOf (LF ++ LF) s = Some i ->
  indexOf (LF ++ LF) (firstn i s ++ LF) = None.
Proof.
  revert i; induction s as [|c s IH]; intros i; [discriminate|].
  cbn [indexOf]. destruct (startsWith (LF ++ LF) (c :: s)) eqn:E.
  - intros H. injection H as <-. reflexivity.
  - destruct (indexOf (LF ++ LF) s) as [j|] eqn:Ej; [|discriminate].
    intros H. injection H as <-. cbn [firstn app indexOf].
    rewrite (IH j eq_refl). rewrite blank_line_here in *.
    replace ((10 =? c)%N && _) with false; [reflexivity|].
    rewrite <- E. f_equal.
    destruct s as [|y s]; [discriminate Ej|].
    destruct j as [|j]; [|reflexivity].
    cbn [firstn app LF]. cbn [indexOf] in Ej.
    destruct (startsWith (LF ++ LF) (y :: s)) eqn:Ey.
    + rewrite blank_line_here in Ey. apply andb_true_iff in Ey as [Ey _].
      rewrite Ey. reflexivity.
    + destruct (indexOf (LF ++ LF) s); discriminate.
Qed.

Lemma first_block_at (chunk rest : jsstring) :
  indexOf (LF ++ LF) (chunk ++ LF) = None ->
  first_block (chunk ++ LF ++ LF ++ rest) = Some (chunk, rest).
Proof.
  intros H. unfold first_block. rewrite (indexOf_blank_at chunk rest H).
  unfold substring, substring_from. rewrite Nat.sub_0_r. cbn [skipn].
  rewrite firstn_app, Nat.sub_diag, firstn_all. cbn [firstn].
  rewrite app_nil_r. f_equal. f_equal.
  rewrite skipn_app.
  replace (length chunk + 2 - length chunk) with 2 by lia.
  rewrite skipn_all2 by lia. reflexivity.
Qed.

Lemma first_block_least (b chunk rest : jsstring) :
  first_block b = Some (chunk, rest) ->
  indexOf (LF ++ LF) (chunk ++ LF) = None.
Proof.
  unfold first_block. destruct (indexOf (LF ++ LF) b) as [i|] eqn:E; [|discriminate].
  intros H. injection H as <- _. unfold substring. rewrite Nat.sub_0_r.
  cbn [skipn]. now apply indexOf_blank_least.
Qed.

(** Text that arrives after a block does not change the block. *)
Lemma first_block_app (b chunk rest more : jsstring) :
  first_block b = Some (chunk, rest) ->
  first_block (b ++ more) = Some (chunk, rest ++ more).
Proof.
  intros H. pose proof (first_block_least _ _ _ H) as Hl.
  apply first_block_split in H. rewrite H.
  replace ((chunk ++ LF ++ LF ++ rest) ++ more)
    with (chunk ++ LF ++ LF ++ (rest ++ more))
    by (now rewrite <- !app_assoc).
  now apply first_block_at.
Qed.

Section SplitReads.
Context {host : HostRuntime}.

Lemma drain_more (n : nat) :
  forall (st : StreamState) (b more : jsstring),
    length b <= n ->
    drain (set_buffer (b ++ more) st)
    = (st1 <- drain (set_buffer b st) ;;
       drain (set_buffer (buffer st1 ++ more) st1)).
Proof.
  induction n as [|n IH]; intros st b more Hn.
  - destruct b; [|simpl in Hn; lia].
    rewrite (drain_unfold (set_buffer [] st)). reflexivity.
  - rewrite (drain_unfold (set_buffer b st)). cbn [buffer set_buffer].
    destruct (first_block b) as [[chunk rest]|] eqn:E; [|reflexivity].
    rewrite (drain_unfold (set_buffer (b ++ more) st)). cbn [buffer set_buffer].
    rewrite (first_block_app _ _ _ more E).
    change (set_buffer (rest ++ more) (set_buffer (b ++ more) st))
      with (set_buffer (rest ++ more) st).
    change (set_buffer rest (set_buffer b st)) with (set_buffer rest st).
    rewrite !handle_block_set_buffer.
    destruct (handle_block chunk st) as [st1|e]; [|reflexivity].
    cbn [then_set_buffer bind].
    apply first_block_shorter in E.
    rewrite (IH st1 rest more) by lia. reflexivity.
Qed.

End SplitReads.


Section StreamExtras.
Context {host : HostRuntime}.

(** X1.  A frame may arrive split over two reads.  Draining the buffer
    after [a ++ b] has been appended is draining it after [a] and then
    again after [b]: the blocks are the same and are interpreted in the
    same order, with the same exception if one is thrown.  So, as long as
    the frames of [a] do not finish the stream, reading [a] and [b] in two
    chunks or in one gives the same result. *)
Theorem frame_split_across_reads (st : StreamState) (a b : jsstring) :
  drain (set_buffer (buffer st ++ a ++ b) st)
  = (st1 <- drain (set_buffer (buffer st ++ a) st) ;;
     drain (set_buffer (buffer st1 ++ b) st1))
  /\ (forall reads,
        (forall st1, drain (set_buffer (buffer st ++ a) st) = Ok st1 ->
                     isFinished st1 = false) ->
        read_loop ((a ++ b) :: reads) st = read_loop (a :: b :: reads) st).
Proof.
  assert (Hd : drain (set_buffer (buffer st ++ a ++ b) st)
    = (st1 <- drain (set_buffer (buffer st ++ a) st) ;;
       drain (set_buffer (buffer st1 ++ b) st1))).
  { rewrite app_assoc. apply (drain_more (length (buffer st ++ a))). lia. }
  split; [exact Hd|].
  intros reads Hopen. cbn [read_loop].
  destruct (isFinished st); [reflexivity|].
  rewrite Hd.
  destruct (drain (set_buffer (buffer st ++ a) st)) as [st1|e] eqn:E;
    [|reflexivity].
  cbn [bind]. now rewrite (Hopen st1 eq_refl).
Qed.

Lemma drain_rest (n : nat) :
  forall st st', length (buffer st) <= n -> drain st = Ok st' ->
    first_block (buffer st') = None /\ suffix_of (buffer st') (buffer st).
Proof.
  induction n as [|n IH]; intros st st' Hn; rewrite drain_unfold.
  - destruct (first_block (buffer st)) as [[chunk rest]|] eqn:E.
    + apply first_block_shorter in E. lia.
    + intros H. injection H as <-. split; [exact E | apply suffix_of_refl].
  - destruct (first_block (buffer st)) as [[chunk rest]|] eqn:E.
    + destruct (handle_block chunk (set_buffer rest st)) as [st1|e] eqn:Eh;
        [|discriminate].
      cbn [bind]. intros H.
      pose proof (handle_block_buffer _ _ _ _ Eh) as Hb.
      pose proof (first_block_shorter _ _ _ E) as Hlen.
      destruct (IH st1 st' ltac:(rewrite Hb; lia) H) as [Hnone Hsuf].
      split; [exact Hnone|].
      eapply suffix_of_trans; [exact Hsuf|]. rewrite Hb.
      apply first_block_split in E. rewrite E.
      exists (chunk ++ LF ++ LF). now rewrite <- !app_assoc.
    + intros H. injection H as <-. split; [exact E | apply suffix_of_refl].
Qed.

(** X2.  When the inner loop ends without exception, no complete block is
    left in the buffer, and what is left is the end of the buffer it was
    entered with.  So the buffer that the route is left with at the end of
    the stream (the one the recovery looks at) holds at most an unfinished
    frame. *)
Theorem drain_leaves_no_complete_block :
  (forall st st', drain st = Ok st' ->
     first_block (buffer st') = None /\ suffix_of (buffer st') (buffer st))
  /\ (forall reads st', read_loop reads initial_state = Ok st' ->
        first_block (buffer st') = None).
Proof.
  split.
  - intros st st'. apply (drain_rest (length (buffer st))). lia.
  - intros reads.
    assert (H : forall st st', first_block (buffer st) = None ->
              read_loop reads st = Ok st' -> first_block (buffer st') = None).
    { induction reads as [|x reads IH]; intros st st' Hst; cbn [read_loop].
      - destruct (isFinished st); intros H; injection H as <-; exact Hst.
      - destruct (isFinished st); [intros H; injection H as <-; exact Hst|].
        destruct (drain _) as [st1|e] eqn:E; [|discriminate]. cbn [bind].
        apply IH.
        exact (proj1 (drain_rest _ _ st1 (le_n _) E)). }
    intros st'. apply H. reflexivity.
Qed.

Lemma regular_path_accumulates (t : jsstring) (obj : json) (st st' : StreamState) :
  regular_path t obj st = Ok st' ->
  exists added, accumulatedResponse st' = accumulatedResponse st ++ added.
Proof.
  unfold regular_path.
  repeat (break_match; try discriminate);
    try (destruct (converts _); simpl; try discriminate);
    intros H; injection H as <-; simpl;
    first [now eexists | exists []; now rewrite app_nil_r].
Qed.

Lemma handle_event_accumulates (t d : jsstring) (st st' : StreamState) :
  handle_event t d st = Ok st' ->
  exists added, accumulatedResponse st' = accumulatedResponse st ++ added.
Proof.
  unfold handle_event. destruct (interpret t d st) as [st1|e] eqn:E.
  - intros H. injection H as <-.
    destruct (JSON_parse d) as [obj|] eqn:Hp;
      [|rewrite (interpret_unparsed t d st Hp) in E; discriminate].
    destruct (json_is_null obj) eqn:Hn.
    { destruct obj; try discriminate.
      unfold interpret in E. rewrite Hp in E. discriminate. }
    rewrite (interpret_parsed t d obj st Hp) in E by (intros ->; discriminate).
    destruct (converts _); simpl in E; [|discriminate].
    destruct (fast_path t d obj st) as [st2|] eqn:Ef; simpl in E; [|discriminate].
    apply fast_path_effect in Ef as (_ & Ha & _).
    apply regular_path_accumulates in E as [added E].
    exists added. congruence.
  - destruct (is_syntax_error e); [|discriminate].
    intros H. injection H as <-. exists []. now rewrite app_nil_r.
Qed.

Lemma run_accumulates (acts : list action) (st st' : StreamState) :
  run acts st = Ok st' ->
  exists added, accumulatedResponse st' = accumulatedResponse st ++ added.
Proof.
  revert st; induction acts as [|a acts IH]; intros st; simpl.
  - intros H. injection H as <-. exists []. now rewrite app_nil_r.
  - destruct (act a st) as [st1|] eqn:E; simpl; [|discriminate].
    intros H. apply IH in H as [x2 H2].
    assert (H1 : exists x1, accumulatedResponse st1 = accumulatedResponse st ++ x1).
    { destruct a as [b|t d]; simpl in E.
      - injection E as <-. exists []. simpl. now rewrite app_nil_r.
      - exact (handle_event_accumulates t d st st1 E). }
    destruct H1 as [x1 H1]. exists (x1 ++ x2). now rewrite H2, H1, app_assoc.
Qed.

(** X3.  Whatever the stream brings, the text accumulated so far is only
    ever extended (nothing is dropped or rewritten), the counter of the
    answer deltas never decreases, and [isFinished] is never reset. *)
Theorem accumulated_text_only_grows (reads : list jsstring) (st st' : StreamState) :
  read_loop reads st = Ok st' ->
  (exists added, accumulatedResponse st' = accumulatedResponse st ++ added)
  /\ deltaCount st <= deltaCount st'
  /\ (isFinished st = true -> isFinished st' = true).
Proof.
  destruct (read_loop_as_run reads st) as [acts ->]. intros H.
  split; [exact (run_accumulates acts st st' H)|]. split.
  - rewrite (run_deltaCount acts st st' H). lia.
  - exact (run_finished acts st st' H).
Qed.

End StreamExtras.


(* ================================================================== *)
(** * The lines of a block *)
(* ================================================================== *)

Lemma split_acc_app (c : N) (cur a b : jsstring) :
  split_acc c cur (a ++ c :: b) = split_acc c cur a ++ split_acc c [] b.
Proof.
  revert cur; induction a as [|x a IH]; intros cur; cbn [app split_acc].
  - now rewrite N.eqb_refl.
  - destruct (x =? c)%N; [cbn [app]; f_equal|]; apply IH.
Qed.

(** A block read line by line: one more line is one more step. *)
Lemma parse_block_line (chunk line : jsstring) :
  ~ In 10%N line ->
  parse_block (chunk ++ LF ++ line) = read_line (parse_block chunk) line.
Proof.
  intros Hl. unfold parse_block, split_char. cbn [LF app].
  rewrite split_acc_app, (split_acc_plain 10%N [] line Hl), fold_left_app.
  reflexivity.
Qed.

Lemma parse_block_single (line : jsstring) :
  ~ In 10%N line -> parse_block line = read_line (js "message", []) line.
Proof.
  intros Hl. unfold parse_block, split_char.
  now rewrite (split_acc_plain 10%N [] line Hl).
Qed.

Lemma data_kept (lines : list jsstring) (frame : jsstring * jsstring) :
  (forall line, In line lines -> startsWith (js "data:") line = true ->
     trim (substring_from 5 line) = []) ->
  snd frame = [] -> snd (fold_left read_line lines frame) = [].
Proof.
  revert frame; induction lines as [|line lines IH]; intros frame Hall Hf;
    [exact Hf|].
  cbn [fold_left]. apply IH.
  - intros l Hl. apply Hall. now right.
  - unfold read_line. destruct (startsWith (js "event:") line); [exact Hf|].
    destruct (startsWith (js "data:") line) eqn:Hd; [|exact Hf].
    cbn [snd]. apply Hall; [now left | exact Hd].
Qed.

(** White space only is what trims to nothing. *)
Lemma trimStart_nil (s : jsstring) :
  trimStart s = [] -> forallb is_space s = true.
Proof.
  induction s as [|c s IH]; [reflexivity|]. cbn [trimStart forallb].
  destruct (is_space c); [exact IH | discriminate].
Qed.

Lemma trimStart_suffix (s : jsstring) : suffix_of (trimStart s) s.
Proof.
  induction s as [|c s IH]; [apply suffix_of_refl|]. cbn [trimStart].
  destruct (is_space c); [|apply suffix_of_refl].
  eapply suffix_of_trans; [exact IH | apply suffix_of_tail].
Qed.

Lemma trimStart_spaces (ws s : jsstring) :
  forallb is_space ws = true -> trimStart (ws ++ s) = trimStart s.
Proof.
  induction ws as [|c ws IH]; [reflexivity|]. cbn [forallb app trimStart].
  intros H. apply andb_true_iff in H as [-> H]. now apply IH.
Qed.

Lemma trimStart_split (s : jsstring) :
  exists ws, s = ws ++ trimStart s /\ forallb is_space ws = true.
Proof.
  induction s as [|c s IH]; [now exists []|]. cbn [trimStart].
  destruct (is_space c) eqn:Hc.
  - destruct IH as (ws & Hs & Hws). exists (c :: ws). cbn [app forallb].
    rewrite Hc, <- Hs. auto.
  - now exists [].
Qed.

Lemma trim_nil (s : jsstring) : trim s = [] -> forallb is_space s = true.
Proof.
  unfold trim, trimEnd. intros H.
  apply (f_equal (@rev N)) in H. rewrite rev_involutive in H. cbn [rev] in H.
  apply trimStart_nil in H. rewrite forallb_forall in H.
  destruct (trimStart_split s) as (ws & Hs & Hws). rewrite Hs.
  rewrite forallb_app, Hws. cbn [andb]. apply forallb_forall.
  intros c Hc. apply H. now apply -> in_rev.
Qed.

Lemma trim_dark (s : jsstring) :
  existsb (fun c => negb (is_space c)) s = true -> is_empty (trim s) = false.
Proof.
  intros H. destruct (trim s) eqn:E; [|reflexivity].
  apply trim_nil in E. apply existsb_exists in H as (c & Hc & Hd).
  rewrite forallb_forall in E. rewrite (E c Hc) in Hd. discriminate.
Qed.

Lemma no_blank_line (x y : jsstring) :
  ~ In 10%N x ->
  match y with c :: _ => c <> 10%N | [] => True end ->
  indexOf (LF ++ LF) y = None ->
  indexOf (LF ++ LF) (x ++ 10%N :: y) = None.
Proof.
  intros Hx Hy Hi. induction x as [|c x IH]; cbn [app indexOf].
  - rewrite blank_line_here, Hi.
    destruct y as [|c y]; [reflexivity|].
    destruct (N.eqb_spec 10 c) as [E|_]; [symmetry in E; contradiction|].
    reflexivity.
  - rewrite blank_line_here, IH by (intros H; apply Hx; now right).
    destruct (N.eqb_spec 10 c) as [E|_]; [|reflexivity].
    exfalso. apply Hx. now left.
Qed.

Lemma frame_text_no_blank_line (t d : jsstring) :
  ~ In 10%N t -> ~ In 10%N d ->
  indexOf (LF ++ LF) (frame_text t d ++ LF) = None.
Proof.
  intros Ht Hd. unfold frame_text.
  replace ((js "event:" ++ t ++ LF ++ js "data:" ++ d) ++ LF)
    with ((js "event:" ++ t) ++ 10%N :: ((js "data:" ++ d) ++ 10%N :: []))
    by (cbn [LF app]; now rewrite <- !app_assoc).
  apply no_blank_line.
  - intros H. apply in_app_or in H as [H|H]; [|now apply Ht].
    vm_compute in H. intuition discriminate.
  - vm_compute. discriminate.
  - apply no_blank_line; [|exact I|reflexivity].
    intros H. apply in_app_or in H as [H|H]; [|now apply Hd].
    vm_compute in H. intuition discriminate.
Qed.

Section FrameExtras.
Context {host : HostRuntime}.

(** X4.  A block in which no line carries data (no line starts with
    [data:], or every such line is blank after the prefix) changes none of
    the variables and throws nothing, whatever its event line says:
    comments, keep-alive lines and bare event lines are passed over. *)
Theorem block_without_data_is_ignored (chunk : jsstring) (st : StreamState) :
  (forall line, In line (split_char 10 chunk) ->
     startsWith (js "data:") line = true ->
     trim (substring_from 5 line) = []) ->
  handle_block chunk st = Ok st.
Proof.
  intros H. unfold handle_block.
  destruct (is_empty (trim chunk)); [reflexivity|].
  destruct (parse_block chunk) as [t d] eqn:E.
  assert (Hd : d = []).
  { change d with (snd (t, d)). rewrite <- E. unfold parse_block.
    now apply data_kept. }
  now rewrite Hd.
Qed.

Lemma lf_not_in_line (prefix d : jsstring) :
  existsb (N.eqb 10) prefix = false -> ~ In 10%N d -> ~ In 10%N (prefix ++ d).
Proof.
  intros Hp Hd H. apply in_app_or in H as [H|H]; [|now apply Hd].
  assert (E : existsb (N.eqb 10) prefix = true); [|congruence].
  apply existsb_exists. exists 10%N. split; [exact H | reflexivity].
Qed.

Lemma parse_block_data_line (chunk d : jsstring) :
  ~ In 10%N d ->
  parse_block (chunk ++ LF ++ js "data:" ++ d) = (fst (parse_block chunk), trim d).
Proof.
  intros Hd. rewrite parse_block_line; [reflexivity|].
  now apply lf_not_in_line.
Qed.

Lemma parse_block_event_line (chunk t : jsstring) :
  ~ In 10%N t ->
  parse_block (chunk ++ LF ++ js "event:" ++ t) = (trim t, snd (parse_block chunk)).
Proof.
  intros Ht. rewrite parse_block_line; [reflexivity|].
  now apply lf_not_in_line.
Qed.

(** X5.  The lines of a block are read in order and the last one of a kind
    wins: a further [data:] line replaces the data read so far (it is not
    appended to them) and leaves the event type as it is; a further
    [event:] line replaces the event type and leaves the data. *)
Theorem last_data_line_wins (chunk d : jsstring) :
  ~ In 10%N d ->
  parse_block (chunk ++ LF ++ js "data:" ++ d) = (fst (parse_block chunk), trim d)
  /\ parse_block (chunk ++ LF ++ js "event:" ++ d)
     = (trim d, snd (parse_block chunk)).
Proof.
  intros Hd. split;
    [now apply parse_block_data_line | now apply parse_block_event_line].
Qed.

(** X6.  A frame written as an event line and a data line, followed by a
    blank line, is read back as it was written: it is the first block of
    the buffer, what follows it is what is left in the buffer, its event
    type and data are the trimmed texts of the two lines, and the inner
    loop interprets that event and goes on with the rest. *)
Theorem frame_text_is_read_back (t d rest : jsstring) (st : StreamState) :
  ~ In 10%N t -> ~ In 10%N d ->
  first_block (frame_text t d ++ LF ++ LF ++ rest) = Some (frame_text t d, rest)
  /\ parse_block (frame_text t d) = (trim t, trim d)
  /\ (trim d <> [] ->
      drain (set_buffer (frame_text t d ++ LF ++ LF ++ rest) st)
      = (st' <- handle_event (trim t) (trim d) (set_buffer rest st) ;; drain st')).
Proof.
  intros Ht Hd.
  assert (Hfirst : first_block (frame_text t d ++ LF ++ LF ++ rest)
                   = Some (frame_text t d, rest))
    by (apply first_block_at; now apply frame_text_no_blank_line).
  assert (Hparse : parse_block (frame_text t d) = (trim t, trim d)).
  { unfold frame_text. rewrite app_assoc.
    rewrite (parse_block_data_line (js "event:" ++ t) d Hd).
    rewrite parse_block_single; [reflexivity|].
    now apply lf_not_in_line. }
  split; [exact Hfirst|]. split; [exact Hparse|].
  intros Hdata. rewrite drain_unfold. cbn [buffer set_buffer]. rewrite Hfirst.
  change (set_buffer rest (set_buffer (frame_text t d ++ LF ++ LF ++ rest) st))
    with (set_buffer rest st).
  rewrite (handle_block_event (frame_text t d) (trim t) (trim d));
    [reflexivity | | exact Hparse | exact Hdata].
  apply trim_dark. reflexivity.
Qed.

End FrameExtras.


(* ================================================================== *)
(** * Events that the loop passes over *)
(* ================================================================== *)

Lemma includes_self (p : jsstring) : includes p p = true.
Proof.
  apply includes_here. apply startsWith_prefix. exists []. now rewrite app_nil_r.
Qed.

Section EventExtras.
Context {host : HostRuntime}.

(** X7.  An event whose type is neither [message] nor one that contains
    [conversation.message.delta] never touches the buffer, the accumulated
    text, the counter or [completeResponse].  When it is interpreted
    without exception, [isFinished] is [true] afterwards if it was before or
    if the event is a [done] event whose data parse, and is unchanged
    otherwise: a [done] event whose data are not valid JSON does not finish
    the stream.  A [done] event whose data parse to a value other than
    [null], with a type that converts to a string, is interpreted without
    exception and sets [isFinished]. *)
Theorem other_event_types_change_nothing (t d : jsstring) (st : StreamState) :
  str_eqb t (js "message") = false ->
  includes (js "conversation.message.delta") t = false ->
  (forall st', handle_event t d st = Ok st' ->
     buffer st' = buffer st
     /\ accumulatedResponse st' = accumulatedResponse st
     /\ deltaCount st' = deltaCount st
     /\ completeResponse st' = completeResponse st
     /\ isFinished st'
        = (isFinished st
           || (str_eqb t (js "done")
               && match JSON_parse d with Some _ => true | None => false end)))
  /\ (str_eqb t (js "done") = true ->
      forall obj, JSON_parse d = Some obj -> obj <> JNull ->
        converts (or_val (get obj (js "type")) (Some (JStr (js "未知"))))
          = Ok tt ->
        exists st', handle_event t d st = Ok st'
          /\ isFinished st' = true
          /\ accumulatedResponse st' = accumulatedResponse st)
  /\ (JSON_parse d = None ->
      handle_event t d st = Ok st).
Proof.
  intros Hm Hi.
  assert (Hd : forall obj, is_answer_delta t obj = false).
  { intros obj. unfold is_answer_delta.
    destruct (str_eqb t (js "conversation.message.delta")) eqn:E;
      [|reflexivity].
    apply str_eqb_eq in E. subst t. rewrite includes_self in Hi.
    discriminate. }
  split; [|split].
  - intros st'. unfold handle_event.
    destruct (JSON_parse d) as [obj|] eqn:Hp.
    + destruct (json_is_null obj) eqn:Hn.
      { destruct obj; try discriminate. unfold interpret. rewrite Hp.
        discriminate. }
      rewrite (interpret_parsed t d obj st Hp) by (intros ->; discriminate).
      destruct (converts _) as [[]|e] eqn:Ec; cbn [bind].
      2:{ now rewrite (converts_throw _ _ Ec). }
      rewrite fast_path_cases, Hd. cbn [bind]. unfold regular_path.
      rewrite Hm, Hi. cbn [orb].
      destruct (str_eqb t (js "error")) eqn:He.
      { apply str_eqb_eq in He. subst t. cbn. discriminate. }
      destruct (str_eqb t (js "done")) eqn:Hdone.
      * rewrite orb_true_r. cbn [orb andb]. intros H. injection H as <-.
        cbn [finish buffer accumulatedResponse deltaCount completeResponse
             isFinished].
        rewrite orb_true_r. repeat split.
      * rewrite orb_false_r. cbn [andb]. rewrite orb_false_r.
        destruct (str_eqb t (js "ping") || includes (js "conversation.chat") t);
          intros H; injection H as <-; repeat split.
    + rewrite (interpret_unparsed t d st Hp). cbn [is_syntax_error].
      intros H. injection H as <-. rewrite andb_false_r, orb_false_r.
      repeat split.
  - intros Hdone obj Hp Hn Hc. unfold handle_event.
    rewrite (interpret_parsed t d obj st Hp Hn), Hc. cbn [bind].
    rewrite fast_path_cases, Hd. cbn [bind]. unfold regular_path.
    rewrite Hm, Hi. cbn [orb].
    assert (He : str_eqb t (js "error") = false).
    { apply str_eqb_eq in Hdone. subst t. reflexivity. }
    rewrite He, Hdone, orb_true_r. cbn [orb].
    exists (finish st). repeat split.
  - intros Hp. unfold handle_event. rewrite (interpret_unparsed t d st Hp).
    reflexivity.
Qed.

End EventExtras.


(* ================================================================== *)
(** * The text that is handed to the parser *)
(* ================================================================== *)

Section FinalText.
Context {host : HostRuntime}.

Lemma raw_recovery_not_empty (b : jsstring) (v : json) (text : jsstring) :
  b <> [] -> raw_recovery b v = JStr text -> text <> [].
Proof.
  intros Hb. unfold raw_recovery.
  destruct (truthy (recover_loop _ v)) eqn:Et.
  - intros H. rewrite H in Et. now apply truthy_str_true.
  - destruct (exec rawTravelPattern b) as [m|] eqn:Em.
    + intros H. injection H as <-.
      unfold rawTravelPattern in Em. cbn [seq] in Em.
      apply literal_match_not_empty in Em; [exact Em | discriminate].
    + intros H. now injection H as <-.
Qed.

(** X8.  The text that is handed to [parseCozeResponseToItinerary] is never
    empty: whenever the end of the stream yields a text at all (it throws
    otherwise), that text has at least one character, whatever the
    variables hold; every itinerary that [generateCozeItinerary] returns
    was parsed from such a text. *)
Theorem final_text_never_empty :
  (forall st text, final_response st = Ok text -> text <> [])
  /\ (forall params reads itinerary,
        generateCozeItinerary params reads = Ok itinerary ->
        exists text, text <> []
          /\ itinerary = parseCozeResponseToItinerary text params).
Proof.
  assert (H : forall st text, final_response st = Ok text -> text <> []).
  { intros st text. unfold final_response.
    set (fr := if truthy (completeResponse st) then completeResponse st
               else JStr (accumulatedResponse st)).
    destruct (length_is_zero fr) eqn:Ez.
    - destruct (0 <? length (buffer st)) eqn:El; [|discriminate].
      cbn [bind]. destruct (raw_recovery (buffer st) fr) eqn:Er; try discriminate.
      intros Hs. injection Hs as <-.
      apply (raw_recovery_not_empty (buffer st) fr); [|exact Er].
      destruct (buffer st); [discriminate El | discriminate].
    - cbn [bind]. destruct fr eqn:Ef; try discriminate.
      intros Hs. injection Hs as <-. intros ->. discriminate Ez. }
  split; [exact H|].
  intros params reads itinerary. unfold generateCozeItinerary.
  destruct (read_loop reads initial_state) as [st|e]; [|discriminate].
  cbn [bind]. destruct (final_response st) as [text|e] eqn:Ef; [|discriminate].
  cbn [bind]. intros Hi. injection Hi as <-.
  exists text. split; [exact (H st text Ef) | reflexivity].
Qed.

End FinalText.

(* ================================================================== *)
(** * The searches inside an object *)
(* ================================================================== *)

Lemma json_nested_ind (P : json -> Prop) :
  P JNull -> (forall b, P (JBool b)) -> (forall n, P (JNum n)) ->
  (forall s, P (JStr s)) ->
  (forall items, Forall P items -> P (JArr items)) ->
  (forall props, Forall (fun kv => P (snd kv)) props -> P (JObj props)) ->
  forall v, P v.
Proof.
  intros H1 H2 H3 H4 H5 H6. fix IH 1. intros [ |b|n|s|items|props].
  - exact H1.
  - apply H2.
  - apply H3.
  - apply H4.
  - apply H5. induction items as [|x items IHl]; constructor;
      [apply IH | exact IHl].
  - apply H6. induction props as [|[k x] props IHl]; constructor;
      [apply IH | exact IHl].
Qed.

Lemma nonblank_string_text (v : jsval) (s : jsstring) :
  nonblank_string v = Some s -> trim s <> [].
Proof.
  destruct v as [[ | | |x| | ]|]; try discriminate. cbn [nonblank_string].
  destruct (truthy_str (trim x)) eqn:E; [|discriminate].
  intros H. injection H as <-. now apply truthy_str_true.
Qed.

Lemma first_text_field_text (keys : list jsstring) (obj : json) (s : jsstring) :
  first_text_field keys obj = Some s -> trim s <> [].
Proof.
  induction keys as [|key keys IH]; [discriminate|]. cbn [first_text_field].
  destruct (nonblank_string (get obj key)) as [x|] eqn:E; [|exact IH].
  intros H. injection H as <-. exact (nonblank_string_text _ _ E).
Qed.

Lemma long_string_text (v : json) (s : jsstring) :
  long_string v = Some s -> 20 < length (trim s).
Proof.
  destruct v; try discriminate. cbn [long_string].
  destruct (20 <? length (trim s0)) eqn:E; [|discriminate].
  intros H. injection H as <-. now apply Nat.ltb_lt.
Qed.

(** X9.  The nested searches return a text or nothing: [findTextContent]
    returns [''] or a string that is not blank, and [findText] returns ['']
    or a string whose trimmed length exceeds 20; on a value that is not an
    object or an array both return ['']. *)
Theorem nested_search_returns_text_or_nothing (obj : json) :
  (findTextContent obj = [] \/ trim (findTextContent obj) <> [])
  /\ (findText obj = [] \/ 20 < length (trim (findText obj))).
Proof.
  induction obj as [ |b|n|s|items IH|props IH] using json_nested_ind;
    try (split; left; reflexivity).
  - split.
    + cbn [findTextContent].
      induction IH as [|x items [Hx _] _ IHl]; [now left|].
      destruct (truthy_str (findTextContent x)) eqn:E; [|exact IHl].
      destruct Hx as [Hx|Hx]; [rewrite Hx in E; discriminate | now right].
    + cbn [findText].
      induction IH as [|x items [_ Hx] _ IHl]; [now left|].
      destruct (long_string x) as [s|] eqn:El;
        [right; exact (long_string_text _ _ El)|].
      destruct (truthy_str (findText x)) eqn:E; [|exact IHl].
      destruct Hx as [Hx|Hx]; [rewrite Hx in E; discriminate | now right].
  - split.
    + cbn [findTextContent].
      destruct (first_text_field _ (JObj props)) as [s|] eqn:Ef;
        [right; exact (first_text_field_text _ _ _ Ef)|].
      clear Ef. induction IH as [|[k x] props' [Hx _] _ IHl]; [now left|].
      cbn [snd] in Hx.
      destruct (truthy_str (findTextContent x)) eqn:E; [|exact IHl].
      destruct Hx as [Hx|Hx]; [rewrite Hx in E; discriminate | now right].
    + cbn [findText].
      induction IH as [|[k x] props' [_ Hx] _ IHl]; [now left|].
      cbn [snd] in Hx.
      destruct (long_string x) as [s|] eqn:El;
        [right; exact (long_string_text _ _ El)|].
      destruct (truthy_str (findText x)) eqn:E; [|exact IHl].
      destruct Hx as [Hx|Hx]; [rewrite Hx in E; discriminate | now right].
Qed.


(* ================================================================== *)
(** * What a match has consumed *)
(* ================================================================== *)

(** A star over a class consumes characters of the class only. *)
Lemma star_class_inv (p : N -> bool) (greedy : bool) (k : cont) (fuel : nat) :
  forall (s : jsstring) (cs : captures) (res : jsstring * captures),
    star_loop (rx (Chr p)) greedy k fuel s cs = Some res ->
    exists pre post, s = pre ++ post /\ forallb p pre = true
                     /\ k post cs = Some res.
Proof.
  induction fuel as [|fuel IH]; intros s cs res.
  - cbn [star_loop]. intros H. now exists [], s.
  - destruct s as [|c s].
    + rewrite star_nil. intros H. now exists [], [].
    + assert (Hmore : p c = true ->
                star_loop (rx (Chr p)) greedy k fuel s cs = Some res ->
                exists pre post, c :: s = pre ++ post /\ forallb p pre = true
                                 /\ k post cs = Some res).
      { intros Hc H. apply IH in H as (pre & post & -> & Hpre & Hk).
        exists (c :: pre), post. cbn [app forallb]. rewrite Hc. auto. }
      destruct greedy.
      * rewrite star_greedy_step. destruct (p c) eqn:Hc.
        -- destruct (star_loop _ true k fuel s cs) as [x|] eqn:E.
           ++ intros H. injection H as <-. now apply Hmore.
           ++ intros H. now exists [], (c :: s).
        -- intros H. now exists [], (c :: s).
      * rewrite star_lazy_step. destruct (k (c :: s) cs) as [x|] eqn:E.
        -- intros H. injection H as <-. now exists [], (c :: s).
        -- destruct (p c) eqn:Hc; [|discriminate]. now apply Hmore.
Qed.

Lemma plus_class_inv (p : N -> bool) (k : cont) (s : jsstring) (cs : captures)
    (res : jsstring * captures) :
  rx (plus (Chr p)) s cs k = Some res ->
  exists c pre post, s = c :: pre ++ post /\ p c = true
                     /\ forallb p pre = true /\ k post cs = Some res.
Proof.
  unfold plus. rewrite rx_cat. destruct s as [|c s]; [discriminate|].
  rewrite rx_chr. destruct (p c) eqn:Hc; [|discriminate].
  rewrite rx_star. intros H.
  apply star_class_inv in H as (pre & post & -> & Hpre & Hk).
  now exists c, pre, post.
Qed.

(** A group over a run of a class captures that run. *)
Lemma group_plus_class_inv (p : N -> bool) (n : nat) (k : cont) (s : jsstring)
    (cs : captures) (res : jsstring * captures) :
  rx (Group n (plus (Chr p))) s cs k = Some res ->
  exists c pre post, s = c :: pre ++ post /\ p c = true
    /\ forallb p pre = true /\ k post ((n, c :: pre) :: cs) = Some res.
Proof.
  cbn [rx]. intros H.
  apply (plus_class_inv p) in H as (c & pre & post & -> & Hc & Hpre & Hk).
  exists c, pre, post. repeat split; try assumption.
  change (c :: pre ++ post) with ((c :: pre) ++ post) in Hk.
  now rewrite firstn_self in Hk.
Qed.

Lemma spaces_inv (k : cont) (s : jsstring) (cs : captures)
    (res : jsstring * captures) :
  rx spaces s cs k = Some res ->
  exists post, suffix_of post s /\ k post cs = Some res.
Proof.
  unfold spaces. rewrite rx_star. intros H.
  apply star_class_inv in H as (pre & post & -> & _ & Hk).
  exists post. split; [now exists pre | exact Hk].
Qed.

Lemma chr_inv (c0 : N) (k : cont) (s : jsstring) (cs : captures)
    (res : jsstring * captures) :
  rx (chr c0) s cs k = Some res -> exists s', s = c0 :: s' /\ k s' cs = Some res.
Proof.
  unfold chr. destruct s as [|c s]; [discriminate|]. rewrite rx_chr.
  destruct (N.eqb_spec c0 c) as [->|_]; [|discriminate].
  intros H. now exists s.
Qed.

(* ================================================================== *)
(** * The replacements *)
(* ================================================================== *)

Lemma replace2_step (a b : N) (rep : jsstring) (x y : N) (rest : jsstring) :
  replace2 a b rep (x :: y :: rest) =
  if ((x =? a) && (y =? b))%N then rep ++ replace2 a b rep rest
  else x :: replace2 a b rep (y :: rest).
Proof. reflexivity. Qed.

Lemma replace2_absent_le (a b : N) (rep : jsstring) (n : nat) :
  forall s, length s <= n -> ~ In b s -> replace2 a b rep s = s.
Proof.
  induction n as [|n IH]; intros s Hn Hb.
  - destruct s; [reflexivity | simpl in Hn; lia].
  - destruct s as [|x [|y rest]]; try reflexivity.
    rewrite replace2_step.
    destruct (N.eqb_spec y b) as [->|_].
    + exfalso. apply Hb. right. now left.
    + rewrite andb_false_r. f_equal. apply IH.
      * simpl in *. lia.
      * intros H. apply Hb. now right.
Qed.

Lemma replace2_absent (a b : N) (rep s : jsstring) :
  ~ In b s -> replace2 a b rep s = s.
Proof. apply (replace2_absent_le a b rep (length s)). lia. Qed.

Lemma replace2_members_le (a b : N) (rep : jsstring) (c : N) (n : nat) :
  forall s, length s <= n -> In c (replace2 a b rep s) -> In c rep \/ In c s.
Proof.
  induction n as [|n IH]; intros s Hn.
  - destruct s; [intros [] | simpl in Hn; lia].
  - destruct s as [|x [|y rest]]; [intros [] | now right |].
    rewrite replace2_step. destruct ((x =? a)%N && (y =? b)%N).
    + intros H. apply in_app_or in H as [H|H]; [now left|].
      apply IH in H as [H|H]; [now left | right; now do 2 right |].
      simpl in *. lia.
    + intros [H|H]; [right; now left|].
      apply IH in H as [H|H]; [now left | right; now right |].
      simpl in *. lia.
Qed.

Lemma replace2_members (a b : N) (rep s : jsstring) (c : N) :
  In c (replace2 a b rep s) -> In c rep \/ In c s.
Proof. apply (replace2_members_le a b rep c (length s)). lia. Qed.

(** X10.  The content that the second delta takes from the raw data with
    the pattern for a quoted content field stops at the first double quote,
    escaped or not: the captured text is not empty and holds no double
    quote, so of the two replacements applied to it only the one for the
    escaped line feed can change it. *)
Theorem quoted_content_stops_at_quote (eventData : jsstring) (dataObj : json)
    (m : match_result) :
  exec contentPattern eventData = Some m ->
  exists g, group 1 m = Some g /\ g <> [] /\ ~ In 34%N g
    /\ extractedContent eventData dataObj = JStr (replace2 92 110 LF g).
Proof.
  intros Hm. pose proof Hm as Hm0.
  apply exec_from_some in Hm as (t & all & rest & _ & H & _).
  unfold match_here in H.
  destruct (rx contentPattern t [] accept) as [[rest' cs]|] eqn:R;
    [|discriminate].
  injection H as _ _ Hcs. unfold contentPattern in R. cbn [seq] in R.
  rewrite rx_cat, rx_lit in R.
  destruct (startsWith _ t); [|discriminate].
  rewrite rx_cat in R. apply spaces_inv in R as (s1 & _ & R).
  rewrite rx_cat in R. apply chr_inv in R as (s2 & _ & R).
  rewrite rx_cat in R. apply spaces_inv in R as (s3 & _ & R).
  rewrite rx_cat in R. apply chr_inv in R as (s4 & _ & R).
  rewrite rx_cat in R.
  apply group_plus_class_inv in R as (c & pre & post & _ & Hc & Hpre & R).
  apply chr_inv in R as (s5 & _ & R). unfold accept in R.
  injection R as _ <-.
  assert (Hg : group 1 m = Some (c :: pre))
    by (unfold group; now rewrite <- Hcs).
  assert (Hno : ~ In 34%N (c :: pre)).
  { intros [E|Hin]; [subst c; vm_compute in Hc; discriminate Hc|].
    rewrite forallb_forall in Hpre. apply Hpre in Hin.
    vm_compute in Hin. discriminate Hin. }
  exists (c :: pre). split; [exact Hg|]. split; [discriminate|].
  split; [exact Hno|].
  unfold extractedContent. rewrite Hm0, Hg. cbn [truthy_str is_empty negb].
  unfold unescape_nq. f_equal. apply replace2_absent.
  intros Hin. apply replace2_members in Hin as [Hin|Hin];
    [vm_compute in Hin; intuition discriminate | now apply Hno].
Qed.


(* ================================================================== *)
(** * The day count *)
(* ================================================================== *)

Lemma not_includes_char (c : N) (s : jsstring) :
  includes [c] s = false -> ~ In c s.
Proof.
  intros H Hin. apply in_split in Hin as (a & b & ->).
  rewrite includes_char in H. discriminate.
Qed.

Lemma split_acc_parts (c : N) (s cur : jsstring) :
  ~ In c cur -> Forall (fun p => ~ In c p) (split_acc c cur s).
Proof.
  revert cur; induction s as [|x s IH]; intros cur Hcur; cbn [split_acc].
  - constructor; [|constructor]. intros H. now apply in_rev in H.
  - destruct (N.eqb_spec x c) as [->|Hx].
    + constructor; [intros H; now apply in_rev in H|].
      apply IH. intros [].
    + apply IH. intros [H|H]; [now apply Hx | now apply Hcur].
Qed.

Lemma trimStart_members (c : N) (s : jsstring) : In c (trimStart s) -> In c s.
Proof.
  destruct (trimStart_suffix s) as [p Hp]. intros H. rewrite Hp.
  apply in_or_app. now right.
Qed.

Lemma trim_members (c : N) (s : jsstring) : In c (trim s) -> In c s.
Proof.
  unfold trim, trimEnd. intros H. apply in_rev in H.
  apply trimStart_members in H. apply in_rev in H.
  now apply trimStart_members.
Qed.

(** Without a minus sign [parseInt] reads no negative number. *)
Lemma parseInt_unsigned (s : jsstring) (v : Z) :
  ~ In 45%N s -> parseInt s = Some v -> (0 <= v)%Z.
Proof.
  intros Hs. assert (Ht : ~ In 45%N (trimStart s))
    by (intros H; now apply Hs, trimStart_members).
  unfold parseInt. destruct (trimStart s) as [|x r].
  - cbn. discriminate.
  - assert (Hx : x <> 45%N) by (intros ->; apply Ht; now left).
    destruct x as [|p];
      [|do 6 (try (destruct p as [p|p|]))];
      try (now elim Hx);
      cbv beta iota zeta;
      match goal with
      | |- match ?m with _ => _ end = _ -> _ =>
          destruct m; intros H; inversion H; lia
      end.
Qed.

Lemma or_3_positive (n : option Z) :
  match n with Some v => (0 <= v)%Z | None => True end -> (1 <= or_3 n)%Z.
Proof.
  destruct n as [v|]; cbn [or_3]; [|lia].
  destruct (Z.eqb_spec v 0); lia.
Qed.

Lemma parse_days_positive (params : TravelParams) : (1 <= parse_days params)%Z.
Proof.
  unfold parse_days. change (js "-") with [45%N].
  destruct (includes [45%N] (days params)) eqn:Ei.
  - pose proof (split_acc_parts 45 (days params) [] (fun H => H)) as Hparts.
    unfold split_char.
    destruct (split_acc 45 [] (days params)) as [|a [|b rest]];
      cbn [List.map]; try lia.
    inversion Hparts as [|? ? _ Hrest]; subst.
    inversion Hrest as [|? ? Hb _]; subst.
    apply or_3_positive. destruct (parseInt b) as [v|] eqn:E; [|exact I].
    exact (parseInt_unsigned b v Hb E).
  - apply or_3_positive.
    destruct (parseInt (days params)) as [v|] eqn:E; [|exact I].
    exact (parseInt_unsigned _ v (not_includes_char _ _ Ei) E).
Qed.

(** X11.  The day count is always a positive integer: a missing, zero or
    unreadable number gives 3, and no input gives zero or a negative count
    (a minus sign is taken as the separator of a range). *)
Theorem day_count_is_positive (params : TravelParams) :
  (1 <= parse_days params)%Z
  /\ forall cozeText,
       (1 <= it_days (parseCozeResponseToItinerary cozeText params))%Z.
Proof.
  split; [apply parse_days_positive|].
  intros cozeText. unfold parseCozeResponseToItinerary.
  destruct (split_sections cozeText) as [[title plan] highlights].
  apply parse_days_positive.
Qed.


(* ================================================================== *)
(** * The destination *)
(* ================================================================== *)

Lemma lit_inv (w : jsstring) (k : cont) (s : jsstring) (cs : captures)
    (res : jsstring * captures) :
  rx (lit w) s cs k = Some res -> exists s', s = w ++ s' /\ k s' cs = Some res.
Proof.
  rewrite rx_lit. destruct (startsWith w s) eqn:E; [|discriminate].
  apply startsWith_prefix in E as [s' ->]. rewrite skipn_self.
  intros H. now exists s'.
Qed.

Lemma alt_inv (a b : regex) (k : cont) (s : jsstring) (cs : captures)
    (res : jsstring * captures) :
  rx (Alt a b) s cs k = Some res ->
  rx a s cs k = Some res \/ rx b s cs k = Some res.
Proof.
  cbn [rx]. destruct (rx a s cs k) as [x|]; [left | right]; assumption.
Qed.

Lemma rx_group (n : nat) (a : regex) (s : jsstring) (cs : captures) (k : cont) :
  rx (Group n a) s cs k =
  rx a s cs (fun s1 c1 => k s1 ((n, firstn (length s - length s1) s) :: c1)).
Proof. reflexivity. Qed.

Lemma colon_inv (k : cont) (s : jsstring) (cs : captures)
    (res : jsstring * captures) :
  rx colon s cs k = Some res -> exists c s', s = c :: s' /\ k s' cs = Some res.
Proof.
  unfold colon. destruct s as [|c s]; [discriminate|]. rewrite rx_chr.
  destruct (_ || _); [|discriminate]. intros H. now exists c, s.
Qed.

Lemma in_class_false (members : jsstring) (c : N) :
  in_class members c = false <-> ~ In c members.
Proof.
  unfold in_class. split.
  - intros H Hin. assert (E : existsb (N.eqb c) members = true); [|congruence].
    apply existsb_exists. exists c. split; [exact Hin | apply N.eqb_refl].
  - intros H. destruct (existsb (N.eqb c) members) eqn:E; [|reflexivity].
    apply existsb_exists in E as (x & Hx & E). apply N.eqb_eq in E. now subst x.
Qed.

(** The destination after the marker: a run of characters other than the
    line feed, the comma and the full stop. *)
Lemma marked_destination (cozeText : jsstring) (m : match_result) :
  exec destinationRegex cozeText = Some m ->
  exists g, group 1 m = Some g
    /\ forall c, In c g -> in_class (LF ++ js ",.，。") c = false.
Proof.
  intros Hm. apply exec_from_some in Hm as (t & all & rest & _ & H & _).
  unfold match_here in H.
  destruct (rx destinationRegex t [] accept) as [[rest' cs]|] eqn:R;
    [|discriminate].
  injection H as _ _ Hcs. unfold destinationRegex in R. cbn [seq] in R.
  rewrite rx_cat in R. apply lit_inv in R as (s1 & _ & R).
  rewrite rx_cat in R. apply colon_inv in R as (c1 & s2 & _ & R).
  rewrite rx_cat in R. apply spaces_inv in R as (s3 & _ & R).
  apply group_plus_class_inv in R as (c & pre & post & _ & Hc & Hpre & R).
  unfold accept in R. injection R as _ <-.
  exists (c :: pre). split; [unfold group; now rewrite <- Hcs|].
  intros x [<-|Hx].
  - now apply negb_true_iff in Hc.
  - rewrite forallb_forall in Hpre. apply Hpre in Hx.
    now apply negb_true_iff in Hx.
Qed.

(** The place name of the title: a run of characters other than the comma
    and the full stop, and one of the five endings. *)
Lemma located_destination (title : jsstring) (m : match_result) :
  exec locationRegex title = Some m ->
  exists g, group 1 m = Some g
    /\ forall c, In c g -> in_class (js "，。,.") c = false.
Proof.
  intros Hm. apply exec_from_some in Hm as (t & all & rest & _ & H & _).
  unfold match_here in H.
  destruct (rx locationRegex t [] accept) as [[rest' cs]|] eqn:R;
    [|discriminate].
  injection H as _ _ Hcs. unfold locationRegex in R.
  rewrite rx_group in R. cbn [seq] in R. rewrite rx_cat in R.
  apply plus_class_inv in R as (c & pre & post & Ht & Hc & Hpre & R).
  assert (Hend : exists w rest0,
            post = w ++ rest0
            /\ (forall x, In x w -> in_class (js "，。,.") x = false)
            /\ cs = [(1, firstn (length t - length rest0) t)]).
  { repeat (apply alt_inv in R as [R|R]);
      apply lit_inv in R as (s' & Hs & R); unfold accept in R;
      injection R as _ <-; eexists; exists s';
      (split; [exact Hs|]); (split; [|reflexivity]);
      intros x Hx; vm_compute in Hx; intuition (subst x; reflexivity). }
  destruct Hend as (w & rest0 & Hpost & Hw & ->).
  exists (c :: pre ++ w). split.
  - unfold group. rewrite <- Hcs. cbn [capture Nat.eqb]. f_equal.
    rewrite Ht, Hpost.
    replace (c :: pre ++ w ++ rest0) with ((c :: pre ++ w) ++ rest0)
      by (cbn [app]; now rewrite <- app_assoc).
    apply firstn_self.
  - intros x [<-|Hx].
    + now apply negb_true_iff in Hc.
    + apply in_app_or in Hx as [Hx|Hx]; [|now apply Hw].
      rewrite forallb_forall in Hpre. apply Hpre in Hx.
      now apply negb_true_iff in Hx.
Qed.

(** X12.  The destination of an itinerary never holds a comma or a full
    stop, half-width or full-width, whichever of the four ways it was
    obtained: after the marker [目的地:], as a place name of the title, as
    the first ten characters of the title, or as the default. *)
Theorem destination_has_no_comma_or_full_stop :
  (forall cozeText title c,
     In c (infer_destination cozeText title) -> in_class (js "，。,.") c = false)
  /\ (forall cozeText params c,
        In c (it_destination (parseCozeResponseToItinerary cozeText params)) ->
        in_class (js "，。,.") c = false).
Proof.
  assert (H : forall cozeText title c,
    In c (infer_destination cozeText title) -> in_class (js "，。,.") c = false).
  { intros cozeText title c. unfold infer_destination.
    destruct (exec destinationRegex cozeText) as [m|] eqn:Em.
    - destruct (marked_destination cozeText m Em) as (g & Hg & Hclass).
      rewrite Hg. destruct (truthy_str g).
      + intros Hin. apply trim_members, Hclass in Hin.
        apply in_class_false. apply in_class_false in Hin.
        intros Hc. apply Hin. vm_compute in Hc. vm_compute. tauto.
      + destruct (exec locationRegex title) as [m2|] eqn:Em2.
        * destruct (located_destination title m2 Em2) as (g2 & Hg2 & Hc2).
          rewrite Hg2. apply Hc2.
        * destruct (0 <? length title).
          -- unfold remove_class. intros Hin. apply filter_In in Hin as [_ Hin].
             now apply negb_true_iff in Hin.
          -- intros Hin. vm_compute in Hin. intuition (subst c; reflexivity).
    - destruct (exec locationRegex title) as [m2|] eqn:Em2.
      + destruct (located_destination title m2 Em2) as (g2 & Hg2 & Hc2).
        rewrite Hg2. apply Hc2.
      + destruct (0 <? length title).
        * unfold remove_class. intros Hin. apply filter_In in Hin as [_ Hin].
          now apply negb_true_iff in Hin.
        * intros Hin. vm_compute in Hin. intuition (subst c; reflexivity). }
  split; [exact H|].
  intros cozeText params c. unfold parseCozeResponseToItinerary.
  destruct (split_sections cozeText) as [[title plan] highlights].
  cbn [it_destination]. apply H.
Qed.

(* ================================================================== *)
(** * The cascade on lines *)
(* ================================================================== *)


Lemma join_cons (sep p : jsstring) (ps : list jsstring) :
  ps <> [] -> join sep (p :: ps) = p ++ sep ++ join sep ps.
Proof. destruct ps; [intros H; now elim H | reflexivity]. Qed.


Lemma split_no_line_feed (text : jsstring) :
  ~ In 10%N text -> length (split paragraphRegex text) = 1.
Proof.
  intros Hno. unfold split. destruct text as [|c s] eqn:E; [reflexivity|].
  rewrite <- E. rewrite <- E in Hno.
  pose proof (split_loop_walk text [] [] (S (length text + 1)) Hno) as Hw.
  rewrite app_nil_r in Hw.
  replace (2 * length text + 2) with (length text + S (length text + 1)) by lia.
  rewrite Hw. reflexivity.
Qed.

Lemma cascade_taken (text : jsstring) :
  anchored_sections text = ([], [], []) ->
  split_sections text = fallback_sections text.
Proof. intros H. unfold split_sections. now rewrite H. Qed.


(** X14.  When the cascade is applied to a text without any line feed, the
    whole text becomes the plan, and the title and the highlights are the
    two fixed placeholders. *)
Theorem single_line_text_becomes_the_plan (text : jsstring) :
  ~ In 10%N text ->
  anchored_sections text = ([], [], []) ->
  split_sections text = (js "你的旅行计划", text, js "根据AI生成").
Proof.
  intros Hno Hanch. rewrite (cascade_taken text Hanch).
  unfold fallback_sections. rewrite (split_no_line_feed text Hno).
  unfold split_char. rewrite (split_acc_plain 10%N [] text Hno).
  reflexivity.
Qed.


(* ================================================================== *)
(** * The requested format *)
(* ================================================================== *)

Lemma blank_not_dark (h : N) (ws : jsstring) :
  blank ws -> is_space h = false -> ~ In h ws.
Proof.
  unfold blank. rewrite forallb_forall. intros H Hh Hin.
  apply H in Hin. congruence.
Qed.

Lemma trim_trailing (x ws : jsstring) :
  starts_dark x = true -> ends_dark x = true -> blank ws -> trim (x ++ ws) = x.
Proof.
  intros Hs He Hws. unfold trim, trimEnd.
  assert (H1 : forall y, starts_dark y = true -> trimStart y = y).
  { intros [|c y]; [discriminate|]. cbn [starts_dark trimStart].
    intros H. apply negb_true_iff in H. now rewrite H. }
  rewrite (H1 (x ++ ws)) by (now apply starts_dark_app).
  rewrite rev_app_distr, trimStart_spaces.
  - rewrite (H1 (rev x) He). apply rev_involutive.
  - unfold blank in Hws. rewrite forallb_forall in *.
    intros c Hc. apply Hws. now apply in_rev.
Qed.

(** The pattern of a section on a text that shows the header, a colon,
    white space and a section text after which alone [K] succeeds. *)
Lemma section_match_spaced (H : jsstring) (K : regex) (c : N)
    (ws A tail rest : jsstring) (cs' : captures) :
  is_colon c = true -> blank ws -> starts_dark A = true ->
  (forall q' q c0, A = q' ++ q -> q <> [] -> rx K (q ++ tail) c0 accept = None) ->
  rx K tail [(1, A)] accept = Some (rest, cs') ->
  rx (seq [lit H; colon; spaces; Group 1 any_lazy; K])
     (H ++ [c] ++ ws ++ A ++ tail) [] accept = Some (rest, cs').
Proof.
  intros Hc Hws Hdark Hmiss Hk. cbn [seq].
  rewrite rx_cat, rx_lit, startsWith_self, skipn_self.
  cbn [app]. rewrite rx_cat. unfold colon at 1. rewrite rx_chr.
  cbv beta. fold (is_colon c). rewrite Hc.
  rewrite rx_cat. unfold spaces. rewrite rx_star.
  apply spaces_take.
  - exact Hws.
  - rewrite length_app. lia.
  - now apply starts_dark_app.
  - rewrite rx_cat, rx_group. unfold any_lazy. rewrite rx_star.
    apply lazy_any_first.
    + rewrite length_app. lia.
    + intros q' q Hq Hne. now apply (Hmiss q' q).
    + rewrite firstn_self. exact Hk.
Qed.

Lemma lookahead_spaced (w : jsstring) (c : N) (ws tail : jsstring)
    (cs : captures) :
  is_colon c = true -> blank ws -> starts_dark w = true ->
  rx (Ahead (seq [spaces; lit w; colon])) (ws ++ w ++ [c] ++ tail) cs accept
  = Some (ws ++ w ++ [c] ++ tail, cs).
Proof.
  intros Hc Hws Hw. cbn [seq rx]. unfold spaces. cbn [rx].
  rewrite (spaces_take _ ws (w ++ [c] ++ tail) cs _ (tail, cs));
    try reflexivity.
  - exact Hws.
  - rewrite length_app. lia.
  - now apply starts_dark_app.
  - rewrite rx_lit, startsWith_self, skipn_self. cbn [app].
    unfold colon. rewrite rx_chr. cbv beta. fold (is_colon c). now rewrite Hc.
Qed.

Section RequestedFormat.
Variables (preamble : jsstring) (s1 s2 s3 : section_layout).
Hypothesis laid1 : well_laid s1.
Hypothesis laid2 : well_laid s2.
Hypothesis laid3 : well_laid s3.
Hypothesis preamble_1 : ~ In 26053%N preamble.
Hypothesis preamble_2 : ~ In 34892%N preamble.

Lemma colon_is_not (h : N) (c : N) :
  is_colon c = true -> is_colon h = false -> c <> h.
Proof. intros Hc Hh ->. congruence. Qed.

Lemma written_without (h : N) (s : section_layout) :
  well_laid s -> is_colon h = false -> is_space h = false ->
  ~ In h (sl_body s) -> ~ In h (written s).
Proof.
  intros (Hc & Hb & _ & Ha) Hh Hs Hbody. unfold written. intros Hin.
  apply in_app_or in Hin as [[E|[]]|Hin];
    [exact (colon_is_not h _ Hc Hh E)|].
  apply in_app_or in Hin as [Hin|Hin]; [exact (blank_not_dark h _ Hb Hs Hin)|].
  apply in_app_or in Hin as [Hin|Hin]; [now apply Hbody|].
  exact (blank_not_dark h _ Ha Hs Hin).
Qed.

Lemma requested_title :
  extract_section titleRegex (requested_format preamble s1 s2 s3) = sl_body s1.
Proof.
  destruct laid1 as (Hc1 & Hb1 & HA & Ha1).
  destruct laid2 as (Hc2 & _).
  destruct HA as (HsA & HeA & HA).
  destruct (plain_no_initial (sl_body s1) (conj HsA (conj HeA HA))) as [_ HnA].
  set (tail := sl_after s1 ++ js "行程规划" ++ [sl_colon s2]
               ++ (sl_before s2 ++ sl_body s2 ++ sl_after s2)
               ++ js "旅行红黑榜" ++ written s3).
  assert (Htext : requested_format preamble s1 s2 s3
    = preamble ++ js "旅行推荐" ++ [sl_colon s1] ++ sl_before s1
      ++ sl_body s1 ++ tail).
  { unfold requested_format, written, tail. now rewrite <- !app_assoc. }
  rewrite Htext.
  assert (Hexec : exists m,
    exec titleRegex (preamble ++ js "旅行推荐" ++ [sl_colon s1] ++ sl_before s1
                     ++ sl_body s1 ++ tail) = Some m
    /\ m_groups m = [(1, sl_body s1)]).
  { unfold exec, titleRegex. cbn [seq].
    change (lit (js "旅行推荐")) with (lit (26053%N :: js "行推荐")).
    rewrite exec_from_skip by exact preamble_1.
    change (lit (26053%N :: js "行推荐")) with (lit (js "旅行推荐")).
    apply (exec_from_hit _ _ _ tail).
    apply (section_match_spaced (js "旅行推荐")); try assumption.
    - intros q' q c0 Hq Hne.
      exact (lookahead_inside 34892 (js "程规划") (sl_body s1) q' q tail c0
               HeA HnA Hq Hne).
    - unfold tail. apply lookahead_spaced; [exact Hc2 | exact Ha1 | reflexivity]. }
  destruct Hexec as (m & Hm & Hg).
  exact (extract_section_group titleRegex _ _ m Hm Hg HsA HeA).
Qed.

Lemma requested_plan :
  extract_section planRegex (requested_format preamble s1 s2 s3) = sl_body s2.
Proof.
  destruct laid2 as (Hc2 & Hb2 & HB & Ha2).
  destruct laid3 as (Hc3 & _).
  destruct HB as (HsB & HeB & HB).
  destruct (plain_no_initial (sl_body s2) (conj HsB (conj HeB HB))) as [HnB _].
  assert (Hn1 : ~ In 34892%N (written s1)).
  { apply written_without; try assumption; try reflexivity.
    destruct laid1 as (_ & _ & HA & _).
    exact (proj2 (plain_no_initial _ HA)). }
  set (tail := sl_after s2 ++ js "旅行红黑榜" ++ [sl_colon s3]
               ++ sl_before s3 ++ sl_body s3 ++ sl_after s3).
  assert (Htext : requested_format preamble s1 s2 s3
    = preamble ++ js "旅行推荐" ++ written s1
      ++ js "行程规划" ++ [sl_colon s2] ++ sl_before s2 ++ sl_body s2 ++ tail).
  { unfold requested_format, written, tail. now rewrite <- !app_assoc. }
  rewrite Htext.
  assert (Hexec : exists m,
    exec planRegex (preamble ++ js "旅行推荐" ++ written s1
      ++ js "行程规划" ++ [sl_colon s2] ++ sl_before s2 ++ sl_body s2 ++ tail)
    = Some m /\ m_groups m = [(1, sl_body s2)]).
  { unfold exec, planRegex. cbn [seq].
    change (lit (js "行程规划")) with (lit (34892%N :: js "程规划")).
    rewrite exec_from_skip by exact preamble_2.
    change (lit (34892%N :: js "程规划")) with (lit (js "行程规划")).
    change (js "旅行推荐" ++ written s1 ++ js "行程规划" ++ [sl_colon s2]
            ++ sl_before s2 ++ sl_body s2 ++ tail)
      with (26053 :: 34892 :: 25512 :: 33616 :: written s1
            ++ js "行程规划" ++ [sl_colon s2]
            ++ sl_before s2 ++ sl_body s2 ++ tail)%N.
    rewrite !exec_from_miss by reflexivity.
    change (lit (js "行程规划")) with (lit (34892%N :: js "程规划")).
    rewrite exec_from_skip by exact Hn1.
    change (lit (34892%N :: js "程规划")) with (lit (js "行程规划")).
    apply (exec_from_hit _ _ _ tail).
    apply (section_match_spaced (js "行程规划")); try assumption.
    - intros q' q c0 Hq Hne.
      exact (lookahead_inside 26053 (js "行红黑榜") (sl_body s2) q' q tail c0
               HeB HnB Hq Hne).
    - unfold tail. apply lookahead_spaced; [exact Hc3 | exact Ha2 | reflexivity]. }
  destruct Hexec as (m & Hm & Hg).
  exact (extract_section_group planRegex _ _ m Hm Hg HsB HeB).
Qed.

Lemma requested_highlights :
  extract_section highlightsRegex (requested_format preamble s1 s2 s3)
  = sl_body s3.
Proof.
  destruct laid3 as (Hc3 & Hb3 & HC & Ha3).
  destruct HC as (HsC & HeC & HC).
  assert (Hn1 : ~ In 26053%N (written s1)).
  { apply written_without; try assumption; try reflexivity.
    destruct laid1 as (_ & _ & HA & _).
    exact (proj1 (plain_no_initial _ HA)). }
  assert (Hn2 : ~ In 26053%N (written s2)).
  { apply written_without; try assumption; try reflexivity.
    destruct laid2 as (_ & _ & HB & _).
    exact (proj1 (plain_no_initial _ HB)). }
  assert (Htext : requested_format preamble s1 s2 s3
    = preamble ++ js "旅行推荐" ++ written s1 ++ js "行程规划" ++ written s2
      ++ js "旅行红黑榜" ++ [sl_colon s3] ++ sl_before s3
      ++ (sl_body s3 ++ sl_after s3) ++ []).
  { unfold requested_format, written. now rewrite <- !app_assoc, app_nil_r. }
  rewrite Htext.
  assert (Hexec : exists m,
    exec highlightsRegex
      (preamble ++ js "旅行推荐" ++ written s1 ++ js "行程规划" ++ written s2
       ++ js "旅行红黑榜" ++ [sl_colon s3] ++ sl_before s3
       ++ (sl_body s3 ++ sl_after s3) ++ []) = Some m
    /\ m_groups m = [(1, sl_body s3 ++ sl_after s3)]).
  { unfold exec, highlightsRegex. cbn [seq].
    change (lit (js "旅行红黑榜")) with (lit (26053%N :: js "行红黑榜")).
    rewrite exec_from_skip by exact preamble_1.
    change (lit (26053%N :: js "行红黑榜")) with (lit (js "旅行红黑榜")).
    match goal with
    | |- context [exec_from ?r ?i (js "旅行推荐" ++ ?rest1)] =>
        change (js "旅行推荐" ++ rest1)
          with (26053 :: 34892 :: 25512 :: 33616 :: rest1)%N
    end.
    rewrite !exec_from_miss by reflexivity.
    change (lit (js "旅行红黑榜")) with (lit (26053%N :: js "行红黑榜")).
    rewrite exec_from_skip by exact Hn1.
    rewrite exec_from_skip by (vm_compute; intuition discriminate).
    rewrite exec_from_skip by exact Hn2.
    change (lit (26053%N :: js "行红黑榜")) with (lit (js "旅行红黑榜")).
    apply (exec_from_hit _ _ _ []).
    apply (section_match_spaced (js "旅行红黑榜")); try assumption.
    - now apply starts_dark_app.
    - intros q' q c0 Hq Hne. destruct q; [now elim Hne | reflexivity].
    - reflexivity. }
  destruct Hexec as (m & Hm & Hg).
  unfold extract_section, group. rewrite Hm, Hg.
  cbn [capture Nat.eqb].
  destruct (sl_body s3) as [|c C] eqn:E; [discriminate HsC|].
  cbn [app truthy_str is_empty negb]. rewrite <- E in *.
  change (c :: C ++ sl_after s3) with ((c :: C) ++ sl_after s3).
  rewrite <- E. now apply trim_trailing.
Qed.

Lemma requested_sections :
  split_sections (requested_format preamble s1 s2 s3)
  = (sl_body s1, sl_body s2, sl_body s3).
Proof.
  unfold split_sections, anchored_sections.
  rewrite requested_title, requested_plan, requested_highlights.
  destruct laid1 as (_ & _ & (HsA & _) & _).
  destruct (sl_body s1); [discriminate | reflexivity].
Qed.

End RequestedFormat.

(** X15.  A response written in the format that the prompt asks for is
    split into its three sections: after an introduction that holds
    neither [旅] nor [行], each header is followed by a half-width or
    full-width colon, by any white space (line feeds, indentation), by the
    section text, and by any white space; the section texts are plain
    (they start and end on a character that is not white space and hold
    neither [旅] nor [行]).  The title, the plan and the highlights are
    exactly the three section texts. *)
Theorem requested_format_is_split_into_its_sections
    (preamble : jsstring) (s1 s2 s3 : section_layout) :
  well_laid s1 -> well_laid s2 -> well_laid s3 ->
  ~ In 26053%N preamble -> ~ In 34892%N preamble ->
  split_sections (requested_format preamble s1 s2 s3)
  = (sl_body s1, sl_body s2, sl_body s3).
Proof. apply requested_sections. Qed.


Example iso_date_examples :
  iso_date 0 = js "1970-01-01"
  /\ iso_date (-1) = js "1969-12-31"
  /\ iso_date 951782400000 = js "2000-02-29"
  /\ iso_date 951868799999 = js "2000-02-29"
  /\ iso_date 951868800000 = js "2000-03-01"
  /\ iso_date 1735689599999 = js "2024-12-31"
  /\ iso_date 1762000000000 = js "2025-11-01"
  /\ iso_date 4102444800000 = js "2100-01-01"
  /\ iso_date 4107456000000 = js "2100-02-28"
  /\ iso_date 4107542400000 = js "2100-03-01"
  /\ iso_date 253402300799999 = js "9999-12-31"
  /\ iso_date 253402300800000 = js "+010000-01-01"
  /\ iso_date (-62167219200000) = js "0000-01-01"
  /\ iso_date (-62167219200001) = js "-000001-12-31"
  /\ iso_date 8640000000000000 = js "+275760-09-13"
  /\ iso_date (-8640000000000000) = js "-271821-04-20".
Proof. vm_compute. repeat split. Qed.


(* ================================================================== *)
(** * The clock *)
(* ================================================================== *)

Section ClockFacts.
Context {host : HostRuntime} {proto : PrototypeText}.
Variable now : nat -> Z.

Lemma date_from_now_reads (offset : Z) (n : nat) :
  Route.date_from_now now offset n =
  (if valid_time (now n + offset) then Returned (iso_date (now n + offset))
   else Raised RangeError, S n).
Proof.
  unfold Route.date_from_now, Route.bindM, Route.Date_now, Route.date_of.
  destruct (valid_time (now n + offset)); reflexivity.
Qed.

Lemma iso_date_days_later (t k : Z) :
  iso_date (t + k * msPerDay) = iso_day (Day t + k).
Proof.
  unfold iso_date, Day. f_equal. apply Z.div_add. discriminate.
Qed.

(** A loop whose turns each read the clock once. *)
Lemma mapM_reads (A B : Type) (f : A -> Route.M B) :
  (forall a n, snd (f a n) = S n) ->
  forall (l : list A) (n : nat) (bs : list B) (n' : nat),
    Route.mapM f l n = (Returned bs, n') ->
    n' = n + length l /\ length bs = length l
    /\ forall i a, nth_error l i = Some a ->
         exists b, nth_error bs i = Some b /\ fst (f a (n + i)) = Returned b.
Proof.
  intros Hf l. induction l as [|a l IH]; intros n bs n'.
  - cbn. intros H. injection H as <- <-. repeat split; [lia|].
    intros [|i] a H; discriminate.
  - cbn [Route.mapM]. unfold Route.bindM at 1.
    pose proof (Hf a n) as Hn. destruct (f a n) as [[b|x] n1] eqn:Ea;
      [|discriminate]. cbn [snd] in Hn. subst n1.
    unfold Route.bindM at 1.
    destruct (Route.mapM f l (S n)) as [[bs'|x] n2] eqn:El; [|discriminate].
    unfold Route.ret. intros H. injection H as <- <-.
    destruct (IH (S n) bs' n2 El) as (Hn2 & Hlen & Hnth).
    split; [cbn [length]; lia|]. split; [cbn [length]; lia|].
    intros [|i] a0 Ha0.
    + injection Ha0 as <-. exists b. rewrite Nat.add_0_r, Ea. auto.
    + destruct (Hnth i a0 Ha0) as (b0 & Hb0 & Hfb). exists b0.
      split; [exact Hb0|]. now replace (n + S i) with (S n + i) by lia.
Qed.

Lemma mapM_returns (A B : Type) (f : A -> Route.M B) (l : list A) :
  (forall a n, In a l -> exists b, f a n = (Returned b, S n)) ->
  forall n, exists bs, Route.mapM f l n = (Returned bs, n + length l).
Proof.
  induction l as [|a l IH]; intros Hf n.
  - exists []. cbn. now rewrite Nat.add_0_r.
  - destruct (Hf a n (or_introl eq_refl)) as [b Hb].
    destruct (IH (fun a0 n0 H => Hf a0 n0 (or_intror H)) (S n)) as [bs Hbs].
    exists (b :: bs). cbn [Route.mapM]. unfold Route.bindM, Route.ret.
    rewrite Hb, Hbs. cbn [length]. f_equal. lia.
Qed.

Lemma mapM_raises (A B : Type) (f : A -> Route.M B) (l : list A) (a : A)
    (x : exception) :
  (forall n, fst (f a n) = Raised x) ->
  forall n, exists n', Route.mapM f (a :: l) n = (Raised x, n').
Proof.
  intros Hf n. cbn [Route.mapM]. unfold Route.bindM at 1.
  specialize (Hf n). destruct (f a n) as [[b|y] n1]; cbn [fst] in Hf;
    [discriminate|]. injection Hf as ->. now exists n1.
Qed.

End ClockFacts.


Lemma it_days_parsed (cozeText : jsstring) (params : TravelParams) :
  it_days (parseCozeResponseToItinerary cozeText params) = parse_days params.
Proof.
  unfold parseCozeResponseToItinerary.
  now destruct (split_sections cozeText) as [[title plan] highlights].
Qed.

Lemma nth_error_seq_inv (start len i a : nat) :
  nth_error (List.seq start len) i = Some a -> a = start + i /\ i < len.
Proof.
  intros H. assert (Hi : i < len).
  { assert (Hl : i < length (List.seq start len))
      by (apply nth_error_Some; congruence).
    now rewrite length_seq in Hl. }
  split; [|exact Hi].
  rewrite (nth_error_nth' _ 0) in H by (now rewrite length_seq).
  rewrite seq_nth in H by exact Hi. now injection H.
Qed.

Section DatedFacts.
Context {host : HostRuntime} {proto : PrototypeText}.
Variable now : nat -> Z.

Lemma daily_entry_reads (params : TravelParams) (destination : jsstring)
    (i n : nat) :
  snd (Route.daily_entry now params destination i n) = S n.
Proof.
  unfold Route.daily_entry, Route.bindM. rewrite date_from_now_reads.
  now destruct (valid_time _).
Qed.

Lemma mock_entry_reads (params : TravelParams) (destination : destination_value)
    (i n : nat) :
  snd (Route.mock_entry now params destination i n) = S n.
Proof.
  unfold Route.mock_entry, Route.bindM. rewrite date_from_now_reads.
  now destruct (valid_time _).
Qed.

Lemma daily_entry_dated (today : Z) (params : TravelParams)
    (destination : jsstring) (j n : nat) (entry : ItineraryDay) :
  (forall k, Day (now k) = today) ->
  fst (Route.daily_entry now params destination j n) = Returned entry ->
  d_day entry = Z.of_nat j
  /\ d_date entry = iso_day (today + (Z.of_nat j - 1))
  /\ length (d_activities entry) = 1.
Proof.
  intros Hday. unfold Route.daily_entry, Route.bindM.
  rewrite date_from_now_reads. destruct (valid_time _); [|discriminate].
  unfold Route.ret. cbn [fst]. intros H. injection H as <-.
  cbn [d_day d_date d_activities length]. rewrite iso_date_days_later, Hday.
  repeat split.
Qed.

Lemma mock_entry_dated (today : Z) (params : TravelParams)
    (destination : destination_value) (i n : nat) (entry : ItineraryDay) :
  (forall k, Day (now k) = today) ->
  fst (Route.mock_entry now params destination i n) = Returned entry ->
  d_day entry = (Z.of_nat i + 1)%Z
  /\ d_date entry = iso_day (today + Z.of_nat i)
  /\ List.map a_time (d_activities entry)
     = [js "09:00"; js "12:00"; js "14:00"; js "18:00"; js "20:00"].
Proof.
  intros Hday. unfold Route.mock_entry, Route.bindM.
  rewrite date_from_now_reads. destruct (valid_time _); [|discriminate].
  unfold Route.ret. cbn [fst]. intros H. injection H as <-.
  cbn [d_day d_date d_activities List.map a_time].
  rewrite iso_date_days_later, Hday. repeat split.
Qed.

(** X16.  The dates of an itinerary parsed from a response, on a clock that
    stays on one day (UTC) while the function runs: the start date is that
    day, the end date is [days] days later, and [dailyItinerary] has
    exactly [days] entries, the entry at index [i] numbered [i + 1], dated
    [i] days after the start date and holding one activity.  So the last
    entry is dated one day before the end date.  The function reads the
    clock [days + 2] times. *)
Theorem daily_entries_follow_the_start_date
    (today : Z) (cozeText : jsstring) (params : TravelParams) (n n' : nat)
    (itinerary : DatedItinerary) :
  (forall k, Day (now k) = today) ->
  Route.parseCozeResponseToItinerary now cozeText params n
    = (Returned itinerary, n') ->
  undated itinerary = parseCozeResponseToItinerary cozeText params
  /\ startDate itinerary = iso_day today
  /\ endDate itinerary = iso_day (today + parse_days params)
  /\ length (dailyItinerary itinerary) = Z.to_nat (parse_days params)
  /\ (forall i entry, nth_error (dailyItinerary itinerary) i = Some entry ->
        d_day entry = (Z.of_nat i + 1)%Z
        /\ d_date entry = iso_day (today + Z.of_nat i)
        /\ length (d_activities entry) = 1)
  /\ n' = n + 2 + Z.to_nat (parse_days params).
Proof.
  intros Hday. unfold Route.parseCozeResponseToItinerary.
  rewrite it_days_parsed. unfold Route.bindM at 1.
  rewrite date_from_now_reads. destruct (valid_time (now n + 0)); [|discriminate].
  unfold Route.bindM at 1. rewrite date_from_now_reads.
  destruct (valid_time (now (S n) + _)); [|discriminate].
  unfold Route.bindM at 1.
  destruct (Route.mapM _ _ (S (S n))) as [[daily|x] n2] eqn:Em; [|discriminate].
  unfold Route.ret. intros H. injection H as <- <-.
  cbn [undated startDate endDate dailyItinerary].
  apply mapM_reads in Em as (Hn2 & Hlen & Hnth);
    [|intros a m; apply daily_entry_reads].
  rewrite length_seq in Hn2, Hlen.
  split; [reflexivity|]. split.
  { rewrite <- (Z.mul_0_l msPerDay), iso_date_days_later, Hday. f_equal. lia. }
  split; [now rewrite iso_date_days_later, Hday|].
  split; [exact Hlen|]. split; [|lia].
  intros i entry Hi.
  assert (Hlt : i < Z.to_nat (parse_days params)).
  { rewrite <- Hlen. apply nth_error_Some. congruence. }
  destruct (Hnth i (1 + i)) as (b & Hb & Hfb).
  { rewrite (nth_error_nth' _ 0) by (now rewrite length_seq).
    now rewrite seq_nth. }
  rewrite Hi in Hb. injection Hb as <-.
  destruct (daily_entry_dated today _ _ (1 + i) _ entry Hday Hfb)
    as (Hd & Hdate & Hacts).
  rewrite Hd, Hdate. repeat split; [lia | f_equal; lia | exact Hacts].
Qed.

(** X17.  The same for the mock itinerary, whatever its destination is (a
    string or a member inherited from [Object.prototype]): with the clock
    on one day (UTC), the start date is that day, the end date is [days]
    days later, and there are exactly [days] entries, the entry at index
    [i] numbered [i + 1], dated [i] days after the start date, with five
    activities at 09:00, 12:00, 14:00, 18:00 and 20:00.  The field
    [destination] holds the destination itself. *)
Theorem mock_entries_follow_the_start_date
    (today : Z) (params : TravelParams) (destination : destination_value) (n n' : nat)
    (itinerary : DatedItinerary) :
  (forall k, Day (now k) = today) ->
  Route.mock_itinerary now params destination n = (Returned itinerary, n') ->
  it_days (undated itinerary) = parse_days params
  /\ destination_field itinerary = destination
  /\ it_destination (undated itinerary) = text_of destination
  /\ startDate itinerary = iso_day today
  /\ endDate itinerary = iso_day (today + parse_days params)
  /\ length (dailyItinerary itinerary) = Z.to_nat (parse_days params)
  /\ (forall i entry, nth_error (dailyItinerary itinerary) i = Some entry ->
        d_day entry = (Z.of_nat i + 1)%Z
        /\ d_date entry = iso_day (today + Z.of_nat i)
        /\ List.map a_time (d_activities entry)
           = [js "09:00"; js "12:00"; js "14:00"; js "18:00"; js "20:00"])
  /\ n' = n + 2 + Z.to_nat (parse_days params).
Proof.
  intros Hday. unfold Route.mock_itinerary.
  unfold Route.bindM at 1.
  rewrite date_from_now_reads. destruct (valid_time (now n + 0)); [|discriminate].
  unfold Route.bindM at 1. rewrite date_from_now_reads.
  destruct (valid_time (now (S n) + _)); [|discriminate].
  unfold Route.bindM at 1.
  destruct (Route.mapM _ _ (S (S n))) as [[daily|x] n2] eqn:Em; [|discriminate].
  unfold Route.ret. intros H. injection H as <- <-.
  cbn [undated destination_field startDate endDate dailyItinerary it_days
       it_destination].
  apply mapM_reads in Em as (Hn2 & Hlen & Hnth);
    [|intros a m; apply mock_entry_reads].
  rewrite length_seq in Hn2, Hlen.
  split; [reflexivity|]. split; [reflexivity|]. split; [reflexivity|]. split.
  { rewrite <- (Z.mul_0_l msPerDay), iso_date_days_later, Hday. f_equal. lia. }
  split; [now rewrite iso_date_days_later, Hday|].
  split; [exact Hlen|]. split; [|lia].
  intros i entry Hi.
  assert (Hlt : i < Z.to_nat (parse_days params)).
  { rewrite <- Hlen. apply nth_error_Some. congruence. }
  destruct (Hnth i i) as (b & Hb & Hfb).
  { rewrite (nth_error_nth' _ 0) by (now rewrite length_seq).
    now rewrite seq_nth. }
  rewrite Hi in Hb. injection Hb as <-.
  exact (mock_entry_dated today _ _ i _ entry Hday Hfb).
Qed.

End DatedFacts.


(* ================================================================== *)
(** * The answers of POST *)
(* ================================================================== *)

Lemma days_of_request (params : TravelParams) :
  parse_days (request (days params) None) = parse_days params.
Proof. reflexivity. Qed.

Section PostFacts.
Context {host : HostRuntime} {proto : PrototypeText}.
Variable now : nat -> Z.

(** A clock on which the end date of the itinerary is a valid date. *)
Lemma parse_returns (cozeText : jsstring) (params : TravelParams) (n : nat) :
  (forall k, (0 <= now k)%Z
             /\ (now k + parse_days params * msPerDay <= 8640000000000000)%Z) ->
  exists itinerary n',
    Route.parseCozeResponseToItinerary now cozeText params n
    = (Returned itinerary, n').
Proof.
  intros Hclock. pose proof (parse_days_positive params) as Hpos.
  assert (Hvalid : forall k off, (0 <= off <= parse_days params)%Z ->
            valid_time (now k + off * msPerDay) = true).
  { intros k off Hoff. destruct (Hclock k) as [H0 H1].
    unfold valid_time, msPerDay in *. apply Z.leb_le. nia. }
  unfold Route.parseCozeResponseToItinerary. rewrite it_days_parsed.
  unfold Route.bindM at 1. rewrite date_from_now_reads.
  rewrite <- (Z.mul_0_l msPerDay), Hvalid by lia.
  unfold Route.bindM at 1. rewrite date_from_now_reads, Hvalid by lia.
  unfold Route.bindM at 1.
  destruct (mapM_returns _ _
              (Route.daily_entry now params
                 (it_destination (parseCozeResponseToItinerary cozeText params)))
              (List.seq 1 (Z.to_nat (parse_days params)))) with (n := S (S n))
    as [daily Hdaily].
  { intros j m Hj. apply in_seq in Hj. unfold Route.daily_entry, Route.bindM.
    rewrite date_from_now_reads, Hvalid by lia. eexists. reflexivity. }
  rewrite Hdaily. unfold Route.ret. eexists. eexists. reflexivity.
Qed.

Lemma mock_returns (params : TravelParams) (destination : destination_value) (n : nat) :
  (forall k, (0 <= now k)%Z
             /\ (now k + parse_days params * msPerDay <= 8640000000000000)%Z) ->
  exists itinerary n',
    Route.mock_itinerary now params destination n = (Returned itinerary, n').
Proof.
  intros Hclock. pose proof (parse_days_positive params) as Hpos.
  assert (Hvalid : forall k off, (0 <= off <= parse_days params)%Z ->
            valid_time (now k + off * msPerDay) = true).
  { intros k off Hoff. destruct (Hclock k) as [H0 H1].
    unfold valid_time, msPerDay in *. apply Z.leb_le. nia. }
  unfold Route.mock_itinerary.
  unfold Route.bindM at 1. rewrite date_from_now_reads.
  rewrite <- (Z.mul_0_l msPerDay), Hvalid by lia.
  unfold Route.bindM at 1. rewrite date_from_now_reads, Hvalid by lia.
  unfold Route.bindM at 1.
  destruct (mapM_returns _ _
              (Route.mock_entry now params destination)
              (List.seq 0 (Z.to_nat (parse_days params)))) with (n := S (S n))
    as [daily Hdaily].
  { intros j m Hj. apply in_seq in Hj. unfold Route.mock_entry, Route.bindM.
    rewrite date_from_now_reads, Hvalid by lia. eexists. reflexivity. }
  rewrite Hdaily. unfold Route.ret. eexists. eexists. reflexivity.
Qed.

(** A day count that takes the end date out of the range of dates. *)
Lemma parse_range_error (cozeText : jsstring) (params : TravelParams) (n : nat) :
  (forall k, (0 < now k)%Z) -> (100000000 <= parse_days params)%Z ->
  exists n', Route.parseCozeResponseToItinerary now cozeText params n
             = (Raised RangeError, n').
Proof.
  intros Hclock Hdays.
  unfold Route.parseCozeResponseToItinerary. rewrite it_days_parsed.
  unfold Route.bindM at 1. rewrite date_from_now_reads.
  destruct (valid_time (now n + 0)); [|now eexists].
  unfold Route.bindM at 1. rewrite date_from_now_reads.
  replace (valid_time (now (S n) + parse_days params * msPerDay)) with false;
    [now eexists|].
  symmetry. unfold valid_time, msPerDay. apply Z.leb_gt.
  specialize (Hclock (S n)). nia.
Qed.

Lemma mock_range_error (params : TravelParams) (destination : destination_value)
    (n : nat) :
  (forall k, (0 < now k)%Z) -> (100000000 <= parse_days params)%Z ->
  exists n', Route.mock_itinerary now params destination n
             = (Raised RangeError, n').
Proof.
  intros Hclock Hdays. unfold Route.mock_itinerary.
  unfold Route.bindM at 1. rewrite date_from_now_reads.
  destruct (valid_time (now n + 0)); [|now eexists].
  unfold Route.bindM at 1. rewrite date_from_now_reads.
  replace (valid_time (now (S n) + parse_days params * msPerDay)) with false;
    [now eexists|].
  symmetry. unfold valid_time, msPerDay. apply Z.leb_gt.
  specialize (Hclock (S n)). nia.
Qed.

Lemma generate_range_error (env : Environment) (fetched : fetch_result)
    (params : TravelParams) (n : nat) :
  (forall k, (0 < now k)%Z) -> (100000000 <= parse_days params)%Z ->
  exists x n', Route.generateCozeItinerary now env fetched params n
               = (Raised x, n').
Proof.
  intros Hclock Hdays. unfold Route.generateCozeItinerary.
  unfold Route.bindM at 1. unfold Route.lift at 1.
  destruct (Route.configured env) as [endpoint|x]; [|now eexists; eexists].
  unfold Route.bindM at 1.
  destruct (if truthy_opt (user_id params) then Route.ret tt
            else Route.bindM (Route.Date_now now) (fun _ => Route.ret tt))
    as [[[]|x] n1] eqn:Eu.
  2:{ now eexists; eexists. }
  unfold Route.bindM at 1. unfold Route.lift at 1.
  destruct (Route.open_stream fetched) as [reads|x]; [|now eexists; eexists].
  unfold Route.bindM at 1. unfold Route.lift at 1.
  destruct (of_outcome (Route.stream_text reads)) as [text|x];
    [|now eexists; eexists].
  destruct (parse_range_error text params n1 Hclock Hdays) as [n' H].
  rewrite H. now eexists; eexists.
Qed.

(** What [answer] gives. *)
Lemma answer_on_a_valid_clock (env : Environment) (fetched : fetch_result)
    (params : TravelParams) (destination : destination_value) (n : nat) :
  (forall k, (0 <= now k)%Z
             /\ (now k + parse_days params * msPerDay <= 8640000000000000)%Z) ->
  match Route.generateCozeItinerary now env fetched params (S n) with
  | (Returned itinerary, _) =>
      fst (Route.answer now env fetched params
             (Route.mock_itinerary now params destination) n)
      = Returned (Success itinerary)
  | (Raised _, _) =>
      exists mockItinerary,
        fst (Route.answer now env fetched params
               (Route.mock_itinerary now params destination) n)
        = Returned (Fallback mockItinerary
                      (js "使用了备用数据，因为AI服务暂时不可用"))
  end.
Proof.
  intros Hclock. pose proof (parse_days_positive params) as Hpos.
  assert (Hstamp : valid_time (now n + 0) = true).
  { destruct (Hclock n) as [H0 H1].
    unfold valid_time, msPerDay in *. apply Z.leb_le. nia. }
  destruct (Route.generateCozeItinerary now env fetched params (S n))
    as [[itinerary|x] n1] eqn:Eg.
  - unfold Route.answer. unfold Route.try_catch at 1. unfold Route.bindM at 1.
    rewrite date_from_now_reads, Hstamp.
    unfold Route.try_catch. unfold Route.bindM at 1. now rewrite Eg.
  - destruct (mock_returns params destination n1 Hclock) as (mock & n2 & Hm).
    exists mock.
    unfold Route.answer. unfold Route.try_catch at 1. unfold Route.bindM at 1.
    rewrite date_from_now_reads, Hstamp.
    unfold Route.try_catch. unfold Route.bindM at 1. rewrite Eg.
    unfold Route.bindM. now rewrite Hm.
Qed.

Lemma answer_beyond_the_dates (env : Environment) (fetched : fetch_result)
    (params : TravelParams) (destination : destination_value) (n : nat) :
  (forall k, (0 < now k)%Z) -> (100000000 <= parse_days params)%Z ->
  fst (Route.answer now env fetched params
         (Route.mock_itinerary now params destination) n)
  = Returned Route.serverError.
Proof.
  intros Hclock Hdays.
  unfold Route.answer. unfold Route.try_catch at 1. unfold Route.bindM at 1.
  rewrite date_from_now_reads. destruct (valid_time (now n + 0)); [|reflexivity].
  unfold Route.try_catch. unfold Route.bindM at 1.
  destruct (generate_range_error env fetched params (S n) Hclock Hdays)
    as (x & n1 & Hg).
  rewrite Hg.
  destruct (mock_range_error params destination n1 Hclock Hdays) as [n2 Hm].
  unfold Route.bindM. now rewrite Hm.
Qed.

Lemma answer_is_no_bad_request (env : Environment) (fetched : fetch_result)
    (params : TravelParams) (mock : Route.M DatedItinerary) (n : nat) :
  exists r, fst (Route.answer now env fetched params mock n) = Returned r
    /\ forall e, r <> BadRequest e.
Proof.
  unfold Route.answer. unfold Route.try_catch at 1. unfold Route.bindM at 1.
  destruct (Route.date_from_now now 0 n) as [[timestamp|x] n0];
    [|eexists; split; [reflexivity | discriminate]].
  unfold Route.try_catch. unfold Route.bindM at 1.
  destruct (Route.generateCozeItinerary now env fetched params n0)
    as [[itinerary|x] n1]; [eexists; split; [reflexivity | discriminate]|].
  unfold Route.bindM. destruct (mock n1) as [[mockItinerary|y] n2];
    eexists; (split; [reflexivity | discriminate]).
Qed.

(** The validated requests. *)
Lemma POST_validated (env : Environment) (fetched : fetch_result)
    (body : json) (l d : jsstring) (m : Route.M http_response) :
  Route.POST now env fetched (Some body) = Some m ->
  Route.required_field body (js "location") = Route.Text l ->
  Route.required_field body (js "days") = Route.Text d ->
  exists params destination,
    location params = l /\ days params = d
    /\ m = Route.answer now env fetched params
             (Route.mock_itinerary now params destination).
Proof.
  unfold Route.POST. intros H Hl Hd. rewrite Hl, Hd in H.
  assert (Hbody : match body with
                  | JNull => Some (Route.ret Route.serverError)
                  | _ =>
      match Route.optional_field body (js "destination"),
            Route.optional_field body (js "travelers"),
            Route.optional_field body (js "preference"),
            Route.optional_field body (js "budget"),
            Route.optional_field body (js "user_id") with
      | Some destination, Some travelers, Some preference,
        Some budget, Some user_id =>
          let params :=
            {| location := l; destination := destination;
               days := d; travelers := travelers;
               preference := preference; budget := budget;
               user_id := user_id |} in
          Some (Route.answer now env fetched params
                  (Route.generateMockItinerary now params))
      | _, _, _, _, _ => None
      end
                  end = Some m) by (destruct body; exact H).
  clear H. destruct body; try discriminate Hl;
    destruct (Route.optional_field _ (js "destination")) as [o1|];
      try discriminate;
    destruct (Route.optional_field _ (js "travelers")) as [o2|];
      try discriminate;
    destruct (Route.optional_field _ (js "preference")) as [o3|];
      try discriminate;
    destruct (Route.optional_field _ (js "budget")) as [o4|];
      try discriminate;
    destruct (Route.optional_field _ (js "user_id")) as [o5|];
      try discriminate;
    cbv zeta in Hbody; unfold Route.generateMockItinerary in Hbody;
    injection Hbody as <-;
    exists {| location := l; destination := o1; days := d; travelers := o2;
              preference := o3; budget := o4; user_id := o5 |};
    eexists;
    (split; [reflexivity | split; reflexivity]).
Qed.

End PostFacts.


Section PostExtras.
Context {host : HostRuntime} {proto : PrototypeText}.
Variable now : nat -> Z.

Lemma generate_raises (env : Environment) (fetched : fetch_result)
    (params : TravelParams) (n : nat) :
  (exists x, Route.configured env = Raised x)
  \/ (exists x, Route.open_stream fetched = Raised x)
  \/ (exists reads e, Route.open_stream fetched = Returned reads
                      /\ Route.stream_text reads = Throw e) ->
  exists x n', Route.generateCozeItinerary now env fetched params n
               = (Raised x, n').
Proof.
  intros H. unfold Route.generateCozeItinerary.
  unfold Route.bindM at 1. unfold Route.lift at 1.
  destruct (Route.configured env) as [endpoint|x] eqn:Ec;
    [|now eexists; eexists].
  destruct H as [[x H]|H]; [discriminate|].
  unfold Route.bindM at 1.
  destruct (if truthy_opt (user_id params) then Route.ret tt
            else Route.bindM (Route.Date_now now) (fun _ => Route.ret tt))
    as [[[]|x] n1] eqn:Eu.
  2:{ now eexists; eexists. }
  unfold Route.bindM at 1. unfold Route.lift at 1.
  destruct (Route.open_stream fetched) as [reads|x] eqn:Eo;
    [|now eexists; eexists].
  destruct H as [[x H]|(reads' & e & H & Hs)]; [discriminate|].
  injection H as <-.
  unfold Route.bindM at 1. unfold Route.lift at 1. rewrite Hs.
  cbn [of_outcome]. now eexists; eexists.
Qed.

(** X18.  A request that passes the two checks of [POST] always gets an
    itinerary, whatever the AI service does, as long as the end date of the
    itinerary is a valid date on the clock: the answer is a success with
    the parsed itinerary, or it is the mock itinerary flagged as a fallback
    and never an error.  It is the fallback whenever the call of the AI
    throws: the service is not configured, the request fails or is refused,
    the response has no body, or the stream throws or is empty. *)
Theorem validated_request_gets_an_itinerary
    (env : Environment) (fetched : fetch_result) (body : json)
    (l d : jsstring) (m : Route.M http_response) (n : nat) :
  Route.POST now env fetched (Some body) = Some m ->
  Route.required_field body (js "location") = Route.Text l ->
  Route.required_field body (js "days") = Route.Text d ->
  (forall k, (0 <= now k)%Z
     /\ (now k + parse_days (request d None) * msPerDay <= 8640000000000000)%Z) ->
  (exists itinerary,
     fst (m n) = Returned (Success itinerary)
     \/ fst (m n) = Returned (Fallback itinerary
                                (js "使用了备用数据，因为AI服务暂时不可用")))
  /\ ((exists x, Route.configured env = Raised x)
      \/ (exists x, Route.open_stream fetched = Raised x)
      \/ (exists reads e, Route.open_stream fetched = Returned reads
                          /\ Route.stream_text reads = Throw e) ->
      exists mockItinerary,
        fst (m n) = Returned (Fallback mockItinerary
                                (js "使用了备用数据，因为AI服务暂时不可用"))).
Proof.
  intros Hpost Hl Hd Hclock.
  destruct (POST_validated now env fetched body l d m Hpost Hl Hd)
    as (params & destination & Hloc & Hdays & ->).
  rewrite <- Hdays, days_of_request in Hclock.
  pose proof (answer_on_a_valid_clock now env fetched params destination n Hclock)
    as Hans.
  split.
  - destruct (Route.generateCozeItinerary now env fetched params (S n))
      as [[itinerary|x] n1].
    + exists itinerary. now left.
    + destruct Hans as [mock Hans]. exists mock. now right.
  - intros Hfail.
    destruct (generate_raises env fetched params (S n) Hfail) as (x & n1 & Hg).
    rewrite Hg in Hans. exact Hans.
Qed.

(** X19.  A request that passes the two checks with a day count of
    100000000 or more is answered with the error of status 500, whatever
    the AI service does: the end date is beyond the last valid date, so
    the parser throws a [RangeError], and so does the mock that [POST]
    falls back on. *)
Theorem too_many_days_is_a_server_error
    (env : Environment) (fetched : fetch_result) (body : json)
    (l d : jsstring) (m : Route.M http_response) (n : nat) :
  Route.POST now env fetched (Some body) = Some m ->
  Route.required_field body (js "location") = Route.Text l ->
  Route.required_field body (js "days") = Route.Text d ->
  (forall k, (0 < now k)%Z) ->
  (100000000 <= parse_days (request d None))%Z ->
  fst (m n) = Returned (ServerError (js "服务器内部错误，请稍后再试")).
Proof.
  intros Hpost Hl Hd Hclock Hmany.
  destruct (POST_validated now env fetched body l d m Hpost Hl Hd)
    as (params & destination & Hloc & Hdays & ->).
  rewrite <- Hdays, days_of_request in Hmany.
  exact (answer_beyond_the_dates now env fetched params destination n
           Hclock Hmany).
Qed.

(** X20.  [POST] never throws: every request is answered.  It answers with
    status 400 exactly when the body is not [null] and the location is
    missing, falsy or blank (with the message for the location), or the
    location is a string that is not blank and the days are missing, falsy
    or blank (with the message for the days); the AI service and the clock
    play no part in that. *)
Theorem bad_request_exactly_when_a_required_field_is_blank
    (env : Environment) (fetched : fetch_result) (body : json)
    (m : Route.M http_response) (n : nat) :
  Route.POST now env fetched (Some body) = Some m ->
  (exists r, fst (m n) = Returned r)
  /\ forall e,
       fst (m n) = Returned (BadRequest e) <->
       body <> JNull
       /\ ((Route.required_field body (js "location") = Route.Blank
            /\ e = js "出发地点不能为空")
           \/ ((exists l, Route.required_field body (js "location") = Route.Text l)
               /\ Route.required_field body (js "days") = Route.Blank
               /\ e = js "旅行天数不能为空")).
Proof.
  intros Hpost.
  destruct (json_is_null body) eqn:Hnull.
  { destruct body; try discriminate. cbn in Hpost. injection Hpost as <-.
    split; [now eexists|]. intros e. split; [discriminate|].
    intros [H _]. now elim H. }
  assert (Hne : body <> JNull) by (intros ->; discriminate).
  destruct (Route.required_field body (js "location")) as [| |l] eqn:Hl.
  - assert (Hm : m = Route.ret (BadRequest (js "出发地点不能为空"))).
    { unfold Route.POST in Hpost. rewrite Hl in Hpost.
      destruct body; try (now injection Hpost); discriminate. }
    subst m. split; [now eexists|]. intros e. cbn. split.
    + intros H. injection H as <-. split; [exact Hne|]. now left.
    + intros [_ [[_ ->]|[[l Hl'] _]]]; [reflexivity | discriminate].
  - assert (Hm : m = Route.ret Route.serverError).
    { unfold Route.POST in Hpost. rewrite Hl in Hpost.
      destruct body; try (now injection Hpost); discriminate. }
    subst m. split; [now eexists|]. intros e. cbn. split; [discriminate|].
    intros [_ [[H _]|[[l Hl'] _]]]; discriminate.
  - destruct (Route.required_field body (js "days")) as [| |d] eqn:Hd.
    + assert (Hm : m = Route.ret (BadRequest (js "旅行天数不能为空"))).
      { unfold Route.POST in Hpost. rewrite Hl, Hd in Hpost.
        destruct body; try (now injection Hpost); discriminate. }
      subst m. split; [now eexists|]. intros e. cbn. split.
      * intros H. injection H as <-. split; [exact Hne|]. right.
        split; [now exists l|]. now split.
      * intros [_ [[H _]|[_ [_ ->]]]]; [discriminate | reflexivity].
    + assert (Hm : m = Route.ret Route.serverError).
      { unfold Route.POST in Hpost. rewrite Hl, Hd in Hpost.
        destruct body; try (now injection Hpost); discriminate. }
      subst m. split; [now eexists|]. intros e. cbn. split; [discriminate|].
      intros [_ [[H _]|[_ [H _]]]]; discriminate.
    + destruct (POST_validated now env fetched body l d m Hpost Hl Hd)
        as (params & destination & _ & _ & ->).
      destruct (answer_is_no_bad_request now env fetched params
                  (Route.mock_itinerary now params destination) n)
        as (r & Hr & Hnot).
      split; [now exists r|]. intros e. rewrite Hr. split.
      * intros H. injection H as ->. now elim (Hnot e).
      * intros [_ [[H _]|[_ [H _]]]]; discriminate.
Qed.

End PostExtras.


(* ================================================================== *)
(** * From the form to the route *)
(* ================================================================== *)

Lemma eos_inv (k : cont) (s : jsstring) (cs : captures)
    (res : jsstring * captures) :
  rx Eos s cs k = Some res -> s = [].
Proof. destruct s; [reflexivity | discriminate]. Qed.

Lemma digits_no_hyphen (s : jsstring) :
  forallb Form.is_decimal_digit s = true -> ~ In 45%N s.
Proof.
  rewrite forallb_forall. intros H Hin. apply H in Hin. discriminate Hin.
Qed.

(** The texts that the two patterns of the validator accept. *)
Lemma numberPattern_inv (v : jsstring) :
  Form.test_at_start Form.numberPattern v = true ->
  v <> [] /\ forallb Form.is_decimal_digit v = true.
Proof.
  unfold Form.test_at_start, match_here.
  destruct (rx Form.numberPattern v [] accept) as [res|] eqn:R; [|discriminate].
  intros _. unfold Form.numberPattern in R. cbn [seq] in R. rewrite rx_cat in R.
  apply plus_class_inv in R as (c & pre & post & -> & Hc & Hpre & R).
  apply eos_inv in R. subst post. split; [discriminate|].
  rewrite app_nil_r. cbn [forallb]. now rewrite Hc, Hpre.
Qed.

Lemma rangePattern_inv (v : jsstring) :
  Form.test_at_start Form.rangePattern v = true ->
  exists a b, v = a ++ 45%N :: b
    /\ forallb Form.is_decimal_digit a = true
    /\ forallb Form.is_decimal_digit b = true.
Proof.
  unfold Form.test_at_start, match_here.
  destruct (rx Form.rangePattern v [] accept) as [res|] eqn:R; [|discriminate].
  intros _. unfold Form.rangePattern in R. cbn [seq] in R. rewrite rx_cat in R.
  apply plus_class_inv in R as (c & pre & post & -> & Hc & Hpre & R).
  rewrite rx_cat in R. apply chr_inv in R as (s1 & -> & R).
  rewrite rx_cat in R.
  apply plus_class_inv in R as (c2 & pre2 & post2 & -> & Hc2 & Hpre2 & R).
  apply eos_inv in R. subst post2.
  exists (c :: pre), (c2 :: pre2). rewrite app_nil_r. cbn [forallb app].
  now rewrite Hc, Hpre, Hc2, Hpre2.
Qed.

(** An integer up to [2^53] is its own double. *)
Lemma nearest_double_exact (x : Z) :
  (0 <= x <= 2 ^ 53)%Z -> Form.nearest_double x = Form.Finite x.
Proof.
  intros [H0 H1]. destruct (Z.eq_dec x (2 ^ 53)) as [->|Hne].
  { vm_compute. reflexivity. }
  unfold Form.nearest_double, Form.nearest_magnitude.
  rewrite (Z.abs_eq x H0).
  assert (Hb : (Z.log2 x + 1 <=? 53)%Z = true).
  { apply Z.leb_le. destruct (Z.eq_dec x 0) as [->|Hx0]; [cbn; lia|].
    assert (Z.log2 x < 53)%Z; [|lia]. apply Z.log2_lt_pow2; lia. }
  rewrite Hb.
  assert (Hn : (x <? 0)%Z = false) by (apply Z.ltb_ge; lia).
  now rewrite Hn.
Qed.

Lemma gt_0_inv (x : Z) :
  (0 <= x)%Z -> Form.gt_0 (Some x) = true -> (0 < x)%Z.
Proof.
  intros H0 H. destruct (Z.eq_dec x 0) as [->|Hne]; [|lia].
  vm_compute in H. discriminate H.
Qed.

(** Below [2^53] the comparison of the doubles is that of the integers. *)
Lemma double_le_exact (x y : Z) :
  (0 <= x <= 2 ^ 53)%Z -> (0 <= y)%Z ->
  Form.double_le (Form.nearest_double x) (Form.nearest_double y) = true ->
  (x <= y)%Z.
Proof.
  intros Hx Hy H. destruct (Z.le_gt_cases x y) as [Hle|Hgt]; [exact Hle|].
  rewrite (nearest_double_exact x Hx) in H.
  rewrite (nearest_double_exact y) in H by lia.
  cbn [Form.double_le] in H. now apply Z.leb_le in H.
Qed.

(** The day count of a value that the validator accepts. *)
Lemma valid_days (params : TravelParams) :
  Form.isValidNumberOrRange (days params) = true ->
  (exists x, ~ In 45%N (days params) /\ parseInt (days params) = Some x
             /\ (0 < x)%Z /\ parse_days params = x)
  \/ (exists a b x y, days params = a ++ js "-" ++ b
        /\ parseInt a = Some x /\ parseInt b = Some y
        /\ (0 < x)%Z /\ (0 < y)%Z
        /\ Form.double_le (Form.nearest_double x) (Form.nearest_double y)
           = true
        /\ parse_days params = y).
Proof.
  unfold Form.isValidNumberOrRange.
  destruct (Form.test_at_start Form.numberPattern (days params)) eqn:En.
  - intros H.
    apply numberPattern_inv in En as [_ Hd]. apply digits_no_hyphen in Hd.
    destruct (parseInt (days params)) as [x|] eqn:Hx; [|discriminate H].
    pose proof (parseInt_unsigned _ _ Hd Hx) as H0.
    apply (gt_0_inv x H0) in H.
    left. exists x. repeat split; try assumption.
    unfold parse_days. change (js "-") with [45%N].
    destruct (includes [45%N] (days params)) eqn:Ei.
    + exfalso. unfold includes in Ei.
      destruct (indexOf [45%N] (days params)) as [i|] eqn:Eix; [|discriminate].
      apply indexOf_split in Eix. apply Hd. rewrite Eix.
      apply in_or_app. right. now left.
    + rewrite Hx. cbn [or_3]. destruct (Z.eqb_spec x 0); [lia | reflexivity].
  - destruct (Form.test_at_start Form.rangePattern (days params)) eqn:Er;
      [|discriminate].
    apply rangePattern_inv in Er as (a & b & Hv & Ha & Hb).
    apply digits_no_hyphen in Ha. apply digits_no_hyphen in Hb.
    rewrite Hv. unfold split_char.
    rewrite (split_acc_at 45%N [] a b Ha), (split_acc_plain 45%N [] b Hb).
    cbn [rev app List.map].
    destruct (parseInt a) as [x|] eqn:Hx; [|discriminate].
    destruct (parseInt b) as [y|] eqn:Hy;
      [|cbn [Form.gt_0]; rewrite andb_false_r; discriminate].
    destruct (Form.gt_0 (Some x)) eqn:Ga; [|discriminate].
    destruct (Form.gt_0 (Some y)) eqn:Gb; [|discriminate].
    cbn [andb Form.le]. intros Hle.
    apply (gt_0_inv x (parseInt_unsigned _ _ Ha Hx)) in Ga.
    apply (gt_0_inv y (parseInt_unsigned _ _ Hb Hy)) in Gb.
    right. exists a, b, x, y.
    split; [reflexivity|]. split; [exact Hx|]. split; [exact Hy|].
    split; [exact Ga|]. split; [exact Gb|]. split; [exact Hle|].
    rewrite <- (days_of_request params), Hv.
    change (a ++ 45%N :: b) with (a ++ js "-" ++ b).
    rewrite (days_of_range a b None Ha Hb), Hy. cbn [or_3].
    destruct (Z.eqb_spec y 0); lia.
Qed.

Lemma submitted_inv (f : Form.FormState) (p : TravelParams) :
  Form.handleSubmit f = Form.Submitted p ->
  p = Form.travelParams_of f
  /\ is_empty (trim (Form.departure f)) = false
  /\ is_empty (trim (Form.f_days f)) = false
  /\ Form.isValidNumberOrRange (Form.f_days f) = true.
Proof.
  unfold Form.handleSubmit.
  destruct (is_empty (trim (Form.departure f))); [discriminate|].
  destruct (is_empty (trim (Form.f_days f))); [discriminate|].
  destruct (Form.isValidNumberOrRange (Form.f_days f)); [|discriminate].
  cbn [negb app].
  destruct (truthy_str (trim (Form.f_travelers f))
            && negb (Form.isValidNumberOrRange (Form.f_travelers f)));
    [discriminate|].
  destruct (negb (Form.unknownDestination f)
            && is_empty (trim (Form.f_destination f))); [discriminate|].
  cbn [app]. intros H. injection H as <-. auto.
Qed.

Lemma trim_not_empty (s : jsstring) : is_empty (trim s) = false -> s <> [].
Proof. intros H ->. discriminate H. Qed.

Lemma digits_loop_not_nil (fuel : nat) (n : N) (acc : jsstring) :
  acc <> [] -> JsonText.digits_loop fuel n acc <> [].
Proof.
  revert n acc; induction fuel as [|fuel IH]; intros n acc Hacc; [exact Hacc|].
  cbn [JsonText.digits_loop]. destruct (n <? 10)%N; [discriminate|].
  apply IH. discriminate.
Qed.

Lemma digits_of_not_nil (n : N) : JsonText.digits_of n <> [].
Proof.
  unfold JsonText.digits_of. cbn [JsonText.digits_loop].
  destruct (n <? 10)%N; [discriminate|]. apply digits_loop_not_nil. discriminate.
Qed.

Lemma body_of_fields (p : TravelParams) :
  get (body_of p) (js "location") = Some (JStr (location p))
  /\ get (body_of p) (js "days") = Some (JStr (days p))
  /\ Route.optional_field (body_of p) (js "destination") = Some (destination p)
  /\ Route.optional_field (body_of p) (js "travelers") = Some (travelers p)
  /\ Route.optional_field (body_of p) (js "preference") = Some (preference p)
  /\ Route.optional_field (body_of p) (js "budget") = Some (budget p)
  /\ Route.optional_field (body_of p) (js "user_id") = Some (user_id p).
Proof.
  destruct p as [l [d|] dy [t|] [pr|] [b|] [u|]]; repeat split; reflexivity.
Qed.

Section FormExtras.
Context {host : HostRuntime} {proto : PrototypeText}.
Variable now : nat -> Z.

Lemma POST_body_of (env : Environment) (fetched : fetch_result)
    (p : TravelParams) :
  is_empty (trim (location p)) = false ->
  is_empty (trim (days p)) = false ->
  Route.POST now env fetched (Some (body_of p))
  = Some (Route.answer now env fetched p (Route.generateMockItinerary now p)).
Proof.
  intros Hl Hd.
  destruct (body_of_fields p) as (Gl & Gd & F1 & F2 & F3 & F4 & F5).
  assert (Rl : Route.required_field (body_of p) (js "location")
               = Route.Text (location p)).
  { unfold Route.required_field. rewrite Gl. cbn [truthy_val truthy].
    pose proof (trim_not_empty _ Hl) as Hne.
    apply truthy_str_true in Hne. rewrite Hne. cbn [negb].
    unfold truthy_str. now rewrite Hl. }
  assert (Rd : Route.required_field (body_of p) (js "days")
               = Route.Text (days p)).
  { unfold Route.required_field. rewrite Gd. cbn [truthy_val truthy].
    pose proof (trim_not_empty _ Hd) as Hne.
    apply truthy_str_true in Hne. rewrite Hne. cbn [negb].
    unfold truthy_str. now rewrite Hd. }
  unfold Route.POST. rewrite Rl, Rd, F1, F2, F3, F4, F5.
  destruct p; reflexivity.
Qed.

(** X21.  The day counts that the form lets through.  A submitted form
    carries its days field unchanged, and that field is either a positive
    whole number, which is the integer that the route reads as its day
    count, or a range [a-b] of two positive whole numbers whose doubles
    satisfy [a <= b]; the integer that the route reads is then [b], whose
    double is the larger of the two doubles.  It is the maximum of the two
    integers whenever [a] is at most [2^53].
    Beyond, the form compares rounded values and lets a descending range
    through: on [9007199254740993-9007199254740992] both parts are the
    same double and the day count is the second, smaller integer. *)
Theorem form_accepted_days_give_the_maximum
    (f : Form.FormState) (p : TravelParams) :
  Form.handleSubmit f = Form.Submitted p ->
  days p = Form.f_days f
  /\ ((exists x, ~ In 45%N (days p) /\ parseInt (days p) = Some x
                 /\ (0 < x)%Z /\ parse_days p = x)
      \/ (exists a b x y, days p = a ++ js "-" ++ b
            /\ parseInt a = Some x /\ parseInt b = Some y
            /\ (0 < x)%Z /\ (0 < y)%Z
            /\ parse_days p = y
            /\ Form.nearest_double (parse_days p)
               = Form.double_max (Form.nearest_double x)
                                 (Form.nearest_double y)
            /\ ((x <= 2 ^ 53)%Z ->
                (x <= y)%Z /\ parse_days p = Z.max x y))).
Proof.
  intros H. apply submitted_inv in H as (-> & _ & _ & Hv).
  split; [reflexivity|].
  destruct (valid_days (Form.travelParams_of f) Hv) as [Hnum|(a & b & x & y & Hd & Hx & Hy & Hxpos
                                       & Hypos & Hle & Hdays)].
  - left. exact Hnum.
  - right. exists a, b, x, y.
    split; [exact Hd|]. split; [exact Hx|]. split; [exact Hy|].
    split; [exact Hxpos|]. split; [exact Hypos|]. split; [exact Hdays|].
    split.
    + unfold Form.double_max. rewrite Hle, Hdays. reflexivity.
    + intros Hsmall.
      assert (Hxy : (x <= y)%Z)
        by (apply double_le_exact; [lia | lia | exact Hle]).
      split; [exact Hxy|]. rewrite Hdays. lia.
Qed.

(** X22.  What the form submits is accepted by the route: posted as the
    results page posts it, it passes both checks of [POST] and is answered
    from exactly the parameters of the form, never with status 400.  The
    budget of a submission is never absent or empty (it is the word for
    unlimited or the digits of the slider), so the route always renders it
    inside the phrase for an amount and never as [预算不限]. *)
Theorem form_submission_passes_the_checks_of_the_route
    (env : Environment) (fetched : fetch_result)
    (f : Form.FormState) (p : TravelParams) :
  Form.handleSubmit f = Form.Submitted p ->
  Route.POST now env fetched (Some (body_of p))
  = Some (Route.answer now env fetched p (Route.generateMockItinerary now p))
  /\ (forall m n e, Route.POST now env fetched (Some (body_of p)) = Some m ->
        fst (m n) <> Returned (BadRequest e))
  /\ exists b, budget p = Some b /\ b <> []
       /\ budget_text p = js "预算约" ++ b ++ js "元人民币"
       /\ budget_text p <> js "预算不限".
Proof.
  intros H. apply submitted_inv in H as (-> & Hl & Hd & _).
  assert (Hpost := POST_body_of env fetched (Form.travelParams_of f) Hl Hd).
  split; [exact Hpost|]. split.
  - intros m n e Hm. rewrite Hpost in Hm. injection Hm as <-.
    destruct (answer_is_no_bad_request now env fetched
                (Form.travelParams_of f)
                (Route.generateMockItinerary now (Form.travelParams_of f)) n)
      as (r & Hr & Hnot).
    rewrite Hr. intros E. injection E as ->. now elim (Hnot e).
  - exists (if Form.unlimitedBudget f then js "不限"
            else JsonText.digits_of (Form.f_budget f)).
    assert (Hb : (if Form.unlimitedBudget f then js "不限"
                  else JsonText.digits_of (Form.f_budget f)) <> []).
    { destruct (Form.unlimitedBudget f); [discriminate|].
      apply digits_of_not_nil. }
    split; [reflexivity|]. split; [exact Hb|].
    assert (Ht : budget_text (Form.travelParams_of f)
                 = js "预算约"
                   ++ (if Form.unlimitedBudget f then js "不限"
                       else JsonText.digits_of (Form.f_budget f))
                   ++ js "元人民币").
    { unfold budget_text. cbn [budget Form.travelParams_of truthy_opt].
      apply truthy_str_true in Hb. now rewrite Hb. }
    split; [exact Ht|]. rewrite Ht. discriminate.
Qed.

End FormExtras.


(* ================================================================== *)
(** * The mock and the configuration *)
(* ================================================================== *)

Lemma own_property_in (key : jsstring) (props : list (jsstring * jsstring))
    (v : jsstring) :
  own_property key props = Some v -> In (key, v) props.
Proof.
  induction props as [|[k x] props IH]; [discriminate|]. cbn [own_property].
  destruct (str_eqb k key) eqn:E.
  - intros H. injection H as ->. apply str_eqb_eq in E. subst k. now left.
  - intros H. right. now apply IH.
Qed.

Lemma own_property_none (key : jsstring) (props : list (jsstring * jsstring)) :
  own_property key props = None -> forall v, ~ In (key, v) props.
Proof.
  induction props as [|[k x] props IH]; [intros _ v []|].
  cbn [own_property]. destruct (str_eqb k key) eqn:E; [discriminate|].
  intros H v [Heq|Hin]; [|exact (IH H v Hin)].
  injection Heq as -> _.
  assert (E' : str_eqb key key = true) by now apply str_eqb_eq.
  rewrite E' in E. discriminate E.
Qed.

Lemma existsb_str_eqb (key : jsstring) (names : list jsstring) :
  existsb (str_eqb key) names = true <-> In key names.
Proof.
  rewrite existsb_exists. split.
  - intros (x & Hin & E). apply str_eqb_eq in E. now subst x.
  - intros Hin. exists key. split; [exact Hin | now apply str_eqb_eq].
Qed.

(** X23.  The destination of the mock is never an empty string.  It is the
    requested destination when one is given and not empty; otherwise it is
    the entry of the table for the place of departure; otherwise, when the
    place of departure is the name of a member that the table inherits from
    [Object.prototype] (such as [toString]), it is that member, which is
    not a string; otherwise it is [杭州]. *)
Theorem mock_destination_is_never_empty (params : TravelParams) :
  match mock_destination params with
  | Named d =>
      d <> []
      /\ (truthy_opt (destination params) = true ->
          destination params = Some d)
      /\ (truthy_opt (destination params) = false ->
          In (location params, d) destinations
          \/ (d = js "杭州"
              /\ ~ In (location params) Object_prototype_names
              /\ forall v, ~ In (location params, v) destinations))
  | PrototypeMember key =>
      key = location params
      /\ In key Object_prototype_names
      /\ truthy_opt (destination params) = false
      /\ forall v, ~ In (key, v) destinations
  end
  /\ (truthy_opt (destination params) = false ->
      In (location params) Object_prototype_names ->
      mock_destination params = PrototypeMember (location params)).
Proof.
  assert (Hdisjoint : forall key, In key Object_prototype_names ->
            own_property key destinations = None).
  { intros key Hin. cbn in Hin.
    repeat (destruct Hin as [<-|Hin]; [reflexivity|]). destruct Hin. }
  unfold mock_destination.
  destruct (truthy_opt (destination params)) eqn:Et.
  - split; [|discriminate].
    destruct (destination params) as [d|]; [|discriminate Et].
    split; [now apply truthy_str_true|]. split; [reflexivity | discriminate].
  - unfold destinations_at.
    destruct (own_property (location params) destinations) as [v|] eqn:Eo.
    + pose proof (own_property_in _ _ _ Eo) as Hin.
      assert (Hv : truthy_str v = true).
      { cbn in Hin.
        destruct Hin as [E|[E|[E|[E|[]]]]]; injection E as _ <-; reflexivity. }
      unfold or_Hangzhou. cbn [truthy_opt]. rewrite Hv. split.
      * split; [now apply truthy_str_true|].
        split; [discriminate | now left].
      * intros _ Hp. rewrite (Hdisjoint _ Hp) in Eo. discriminate Eo.
    + destruct (existsb (str_eqb (location params)) Object_prototype_names)
        eqn:Ep.
      * apply existsb_str_eqb in Ep. split; [|reflexivity].
        split; [reflexivity|]. split; [exact Ep|].
        split; [reflexivity | now apply own_property_none].
      * split.
        -- cbn [or_Hangzhou truthy_opt]. split; [discriminate|].
           split; [discriminate|]. intros _. right.
           split; [reflexivity|]. split.
           ++ intros Hin. apply existsb_str_eqb in Hin. congruence.
           ++ now apply own_property_none.
        -- intros _ Hin. apply existsb_str_eqb in Hin. congruence.
Qed.

Lemma truthy_str_app_r (a : jsstring) (c : N) (e : jsstring) :
  truthy_str (a ++ c :: e) = true.
Proof. destruct a; reflexivity. Qed.

(** X24.  When [generateCozeItinerary] gets past its configuration check,
    the workflow id, the key and the endpoint are all set and not empty,
    and the endpoint that is called starts with [http]: it is the
    configured one when that starts with [http], and that one after
    [https://] otherwise.  Normalising it again changes nothing. *)
Theorem called_endpoint_starts_with_http (env : Environment) (endpoint : jsstring) :
  Route.configured env = Returned endpoint ->
  startsWith (js "http") endpoint = true
  /\ truthy_opt (COZE_WORKFLOW_ID env) = true
  /\ truthy_opt (COZE_API_KEY env) = true
  /\ exists e, COZE_API_ENDPOINT env = Some e /\ e <> []
       /\ endpoint = (if startsWith (js "http") e then e else js "https://" ++ e)
       /\ Route.normalized_endpoint (Some endpoint) = Some endpoint.
Proof.
  unfold Route.configured.
  destruct (truthy_opt (COZE_WORKFLOW_ID env)); [|discriminate].
  destruct (truthy_opt (COZE_API_KEY env)); [|discriminate]. cbn [negb orb].
  destruct (COZE_API_ENDPOINT env) as [e|]; [|discriminate].
  unfold Route.normalized_endpoint.
  destruct e as [|c e]; [discriminate|].
  cbn [truthy_str is_empty negb andb].
  destruct (startsWith (js "http") (c :: e)) eqn:Es; cbn [negb].
  - cbn [truthy_opt truthy_str is_empty negb]. intros H. injection H as <-.
    split; [exact Es|]. split; [reflexivity|]. split; [reflexivity|].
    exists (c :: e). split; [reflexivity|]. split; [discriminate|].
    split; [now rewrite Es|].
    cbn [truthy_str is_empty negb andb]. now rewrite Es.
  - cbn [truthy_opt]. rewrite truthy_str_app_r. cbn [negb].
    intros H. injection H as <-.
    split; [reflexivity|]. split; [reflexivity|]. split; [reflexivity|].
    exists (c :: e). split; [reflexivity|]. split; [discriminate|].
    split; [now rewrite Es|]. reflexivity.
Qed.

(* ================================================================== *)
(** * Escaped text *)
(* ================================================================== *)

Lemma replace2_other (a b : N) (rep : jsstring) (x : N) (s : jsstring) :
  x <> a -> replace2 a b rep (x :: s) = x :: replace2 a b rep s.
Proof.
  intros Hx. destruct s as [|y s]; [reflexivity|]. rewrite replace2_step.
  destruct (N.eqb_spec x a); [contradiction | reflexivity].
Qed.

Lemma replace2_wrong_second (a b : N) (rep : jsstring) (y : N) (s : jsstring) :
  y <> b -> replace2 a b rep (a :: y :: s) = a :: replace2 a b rep (y :: s).
Proof.
  intros Hy. rewrite replace2_step.
  destruct (N.eqb_spec y b); [contradiction|]. now rewrite andb_false_r.
Qed.

Lemma replace2_pair (a b : N) (rep s : jsstring) :
  replace2 a b rep (a :: b :: s) = rep ++ replace2 a b rep s.
Proof. now rewrite replace2_step, !N.eqb_refl. Qed.



Lemma replace2_no_first (a b : N) (rep s : jsstring) :
  ~ In a s -> replace2 a b rep s = s.
Proof.
  induction s as [|x s IH]; intros Hs; [reflexivity|].
  rewrite replace2_other by (intros ->; apply Hs; now left).
  f_equal. apply IH. intros H. apply Hs. now right.
Qed.

Lemma first_replacement (s : jsstring) :
  ~ In 92%N s -> replace2 92 110 LF (escaped s) = escaped_quotes s.
Proof.
  induction s as [|c s IH]; intros Hs; [reflexivity|].
  assert (Hc : c <> 92%N) by (intros ->; apply Hs; now left).
  specialize (IH (fun H => Hs (or_intror H))).
  cbn [escaped escaped_quotes].
  destruct (N.eqb_spec c 10) as [->|H10].
  - rewrite replace2_pair, IH. reflexivity.
  - destruct (N.eqb_spec c 34) as [->|H34].
    + rewrite replace2_wrong_second by discriminate.
      rewrite replace2_other by discriminate. now rewrite IH.
    + rewrite replace2_other by exact Hc. now rewrite IH.
Qed.

Lemma second_replacement (s : jsstring) :
  ~ In 92%N s -> replace2 92 34 DQ (escaped_quotes s) = s.
Proof.
  induction s as [|c s IH]; intros Hs; [reflexivity|].
  assert (Hc : c <> 92%N) by (intros ->; apply Hs; now left).
  specialize (IH (fun H => Hs (or_intror H))).
  cbn [escaped_quotes].
  destruct (N.eqb_spec c 34) as [->|H34].
  - rewrite replace2_pair, IH. reflexivity.
  - rewrite replace2_other by exact Hc. now rewrite IH.
Qed.

(** X25.  The replacements of the fast path restore a text that holds no
    backslash from its escaped form, in which line feeds and double quotes
    are written with a backslash; so do the two replacements applied to the
    extracted content.  A text without any backslash is left as it is. *)
Theorem unescape_restores_text_without_backslash (s : jsstring) :
  ~ In 92%N s ->
  unescape (escaped s) = s
  /\ unescape_nq (escaped s) = s
  /\ unescape s = s.
Proof.
  intros Hs.
  assert (Hnq : unescape_nq (escaped s) = s).
  { unfold unescape_nq.
    rewrite (first_replacement s Hs). exact (second_replacement s Hs). }
  split; [|split; [exact Hnq|]].
  - unfold unescape. rewrite Hnq. now apply replace2_no_first.
  - unfold unescape, unescape_nq. now rewrite !(replace2_no_first 92 _ _ s Hs).
Qed.

(* ================================================================== *)
(** * The text of a stream without a second delta *)
(* ================================================================== *)

Section AccumulatedText.
Context {host : HostRuntime}.

(** X27.  When a stream ends with at most one answer delta interpreted and
    with some text accumulated, [completeResponse] was never set and the
    itinerary is parsed from exactly the accumulated text. *)
Theorem accumulated_text_is_parsed_without_a_second_delta
    (params : TravelParams) (reads : list jsstring) (st : StreamState) :
  read_loop reads initial_state = Ok st ->
  deltaCount st <= 1 ->
  accumulatedResponse st <> [] ->
  completeResponse st = JStr []
  /\ final_response st = Ok (accumulatedResponse st)
  /\ generateCozeItinerary params reads
     = Ok (parseCozeResponseToItinerary (accumulatedResponse st) params).
Proof.
  intros Hrun Hcount Hacc.
  assert (Hc : completeResponse st = JStr []).
  { destruct (read_loop_as_run reads initial_state) as [acts Ha].
    rewrite Ha in Hrun.
    destruct (run_unset_before_second acts initial_state st Hrun) as [H|H];
      [now left | exact H | lia]. }
  assert (Hf : final_response st = Ok (accumulatedResponse st)).
  { unfold final_response. rewrite Hc. cbn [truthy truthy_str is_empty negb].
    destruct (accumulatedResponse st) as [|c acc]; [now elim Hacc|].
    reflexivity. }
  split; [exact Hc|]. split; [exact Hf|].
  unfold generateCozeItinerary. now rewrite Hrun; cbn [bind]; rewrite Hf.
Qed.

End AccumulatedText.


(* ================================================================== *)
(** * What the cascade on paragraphs keeps *)
(* ================================================================== *)

Lemma remove_class_app (p : N -> bool) (a b : jsstring) :
  remove_class p (a ++ b) = remove_class p a ++ remove_class p b.
Proof. apply filter_app. Qed.

Lemma remove_class_all (p : N -> bool) (s : jsstring) :
  forallb p s = true -> remove_class p s = [].
Proof.
  induction s as [|c s IH]; [reflexivity|]. cbn [forallb remove_class filter].
  intros H. apply andb_true_iff in H as [-> H]. cbn [negb]. now apply IH.
Qed.

(** A separator of paragraphs is white space. *)
Lemma separator_is_blank (s all rest : jsstring) (cs : captures) :
  match_here paragraphRegex s = Some (all, rest, cs) ->
  s = all ++ rest /\ forallb is_space all = true.
Proof.
  unfold match_here.
  destruct (rx paragraphRegex s [] accept) as [[rest' cs']|] eqn:R;
    [|discriminate].
  intros H. injection H as <- <- <-.
  unfold paragraphRegex in R. cbn [seq] in R.
  rewrite rx_cat in R. apply chr_inv in R as (s1 & -> & R).
  rewrite rx_cat in R. unfold spaces in R. rewrite rx_star in R.
  apply star_class_inv in R as (pre & post & -> & Hpre & R).
  apply chr_inv in R as (s2 & -> & R). unfold accept in R.
  injection R as <- _.
  replace (10%N :: pre ++ 10%N :: s2) with ((10%N :: pre ++ [10%N]) ++ s2)
    by (cbn [app]; now rewrite <- app_assoc).
  rewrite firstn_self. split; [reflexivity|].
  cbn [forallb]. rewrite forallb_app, Hpre. reflexivity.
Qed.

Lemma split_loop_keeps (fuel : nat) :
  forall cur s,
    remove_class is_space (concat (split_loop paragraphRegex fuel cur s))
    = remove_class is_space (rev cur ++ s).
Proof.
  induction fuel as [|fuel IH]; intros cur s; cbn [split_loop].
  - cbn [concat]. now rewrite app_nil_r.
  - destruct s as [|c s]; [cbn [concat]; now rewrite !app_nil_r|].
    assert (Hstep :
      remove_class is_space
        (concat (split_loop paragraphRegex fuel (c :: cur) s))
      = remove_class is_space (rev cur ++ c :: s)).
    { rewrite IH. cbn [rev]. now rewrite <- app_assoc. }
    destruct (match_here paragraphRegex (c :: s)) as [[[all rest] cs]|] eqn:E;
      [|exact Hstep].
    destruct (is_empty all && is_empty cur); [exact Hstep|].
    apply separator_is_blank in E as [Hs Hall].
    cbn [concat]. rewrite !remove_class_app, IH, Hs.
    cbn [rev app]. now rewrite remove_class_app, (remove_class_all _ _ Hall).
Qed.

Lemma split_keeps (text : jsstring) :
  remove_class is_space (concat (split paragraphRegex text))
  = remove_class is_space text.
Proof.
  unfold split. destruct text as [|c s].
  - now destruct (match_here paragraphRegex []).
  - now rewrite split_loop_keeps.
Qed.

Lemma join_keeps (sep : jsstring) (ps : list jsstring) :
  forallb is_space sep = true ->
  remove_class is_space (join sep ps) = remove_class is_space (concat ps).
Proof.
  intros Hsep. induction ps as [|p ps IH]; [reflexivity|].
  destruct ps as [|p2 ps].
  - cbn [join concat]. now rewrite app_nil_r.
  - rewrite join_cons by discriminate. cbn [concat] in *.
    rewrite !remove_class_app, IH, (remove_class_all _ _ Hsep).
    now rewrite remove_class_app.
Qed.

Lemma first_middle_last (ps : list jsstring) :
  2 <= length ps ->
  concat ps = nth 0 ps [] ++ concat (slice_1_m1 ps) ++ last ps [].
Proof.
  destruct ps as [|p0 rest]; [simpl; lia|]. intros Hlen.
  assert (Hne : rest <> []) by (destruct rest; [simpl in Hlen; lia | discriminate]).
  unfold slice_1_m1. cbn [tl nth concat].
  rewrite (app_removelast_last [] Hne) at 1.
  rewrite concat_app. cbn [concat]. rewrite app_nil_r.
  f_equal. f_equal. destruct rest; [now elim Hne | reflexivity].
Qed.

(** X26.  The cascade on paragraphs drops nothing but white space: when it
    is applied to a text of at least three paragraphs, the title, the plan
    and the highlights together hold exactly the characters of the text
    that are not white space, in the same order. *)
Theorem paragraph_cascade_drops_white_space_only (text : jsstring) :
  anchored_sections text = ([], [], []) ->
  3 <= length (split paragraphRegex text) ->
  let '(title, plan, highlights) := split_sections text in
  remove_class is_space (title ++ plan ++ highlights)
  = remove_class is_space text.
Proof.
  intros Hanch Hlen. rewrite (cascade_taken text Hanch).
  unfold fallback_sections.
  pose proof Hlen as Hb. apply Nat.leb_le in Hb. rewrite Hb.
  rewrite <- (split_keeps text).
  rewrite (first_middle_last (split paragraphRegex text)) by lia.
  rewrite !remove_class_app. f_equal. f_equal.
  now apply join_keeps.
Qed.

(* ================================================================== *)
(** * The properties on examples *)
(* ================================================================== *)

Lemma frame_split_across_reads_witness :
  let whole := sse_frame "message" first_delta in
  let a := firstn 20 whole in
  let b := skipn 20 whole in
  (forall st1,
     drain (host := JsonText.host)
       (set_buffer (buffer initial_state ++ a) initial_state) = Ok st1 ->
     isFinished st1 = false)
  /\ read_loop (host := JsonText.host) [a ++ b] initial_state
     = read_loop (host := JsonText.host) [a; b] initial_state
  /\ accumulatedResponse
       (state_of (read_loop (host := JsonText.host) [a; b] initial_state))
     = js "旅".
Proof.
  intros whole a b.
  assert (H : forall st1,
    drain (host := JsonText.host)
      (set_buffer (buffer initial_state ++ a) initial_state) = Ok st1 ->
    isFinished st1 = false).
  { intros st1. vm_compute. intros E. injection E as <-. reflexivity. }
  split; [exact H|]. split.
  - exact (proj2 (frame_split_across_reads (host := JsonText.host)
                    initial_state a b) [] H).
  - vm_compute. reflexivity.
Defined.

Lemma drain_leaves_no_complete_block_witness :
  let st := set_buffer (sse_frame "message" first_delta ++ js "event: mess")
              initial_state in
  let st' := state_of (drain (host := JsonText.host) st) in
  drain (host := JsonText.host) st = Ok st'
  /\ first_block (buffer st') = None
  /\ buffer st' = js "event: mess".
Proof.
  intros st st'.
  assert (H : drain (host := JsonText.host) st = Ok st')
    by (vm_compute; reflexivity).
  split; [exact H|]. split.
  - exact (proj1 (proj1 (drain_leaves_no_complete_block (host := JsonText.host))
                    st st' H)).
  - vm_compute. reflexivity.
Defined.

Lemma accumulated_text_only_grows_witness :
  let reads := [sse_frame "message" first_delta;
                sse_frame "message" first_delta] in
  let st' := state_of (read_loop (host := JsonText.host) reads initial_state) in
  read_loop (host := JsonText.host) reads initial_state = Ok st'
  /\ accumulatedResponse st' = js "旅旅"
  /\ exists added,
       accumulatedResponse st' = accumulatedResponse initial_state ++ added.
Proof.
  intros reads st'.
  assert (H : read_loop (host := JsonText.host) reads initial_state = Ok st')
    by (vm_compute; reflexivity).
  split; [exact H|]. split; [vm_compute; reflexivity|].
  exact (proj1 (accumulated_text_only_grows (host := JsonText.host)
                  reads initial_state st' H)).
Defined.

Lemma block_without_data_is_ignored_witness :
  let chunk := js ": keep-alive" ++ LF ++ js "event: done" in
  (forall line, In line (split_char 10 chunk) ->
     startsWith (js "data:") line = true ->
     trim (substring_from 5 line) = [])
  /\ handle_block (host := JsonText.host) chunk initial_state = Ok initial_state.
Proof.
  intros chunk.
  assert (H : forall line, In line (split_char 10 chunk) ->
     startsWith (js "data:") line = true ->
     trim (substring_from 5 line) = []).
  { intros line Hin. vm_compute in Hin.
    destruct Hin as [<-|[<-|[]]]; intros E; vm_compute in E; discriminate E. }
  split; [exact H|].
  exact (block_without_data_is_ignored (host := JsonText.host) chunk
           initial_state H).
Defined.

Lemma last_data_line_wins_witness :
  let chunk := js "data: first" in
  let d := js " second" in
  ~ In 10%N d
  /\ snd (parse_block chunk) = js "first"
  /\ parse_block (chunk ++ LF ++ js "data:" ++ d) = (js "message", js "second").
Proof.
  intros chunk d.
  assert (H : ~ In 10%N d) by (vm_compute; intuition discriminate).
  split; [exact H|]. split; [vm_compute; reflexivity|].
  exact (eq_trans (proj1 (last_data_line_wins chunk d H)) eq_refl).
Defined.

Lemma frame_text_is_read_back_witness :
  let t := js " conversation.message.delta" in
  let d := js " " ++ first_delta in
  ~ In 10%N t /\ ~ In 10%N d
  /\ first_block (frame_text t d ++ LF ++ LF ++ js "rest")
     = Some (frame_text t d, js "rest")
  /\ parse_block (frame_text t d)
     = (js "conversation.message.delta", first_delta).
Proof.
  intros t d.
  assert (Ht : ~ In 10%N t) by (vm_compute; intuition discriminate).
  assert (Hd : ~ In 10%N d) by (vm_compute; intuition discriminate).
  destruct (frame_text_is_read_back (host := JsonText.host) t d (js "rest")
              initial_state Ht Hd) as (H1 & H2 & _).
  split; [exact Ht|]. split; [exact Hd|]. split; [exact H1|].
  exact (eq_trans H2 eq_refl).
Defined.

Lemma other_event_types_change_nothing_witness :
  let t := js "done" in
  let d := js "{}" in
  let st := after_first_delta [] in
  str_eqb t (js "message") = false
  /\ includes (js "conversation.message.delta") t = false
  /\ isFinished st = false
  /\ exists st', handle_event (host := JsonText.host) t d st = Ok st'
       /\ isFinished st' = true
       /\ accumulatedResponse st' = js "旅"
       /\ deltaCount st' = 1
       /\ completeResponse st' = JStr [].
Proof.
  intros t d st.
  assert (H1 : str_eqb t (js "message") = false) by reflexivity.
  assert (H2 : includes (js "conversation.message.delta") t = false)
    by reflexivity.
  split; [exact H1|]. split; [exact H2|]. split; [reflexivity|].
  destruct (other_event_types_change_nothing (host := JsonText.host) t d st
              H1 H2) as (Hfields & Hdone & _).
  destruct (Hdone eq_refl (JObj []) eq_refl) as (st' & Hev & Hfin & Hacc).
  - discriminate.
  - reflexivity.
  - exists st'. split; [exact Hev|]. split; [exact Hfin|].
    destruct (Hfields st' Hev) as (_ & _ & Hc & Hr & _).
    split; [exact Hacc|]. split; [exact Hc | exact Hr].
Defined.

Lemma final_text_never_empty_witness :
  let st := append_response (js "旅") initial_state in
  final_response (host := JsonText.host) st = Ok (js "旅") /\ js "旅" <> [].
Proof.
  intros st.
  assert (H : final_response (host := JsonText.host) st = Ok (js "旅"))
    by (vm_compute; reflexivity).
  split; [exact H|].
  exact (proj1 (final_text_never_empty (host := JsonText.host)) st (js "旅") H).
Defined.

Lemma quoted_content_stops_at_quote_witness :
  exists m, exec contentPattern first_delta = Some m
    /\ exists g, group 1 m = Some g /\ g <> [] /\ ~ In 34%N g
         /\ extractedContent first_delta JNull = JStr (replace2 92 110 LF g).
Proof.
  destruct (exec contentPattern first_delta) as [m|] eqn:E.
  - exists m. split; [reflexivity|].
    exact (quoted_content_stops_at_quote first_delta JNull m E).
  - vm_compute in E. discriminate E.
Defined.

Lemma destination_has_no_comma_or_full_stop_witness :
  let cozeText := js "目的地: 西安, 陕西" in
  infer_destination cozeText [] = js "西安"
  /\ In 35199%N (infer_destination cozeText [])
  /\ in_class (js "，。,.") 35199 = false.
Proof.
  intros cozeText.
  assert (H : In 35199%N (infer_destination cozeText []))
    by (vm_compute; left; reflexivity).
  split; [vm_compute; reflexivity|]. split; [exact H|].
  exact (proj1 destination_has_no_comma_or_full_stop cozeText [] 35199%N H).
Defined.


Lemma single_line_text_becomes_the_plan_witness :
  let text := js "hello" in
  ~ In 10%N text
  /\ anchored_sections text = ([], [], [])
  /\ split_sections text = (js "你的旅行计划", text, js "根据AI生成").
Proof.
  intros text.
  assert (H1 : ~ In 10%N text) by (vm_compute; intuition discriminate).
  assert (H2 : anchored_sections text = ([], [], []))
    by (vm_compute; reflexivity).
  repeat (split; [assumption|]).
  exact (single_line_text_becomes_the_plan text H1 H2).
Defined.

Lemma requested_format_is_split_into_its_sections_witness :
  let indent := LF ++ js "    " in
  let gap := indent ++ indent in
  let s1 := {| sl_colon := 65306; sl_before := indent;
               sl_body := js "西安三日"; sl_after := gap |} in
  let s2 := {| sl_colon := 65306; sl_before := indent;
               sl_body := js "第一天：兵马俑"; sl_after := gap |} in
  let s3 := {| sl_colon := 65306; sl_before := indent;
               sl_body := js "红榜：城墙"; sl_after := indent |} in
  well_laid s1 /\ well_laid s2 /\ well_laid s3
  /\ ~ In 26053%N indent /\ ~ In 34892%N indent
  /\ requested_format indent s1 s2 s3
     = indent ++ js "旅行推荐：" ++ indent ++ js "西安三日" ++ gap
       ++ js "行程规划：" ++ indent ++ js "第一天：兵马俑" ++ gap
       ++ js "旅行红黑榜：" ++ indent ++ js "红榜：城墙" ++ indent
  /\ split_sections (requested_format indent s1 s2 s3)
     = (js "西安三日", js "第一天：兵马俑", js "红榜：城墙").
Proof.
  intros indent gap s1 s2 s3.
  assert (Hlaid : forall body,
            starts_dark body = true -> ends_dark body = true ->
            forallb (fun c => negb (in_class (js "旅行") c)) body = true ->
            forall after, blank after ->
            well_laid {| sl_colon := 65306; sl_before := indent;
                         sl_body := body; sl_after := after |}).
  { intros body Hs He Hc after Ha. repeat split; try assumption.
    intros c Hin. rewrite forallb_forall in Hc. apply Hc in Hin.
    now apply negb_true_iff in Hin. }
  assert (H1 : well_laid s1) by (apply Hlaid; reflexivity).
  assert (H2 : well_laid s2) by (apply Hlaid; reflexivity).
  assert (H3 : well_laid s3) by (apply Hlaid; reflexivity).
  assert (H4 : ~ In 26053%N indent) by (vm_compute; intuition discriminate).
  assert (H5 : ~ In 34892%N indent) by (vm_compute; intuition discriminate).
  repeat (split; [assumption|]). split; [vm_compute; reflexivity|].
  exact (requested_format_is_split_into_its_sections indent s1 s2 s3
           H1 H2 H3 H4 H5).
Defined.

Lemma daily_entries_follow_the_start_date_witness :
  let clock := fun _ : nat => 1762000000000%Z in
  let params := request (js "3") None in
  (forall k, Day (clock k) = 20393%Z)
  /\ exists itinerary n',
       Route.parseCozeResponseToItinerary clock (js "hello") params 0
         = (Returned itinerary, n')
       /\ startDate itinerary = js "2025-11-01"
       /\ endDate itinerary = js "2025-11-04"
       /\ List.map d_date (dailyItinerary itinerary)
          = [js "2025-11-01"; js "2025-11-02"; js "2025-11-03"]
       /\ length (dailyItinerary itinerary) = Z.to_nat (parse_days params)
       /\ n' = 0 + 2 + Z.to_nat (parse_days params).
Proof.
  intros clock params.
  assert (H : forall k, Day (clock k) = 20393%Z) by (intros k; reflexivity).
  split; [exact H|].
  destruct (Route.parseCozeResponseToItinerary clock (js "hello") params 0)
    as [[itinerary|x] n'] eqn:E.
  - exists itinerary, n'. split; [reflexivity|].
    destruct (daily_entries_follow_the_start_date clock 20393 (js "hello")
                params 0 n' itinerary H E) as (_ & Hs & He & Hl & _ & Hn).
    split; [exact (eq_trans Hs eq_refl)|].
    split; [exact (eq_trans He eq_refl)|].
    split; [|split; [exact Hl | exact Hn]].
    vm_compute in E. injection E as <- _. reflexivity.
  - vm_compute in E. discriminate E.
Defined.

Lemma mock_entries_follow_the_start_date_witness :
  let clock := fun _ : nat => 1762000000000%Z in
  let params := request (js "2-3") None in
  let destination := PrototypeMember (js "toString") in
  (forall k, Day (clock k) = 20393%Z)
  /\ exists itinerary n',
       Route.mock_itinerary (host := JsonText.host) (proto := V8_prototype)
         clock params destination 0 = (Returned itinerary, n')
       /\ it_days (undated itinerary) = 3%Z
       /\ destination_field itinerary = destination
       /\ it_destination (undated itinerary)
          = js "function toString() { [native code] }"
       /\ startDate itinerary = js "2025-11-01"
       /\ endDate itinerary = js "2025-11-04"
       /\ length (dailyItinerary itinerary) = 3
       /\ n' = 5.
Proof.
  intros clock params destination.
  assert (H : forall k, Day (clock k) = 20393%Z) by (intros k; reflexivity).
  split; [exact H|].
  destruct (Route.mock_itinerary (host := JsonText.host)
              (proto := V8_prototype) clock params destination 0)
    as [[itinerary|x] n'] eqn:E.
  - exists itinerary, n'. split; [reflexivity|].
    destruct (mock_entries_follow_the_start_date (host := JsonText.host)
                (proto := V8_prototype) clock 20393 params destination 0 n'
                itinerary H E)
      as (Hd & Hf & Hc & Hs & He & Hl & _ & Hn).
    split; [exact (eq_trans Hd eq_refl)|].
    split; [exact Hf|].
    split; [exact (eq_trans Hc eq_refl)|].
    split; [exact (eq_trans Hs eq_refl)|].
    split; [exact (eq_trans He eq_refl)|].
    split; [exact (eq_trans Hl eq_refl) | exact (eq_trans Hn eq_refl)].
  - vm_compute in E. discriminate E.
Defined.

Lemma validated_request_gets_an_itinerary_witness :
  let clock := fun _ : nat => 1762000000000%Z in
  let env := {| COZE_WORKFLOW_ID := None; COZE_API_KEY := None;
                COZE_API_ENDPOINT := None |} in
  let params :=
    {| location := js "toString"; destination := None; days := js "3";
       travelers := None; preference := None; budget := None;
       user_id := None |} in
  exists m,
    Route.POST (host := JsonText.host) (proto := V8_prototype) clock env
      FetchRejected (Some (body_of params)) = Some m
    /\ Route.required_field (body_of params) (js "location")
       = Route.Text (js "toString")
    /\ Route.required_field (body_of params) (js "days")
       = Route.Text (js "3")
    /\ (forall k, (0 <= clock k)%Z
          /\ (clock k + parse_days (request (js "3") None) * msPerDay
              <= 8640000000000000)%Z)
    /\ exists mockItinerary,
         fst (m 0) = Returned (Fallback mockItinerary
                                 (js "使用了备用数据，因为AI服务暂时不可用")).
Proof.
  intros clock env params.
  destruct (Route.POST (host := JsonText.host) (proto := V8_prototype) clock
              env FetchRejected (Some (body_of params))) as [m|] eqn:E.
  - exists m. split; [reflexivity|].
    assert (Hl : Route.required_field (body_of params) (js "location")
                 = Route.Text (js "toString")) by reflexivity.
    assert (Hd : Route.required_field (body_of params) (js "days")
                 = Route.Text (js "3")) by reflexivity.
    assert (Hc : forall k, (0 <= clock k)%Z
          /\ (clock k + parse_days (request (js "3") None) * msPerDay
              <= 8640000000000000)%Z).
    { intros k. split; intros C; vm_compute in C; discriminate C. }
    repeat (split; [assumption|]).
    apply (proj2 (validated_request_gets_an_itinerary (host := JsonText.host)
                    (proto := V8_prototype) clock env FetchRejected
                    (body_of params) (js "toString") (js "3") m 0 E Hl Hd Hc)).
    left. eexists. reflexivity.
  - rewrite POST_body_of in E by reflexivity.
    discriminate E.
Defined.

Lemma too_many_days_is_a_server_error_witness :
  let clock := fun _ : nat => 1762000000000%Z in
  let env := {| COZE_WORKFLOW_ID := None; COZE_API_KEY := None;
                COZE_API_ENDPOINT := None |} in
  let params := request (js "100000000") None in
  exists m,
    Route.POST (host := JsonText.host) (proto := V8_prototype) clock env
      FetchRejected (Some (body_of params)) = Some m
    /\ (forall k, (0 < clock k)%Z)
    /\ (100000000 <= parse_days (request (js "100000000") None))%Z
    /\ fst (m 0) = Returned (ServerError (js "服务器内部错误，请稍后再试")).
Proof.
  intros clock env params.
  destruct (Route.POST (host := JsonText.host) (proto := V8_prototype) clock
              env FetchRejected (Some (body_of params))) as [m|] eqn:E.
  - exists m. split; [reflexivity|].
    assert (Hl : Route.required_field (body_of params) (js "location")
                 = Route.Text (js "北京")) by reflexivity.
    assert (Hd : Route.required_field (body_of params) (js "days")
                 = Route.Text (js "100000000")) by reflexivity.
    assert (Hc : forall k, (0 < clock k)%Z) by (intros k; reflexivity).
    assert (Hm : (100000000 <= parse_days (request (js "100000000") None))%Z)
      by (intros C; vm_compute in C; discriminate C).
    repeat (split; [assumption|]).
    exact (too_many_days_is_a_server_error (host := JsonText.host)
             (proto := V8_prototype) clock env FetchRejected (body_of params) (js "北京")
             (js "100000000") m 0 E Hl Hd Hc Hm).
  - rewrite POST_body_of in E by reflexivity.
    discriminate E.
Defined.

Lemma bad_request_exactly_when_a_required_field_is_blank_witness :
  let clock := fun _ : nat => 1762000000000%Z in
  let env := {| COZE_WORKFLOW_ID := None; COZE_API_KEY := None;
                COZE_API_ENDPOINT := None |} in
  let body := JObj [(js "location", JStr (js "北京"))] in
  exists m,
    Route.POST (host := JsonText.host) (proto := V8_prototype) clock env
      FetchRejected (Some body) = Some m
    /\ fst (m 0) = Returned (BadRequest (js "旅行天数不能为空")).
Proof.
  intros clock env body.
  destruct (Route.POST (host := JsonText.host) (proto := V8_prototype) clock
              env FetchRejected (Some body)) as [m|] eqn:E.
  - exists m. split; [reflexivity|].
    apply (proj2 (bad_request_exactly_when_a_required_field_is_blank
                    (host := JsonText.host) (proto := V8_prototype) clock env
                    FetchRejected body m 0 E)).
    split; [discriminate|]. right.
    split; [exists (js "北京"); reflexivity|].
    split; reflexivity.
  - vm_compute in E. discriminate E.
Defined.

Lemma form_accepted_days_give_the_maximum_witness :
  let f := {| Form.departure := js "北京"; Form.f_destination := [];
              Form.f_days := js "9007199254740993-9007199254740992";
              Form.f_travelers := js "2";
              Form.f_preference := []; Form.f_budget := 2000;
              Form.unlimitedBudget := false;
              Form.unknownDestination := true |} in
  let p := Form.travelParams_of f in
  Form.handleSubmit f = Form.Submitted p
  /\ Form.nearest_double 9007199254740993 = Form.Finite 9007199254740992
  /\ parse_days p = 9007199254740992%Z
  /\ exists a b x y, days p = a ++ js "-" ++ b
       /\ parseInt a = Some x /\ parseInt b = Some y
       /\ (0 < x)%Z /\ (0 < y)%Z
       /\ parse_days p = y
       /\ Form.nearest_double (parse_days p)
          = Form.double_max (Form.nearest_double x) (Form.nearest_double y)
       /\ ((x <= 2 ^ 53)%Z -> (x <= y)%Z /\ parse_days p = Z.max x y).
Proof.
  intros f p.
  assert (H : Form.handleSubmit f = Form.Submitted p)
    by (vm_compute; reflexivity).
  split; [exact H|]. split; [vm_compute; reflexivity|].
  split; [vm_compute; reflexivity|].
  destruct (proj2 (form_accepted_days_give_the_maximum f p H))
    as [(x & Hno & _)|Hrange].
  - exfalso. apply Hno. vm_compute. tauto.
  - exact Hrange.
Defined.

Lemma form_submission_passes_the_checks_of_the_route_witness :
  let clock := fun _ : nat => 1762000000000%Z in
  let env := {| COZE_WORKFLOW_ID := None; COZE_API_KEY := None;
                COZE_API_ENDPOINT := None |} in
  let f := {| Form.departure := js "上海"; Form.f_destination := js "成都";
              Form.f_days := js "4"; Form.f_travelers := [];
              Form.f_preference := js "美食"; Form.f_budget := 5000;
              Form.unlimitedBudget := false;
              Form.unknownDestination := false |} in
  let p := Form.travelParams_of f in
  Form.handleSubmit f = Form.Submitted p
  /\ budget p = Some (js "5000")
  /\ (forall m n e,
        Route.POST (host := JsonText.host) (proto := V8_prototype) clock env
          FetchRejected (Some (body_of p)) = Some m ->
        fst (m n) <> Returned (BadRequest e))
  /\ exists b, budget p = Some b /\ b <> []
       /\ budget_text p = js "预算约" ++ b ++ js "元人民币"
       /\ budget_text p <> js "预算不限".
Proof.
  intros clock env f p.
  assert (H : Form.handleSubmit f = Form.Submitted p)
    by (vm_compute; reflexivity).
  split; [exact H|]. split; [vm_compute; reflexivity|].
  exact (proj2 (form_submission_passes_the_checks_of_the_route
                  (host := JsonText.host) (proto := V8_prototype) clock env
                  FetchRejected f p H)).
Defined.

Lemma called_endpoint_starts_with_http_witness :
  let env := {| COZE_WORKFLOW_ID := Some (js "7480000000000000000");
                COZE_API_KEY := Some (js "pat_key");
                COZE_API_ENDPOINT := Some (js "api.coze.cn/v1/workflow/stream_run") |} in
  let endpoint := js "https://api.coze.cn/v1/workflow/stream_run" in
  Route.configured env = Returned endpoint
  /\ startsWith (js "http") endpoint = true
  /\ Route.normalized_endpoint (Some endpoint) = Some endpoint.
Proof.
  intros env endpoint.
  assert (H : Route.configured env = Returned endpoint)
    by (vm_compute; reflexivity).
  destruct (called_endpoint_starts_with_http env endpoint H)
    as (H1 & _ & _ & e & _ & _ & _ & H2).
  split; [exact H|]. split; [exact H1 | exact H2].
Defined.

Lemma unescape_restores_text_without_backslash_witness :
  let s := js "Day 1" ++ LF ++ DQ ++ js "Xi'an" ++ DQ in
  ~ In 92%N s
  /\ escaped s = js "Day 1\n" ++ [92%N] ++ DQ ++ js "Xi'an" ++ [92%N] ++ DQ
  /\ unescape (escaped s) = s
  /\ unescape_nq (escaped s) = s
  /\ unescape s = s.
Proof.
  intros s.
  assert (H : ~ In 92%N s) by (vm_compute; intuition discriminate).
  split; [exact H|]. split; [vm_compute; reflexivity|].
  exact (unescape_restores_text_without_backslash s H).
Defined.

Lemma paragraph_cascade_drops_white_space_only_witness :
  let text := js "西安三日" ++ LF ++ js " " ++ LF ++ js "第一天"
              ++ LF ++ LF ++ js "城墙" in
  anchored_sections text = ([], [], [])
  /\ 3 <= length (split paragraphRegex text)
  /\ split_sections text = (js "西安三日", js "第一天", js "城墙")
  /\ let '(title, plan, highlights) := split_sections text in
     remove_class is_space (title ++ plan ++ highlights)
     = remove_class is_space text.
Proof.
  intros text.
  assert (H1 : anchored_sections text = ([], [], []))
    by (vm_compute; reflexivity).
  assert (H2 : 3 <= length (split paragraphRegex text))
    by (apply Nat.leb_le; vm_compute; reflexivity).
  repeat (split; [assumption|]). split; [vm_compute; reflexivity|].
  exact (paragraph_cascade_drops_white_space_only text H1 H2).
Defined.

Lemma accumulated_text_is_parsed_without_a_second_delta_witness :
  let params := request (js "3") None in
  let reads := [sse_frame "message" first_delta] in
  let st := state_of (read_loop (host := JsonText.host) reads initial_state) in
  read_loop (host := JsonText.host) reads initial_state = Ok st
  /\ deltaCount st <= 1
  /\ accumulatedResponse st = js "旅"
  /\ completeResponse st = JStr []
  /\ generateCozeItinerary (host := JsonText.host) params reads
     = Ok (parseCozeResponseToItinerary (accumulatedResponse st) params).
Proof.
  intros params reads st.
  assert (H1 : read_loop (host := JsonText.host) reads initial_state = Ok st)
    by (vm_compute; reflexivity).
  assert (H2 : deltaCount st <= 1)
    by (apply Nat.leb_le; vm_compute; reflexivity).
  assert (H3 : accumulatedResponse st <> [])
    by (vm_compute; discriminate).
  destruct (accumulated_text_is_parsed_without_a_second_delta
              (host := JsonText.host) params reads st H1 H2 H3)
    as (Hc & _ & Hg).
  repeat (split; [assumption|]). split; [vm_compute; reflexivity|].
  split; [exact Hc | exact Hg].
Defined.
